(** * Cold redundancy engine of the PSU manager

    A shallow embedding of [src/cold_redundancy.cpp]: the retrying register
    access layer ([writePmbus], [readPmbus]), the re-ranking algorithm
    ([reRanking]), the redundancy control state machine ([configCR],
    [rotateCR] and their settle-timer continuations), the rotation scheduler
    and drift checker, the configuration ingestion paths and the redundancy
    health classifier ([checkRedundancyEvent]).

    Conventions.
    - A [uint8_t] is a [Z] whose wrap-around is written out with [u8];
      an [int] counter that cannot overflow on a fleet is a plain [Z].
    - The engine is a record threaded through every method (explicit state
      passing); the asio timers are slots of waiting completion handlers and
      the event loop is a queue of ready handlers, each with its error code.
    - What the source takes from headers that are not part of the source
      file (the I2C helpers, the PMBus command code, the rotation period
      bounds, the algorithm name conversion) is a parameter, collected in
      the class [Platform]. *)

From Stdlib Require Import ZArith List Ascii String Bool Lia DecimalString.
Import ListNotations.
Local Open Scope string_scope.
Local Open Scope Z_scope.

(** ** Machine integers *)

(** The value a [uint8_t] holds after an assignment of [z]. *)
Definition u8 (z : Z) : Z := z mod 256.

(** [std::to_string] on an [int]. *)
Definition to_string (z : Z) : string := NilZero.string_of_int (Z.to_int z).

(** ** Enumerations of the engine *)

Inductive PSUState := normal | acLost.
Inductive Status := completed | inProgress.
Inductive Algo := bmcSpecific | userSpecific.

(** [boost::system::error_code] as the timer handlers inspect it: no error,
    [boost::asio::error::operation_aborted], or any other error. *)
Inductive ErrorCode := success | operation_aborted | timer_fault.

(** The four association lists that [checkRedundancyEvent] publishes. *)
Inductive Associations :=
  associationsOk | associationsWarning | associationsNonCrit | associationsCrit.

Definition PSUState_eqb (a b : PSUState) : bool :=
  match a, b with normal, normal | acLost, acLost => true | _, _ => false end.
Definition Status_eqb (a b : Status) : bool :=
  match a, b with completed, completed | inProgress, inProgress => true | _, _ => false end.
Definition Algo_eqb (a b : Algo) : bool :=
  match a, b with bmcSpecific, bmcSpecific | userSpecific, userSpecific => true | _, _ => false end.

(** The variant carried by a PropertiesChanged message and by the settings
    reply: [std::variant<bool, uint8_t, uint32_t, std::string,
    std::vector<uint8_t>>]. *)
Inductive Variant :=
| VBool (b : bool)
| VU8 (z : Z)
| VU32 (z : Z)
| VString (s : string)
| VBytes (l : list Z).

Definition get_if_bool (v : option Variant) : option bool :=
  match v with Some (VBool b) => Some b | _ => None end.
Definition get_if_u32 (v : option Variant) : option Z :=
  match v with Some (VU32 z) => Some z | _ => None end.
Definition get_if_string (v : option Variant) : option string :=
  match v with Some (VString s) => Some s | _ => None end.
Definition get_if_bytes (v : option Variant) : option (list Z) :=
  match v with Some (VBytes l) => Some l | _ => None end.

(** A property map, in iteration order. *)
Definition PropertyMap := list (string * Variant).

Fixpoint lookup (key : string) (m : PropertyMap) : option Variant :=
  match m with
  | [] => None
  | (k, v) :: rest => if String.eqb k key then Some v else lookup key rest
  end.

(** ** The platform

    Declared in [utility.hpp] and [cold_redundancy.hpp], which are not part
    of the source file: the two I2C helpers, acting on the state [I2c] of
    the devices on the buses and returning a status that is zero on
    success; the PMBus command code of the redundancy order register; the
    bounds of the rotation period; one day in seconds; the conversions
    between the algorithm and its name. [i2cGet] receives the current
    content of its [int&] result and returns the new content. *)
Class Platform := {
  I2c : Type;
  i2cSet : Z -> Z -> Z -> Z -> I2c -> Z * I2c;
  i2cGet : Z -> Z -> Z -> Z -> I2c -> Z * Z * I2c;
  pmbusCmdCRSupport : Z;
  minRotationPeriod : Z;
  maxRotationPeriod : Z;
  oneDay : Z;
  convertAlgoFromString : string -> Algo;
  convertAlgoToString : Algo -> string
}.

(** ** The world outside the engine *)

(** One call of an I2C helper. *)
Inductive IoEvent :=
| IoSet (bus addr reg value : Z)
| IoGet (bus addr reg : Z).

Definition is_write (e : IoEvent) : bool :=
  match e with IoSet _ _ _ _ => true | IoGet _ _ _ => false end.

(** The number of register writes in a trace. *)
Definition writes (l : list IoEvent) : nat := List.length (filter is_write l).

Section Engine.
Context {P : Platform}.

(** The devices, the trace of I2C calls, the lines on [std::cerr], the
    Redfish message ids sent to the journal, the association lists
    published, and the properties sent to the settings service. *)
Record World := {
  i2c : I2c;
  io_log : list IoEvent;
  cerr : list string;
  journal : list string;
  published : list Associations;
  settings : list (string * Variant)
}.

Definition say (msg : string) (w : World) : World :=
  {| i2c := i2c w; io_log := io_log w; cerr := cerr w ++ [msg];
     journal := journal w; published := published w; settings := settings w |}.

Definition sd_journal_send (id : string) (w : World) : World :=
  {| i2c := i2c w; io_log := io_log w; cerr := cerr w;
     journal := journal w ++ [id]; published := published w; settings := settings w |}.

Definition set_property_Associations (a : Associations) (w : World) : World :=
  {| i2c := i2c w; io_log := io_log w; cerr := cerr w;
     journal := journal w; published := published w ++ [a]; settings := settings w |}.

Definition saveProperty (propertyName : string) (value : Variant) (w : World) : World :=
  {| i2c := i2c w; io_log := io_log w; cerr := cerr w;
     journal := journal w; published := published w;
     settings := settings w ++ [(propertyName, value)] |}.

Definition do_i2cSet (bus addr value : Z) (w : World) : Z * World :=
  let '(ret, dev) := i2cSet bus addr pmbusCmdCRSupport value (i2c w) in
  (ret, {| i2c := dev; io_log := io_log w ++ [IoSet bus addr pmbusCmdCRSupport value];
           cerr := cerr w; journal := journal w; published := published w;
           settings := settings w |}).

Definition do_i2cGet (bus addr cur : Z) (w : World) : Z * Z * World :=
  let '(ret, v, dev) := i2cGet bus addr pmbusCmdCRSupport cur (i2c w) in
  (ret, v, {| i2c := dev; io_log := io_log w ++ [IoGet bus addr pmbusCmdCRSupport];
              cerr := cerr w; journal := journal w; published := published w;
              settings := settings w |}).

(** ** Register access layer *)

Definition retryCount : Z := 3.

(** The body of the [do] loop of [writePmbus], from the call of [i2cSet]
    on: it returns the content of [tmpValue] when control reaches the loop
    condition (both [continue] statements jump there). *)
Definition writePmbus_attempt (bus slaveAddr value tmpValue : Z) (w : World) : Z * World :=
  let '(ret, w) := do_i2cSet bus slaveAddr value w in
  if negb (ret =? 0) then (tmpValue, say "Failed to call i2cset" w)
  else
    let '(ret, tmpValue, w) := do_i2cGet bus slaveAddr tmpValue w in
    if negb (ret =? 0) then (tmpValue, say "Failed to call i2cget" w)
    else (tmpValue, w).

(** The [do ... while (i++ < retryCount && tmpValue != value)] loop, entered
    with the counter at [i]. [None] when the fuel is exhausted. *)
Fixpoint writePmbus_loop (fuel : nat) (bus slaveAddr value i tmpValue : Z) (w : World)
  : option World :=
  match fuel with
  | O => None
  | S fuel =>
    let w := if 0 <? i then say ("i2cset retry: " ++ to_string i) w else w in
    let '(tmpValue, w) := writePmbus_attempt bus slaveAddr value tmpValue w in
    if (i <? retryCount) && negb (tmpValue =? value)
    then writePmbus_loop fuel bus slaveAddr value (i + 1) tmpValue w
    else Some w
  end.

(** Enough fuel for every run of either loop: the counter starts at 0 and
    the loop is left once it has reached [retryCount]. *)
Definition pmbus_fuel : nat := S (Z.to_nat retryCount).

Definition writePmbus (bus slaveAddr value : Z) (w : World) : World :=
  match writePmbus_loop pmbus_fuel bus slaveAddr value 0 (-1) w with
  | Some w' => w'
  | None => w
  end.

(** The [do ... while (i++ < retryCount && ret)] loop of [readPmbus]; the
    result is the content of the caller's [value] and the world. *)
Fixpoint readPmbus_loop (fuel : nat) (bus slaveAddr i value : Z) (w : World)
  : option (Z * World) :=
  match fuel with
  | O => None
  | S fuel =>
    let '(ret, value, w) := do_i2cGet bus slaveAddr value w in
    let w := if negb (ret =? 0)
             then say ("Failed to call i2cget, retry: " ++ to_string i) w else w in
    if (i <? retryCount) && negb (ret =? 0)
    then readPmbus_loop fuel bus slaveAddr (i + 1) value w
    else Some (value, w)
  end.

Definition readPmbus (bus slaveAddr value : Z) (w : World) : Z * World :=
  match readPmbus_loop pmbus_fuel bus slaveAddr 0 value w with
  | Some r => r
  | None => (value, w)
  end.

(** ** Data model *)

(** One managed PSU: [order] is its rotation rank (0 when it does not take
    part), [bus] and [address] its hardware location; the three are
    [uint8_t], as the constructor takes them and as [writePmbus] and the
    rank order vector receive them. *)
Record PowerSupply := {
  name : string;
  bus : Z;
  address : Z;
  order : Z;
  state : PSUState
}.

Definition set_order (o : Z) (psu : PowerSupply) : PowerSupply :=
  {| name := name psu; bus := bus psu; address := address psu; order := o;
     state := state psu |}.

Definition set_state (st : PSUState) (psu : PowerSupply) : PowerSupply :=
  {| name := name psu; bus := bus psu; address := address psu; order := order psu;
     state := st |}.

(** The completion handlers given to [async_wait], named after the method
    that arms the timer. *)
Inductive Handler :=
| configCR_wait (reConfig : bool)
| rotateCR_wait
| startRotateCR_wait
| startCRCheck_wait
| checkRedundancyEvent_wait.

Inductive TimerId := warmRedundantTimer | timerRotation | timerCheck | puRedundantTimer.

Definition TimerId_eqb (a b : TimerId) : bool :=
  match a, b with
  | warmRedundantTimer, warmRedundantTimer | timerRotation, timerRotation
  | timerCheck, timerCheck | puRedundantTimer, puRedundantTimer => true
  | _, _ => false
  end.

(** A [steady_timer]: its expiry (in seconds from the moment it was set)
    and the handlers waiting on it. *)
Record Timer := { expiry : Z; waiting : list Handler }.

(** The engine: the members of [ColdRedundancy] (its D-Bus properties
    included), the file-level [powerSupplies], the two function-level
    statics ([psuPreviousWorkable] is [None] until the classifier first
    runs), the timers, the handlers the event loop has ready to run, and
    the world. *)
Record Engine := {
  crSupported : bool;
  powerSupplyRedundancyEnabled : bool;
  rotationEnabled : bool;
  periodOfRotation : Z;
  rotationAlgorithm : Algo;
  rotationRankOrder : list Z;
  coldRedundancyStatus : Status;
  redundantCount : Z;
  numberOfPSU : Z;
  powerSupplies : list PowerSupply;
  psuPreviousWorkable : option Z;
  logOnlyOnce : bool;
  timers : TimerId -> Timer;
  ready : list (Handler * ErrorCode);
  world : World
}.

Definition set_powerSupplyRedundancyEnabled (v : bool) (s : Engine) : Engine :=
  {| crSupported := crSupported s; powerSupplyRedundancyEnabled := v;
     rotationEnabled := rotationEnabled s; periodOfRotation := periodOfRotation s;
     rotationAlgorithm := rotationAlgorithm s;
     rotationRankOrder := rotationRankOrder s;
     coldRedundancyStatus := coldRedundancyStatus s;
     redundantCount := redundantCount s; numberOfPSU := numberOfPSU s;
     powerSupplies := powerSupplies s;
     psuPreviousWorkable := psuPreviousWorkable s; logOnlyOnce := logOnlyOnce s;
     timers := timers s; ready := ready s; world := world s |}.

Definition set_rotationEnabled (v : bool) (s : Engine) : Engine :=
  {| crSupported := crSupported s;
     powerSupplyRedundancyEnabled := powerSupplyRedundancyEnabled s;
     rotationEnabled := v; periodOfRotation := periodOfRotation s;
     rotationAlgorithm := rotationAlgorithm s;
     rotationRankOrder := rotationRankOrder s;
     coldRedundancyStatus := coldRedundancyStatus s;
     redundantCount := redundantCount s; numberOfPSU := numberOfPSU s;
     powerSupplies := powerSupplies s;
     psuPreviousWorkable := psuPreviousWorkable s; logOnlyOnce := logOnlyOnce s;
     timers := timers s; ready := ready s; world := world s |}.

Definition set_periodOfRotation (v : Z) (s : Engine) : Engine :=
  {| crSupported := crSupported s;
     powerSupplyRedundancyEnabled := powerSupplyRedundancyEnabled s;
     rotationEnabled := rotationEnabled s; periodOfRotation := v;
     rotationAlgorithm := rotationAlgorithm s;
     rotationRankOrder := rotationRankOrder s;
     coldRedundancyStatus := coldRedundancyStatus s;
     redundantCount := redundantCount s; numberOfPSU := numberOfPSU s;
     powerSupplies := powerSupplies s;
     psuPreviousWorkable := psuPreviousWorkable s; logOnlyOnce := logOnlyOnce s;
     timers := timers s; ready := ready s; world := world s |}.

Definition set_rotationAlgorithm (v : Algo) (s : Engine) : Engine :=
  {| crSupported := crSupported s;
     powerSupplyRedundancyEnabled := powerSupplyRedundancyEnabled s;
     rotationEnabled := rotationEnabled s; periodOfRotation := periodOfRotation s;
     rotationAlgorithm := v; rotationRankOrder := rotationRankOrder s;
     coldRedundancyStatus := coldRedundancyStatus s;
     redundantCount := redundantCount s; numberOfPSU := numberOfPSU s;
     powerSupplies := powerSupplies s;
     psuPreviousWorkable := psuPreviousWorkable s; logOnlyOnce := logOnlyOnce s;
     timers := timers s; ready := ready s; world := world s |}.

Definition set_rotationRankOrder (v : list Z) (s : Engine) : Engine :=
  {| crSupported := crSupported s;
     powerSupplyRedundancyEnabled := powerSupplyRedundancyEnabled s;
     rotationEnabled := rotationEnabled s; periodOfRotation := periodOfRotation s;
     rotationAlgorithm := rotationAlgorithm s; rotationRankOrder := v;
     coldRedundancyStatus := coldRedundancyStatus s;
     redundantCount := redundantCount s; numberOfPSU := numberOfPSU s;
     powerSupplies := powerSupplies s;
     psuPreviousWorkable := psuPreviousWorkable s; logOnlyOnce := logOnlyOnce s;
     timers := timers s; ready := ready s; world := world s |}.

Definition set_coldRedundancyStatus (v : Status) (s : Engine) : Engine :=
  {| crSupported := crSupported s;
     powerSupplyRedundancyEnabled := powerSupplyRedundancyEnabled s;
     rotationEnabled := rotationEnabled s; periodOfRotation := periodOfRotation s;
     rotationAlgorithm := rotationAlgorithm s;
     rotationRankOrder := rotationRankOrder s; coldRedundancyStatus := v;
     redundantCount := redundantCount s; numberOfPSU := numberOfPSU s;
     powerSupplies := powerSupplies s;
     psuPreviousWorkable := psuPreviousWorkable s; logOnlyOnce := logOnlyOnce s;
     timers := timers s; ready := ready s; world := world s |}.

Definition set_numberOfPSU (v : Z) (s : Engine) : Engine :=
  {| crSupported := crSupported s;
     powerSupplyRedundancyEnabled := powerSupplyRedundancyEnabled s;
     rotationEnabled := rotationEnabled s; periodOfRotation := periodOfRotation s;
     rotationAlgorithm := rotationAlgorithm s;
     rotationRankOrder := rotationRankOrder s;
     coldRedundancyStatus := coldRedundancyStatus s;
     redundantCount := redundantCount s; numberOfPSU := v;
     powerSupplies := powerSupplies s;
     psuPreviousWorkable := psuPreviousWorkable s; logOnlyOnce := logOnlyOnce s;
     timers := timers s; ready := ready s; world := world s |}.

Definition set_powerSupplies (v : list PowerSupply) (s : Engine) : Engine :=
  {| crSupported := crSupported s;
     powerSupplyRedundancyEnabled := powerSupplyRedundancyEnabled s;
     rotationEnabled := rotationEnabled s; periodOfRotation := periodOfRotation s;
     rotationAlgorithm := rotationAlgorithm s;
     rotationRankOrder := rotationRankOrder s;
     coldRedundancyStatus := coldRedundancyStatus s;
     redundantCount := redundantCount s; numberOfPSU := numberOfPSU s;
     powerSupplies := v; psuPreviousWorkable := psuPreviousWorkable s;
     logOnlyOnce := logOnlyOnce s; timers := timers s; ready := ready s;
     world := world s |}.

Definition set_psuPreviousWorkable (v : option Z) (s : Engine) : Engine :=
  {| crSupported := crSupported s;
     powerSupplyRedundancyEnabled := powerSupplyRedundancyEnabled s;
     rotationEnabled := rotationEnabled s; periodOfRotation := periodOfRotation s;
     rotationAlgorithm := rotationAlgorithm s;
     rotationRankOrder := rotationRankOrder s;
     coldRedundancyStatus := coldRedundancyStatus s;
     redundantCount := redundantCount s; numberOfPSU := numberOfPSU s;
     powerSupplies := powerSupplies s; psuPreviousWorkable := v;
     logOnlyOnce := logOnlyOnce s; timers := timers s; ready := ready s;
     world := world s |}.

Definition set_logOnlyOnce (v : bool) (s : Engine) : Engine :=
  {| crSupported := crSupported s;
     powerSupplyRedundancyEnabled := powerSupplyRedundancyEnabled s;
     rotationEnabled := rotationEnabled s; periodOfRotation := periodOfRotation s;
     rotationAlgorithm := rotationAlgorithm s;
     rotationRankOrder := rotationRankOrder s;
     coldRedundancyStatus := coldRedundancyStatus s;
     redundantCount := redundantCount s; numberOfPSU := numberOfPSU s;
     powerSupplies := powerSupplies s;
     psuPreviousWorkable := psuPreviousWorkable s; logOnlyOnce := v;
     timers := timers s; ready := ready s; world := world s |}.

Definition set_timers (v : TimerId -> Timer) (s : Engine) : Engine :=
  {| crSupported := crSupported s;
     powerSupplyRedundancyEnabled := powerSupplyRedundancyEnabled s;
     rotationEnabled := rotationEnabled s; periodOfRotation := periodOfRotation s;
     rotationAlgorithm := rotationAlgorithm s;
     rotationRankOrder := rotationRankOrder s;
     coldRedundancyStatus := coldRedundancyStatus s;
     redundantCount := redundantCount s; numberOfPSU := numberOfPSU s;
     powerSupplies := powerSupplies s;
     psuPreviousWorkable := psuPreviousWorkable s; logOnlyOnce := logOnlyOnce s;
     timers := v; ready := ready s; world := world s |}.

Definition set_ready (v : list (Handler * ErrorCode)) (s : Engine) : Engine :=
  {| crSupported := crSupported s;
     powerSupplyRedundancyEnabled := powerSupplyRedundancyEnabled s;
     rotationEnabled := rotationEnabled s; periodOfRotation := periodOfRotation s;
     rotationAlgorithm := rotationAlgorithm s;
     rotationRankOrder := rotationRankOrder s;
     coldRedundancyStatus := coldRedundancyStatus s;
     redundantCount := redundantCount s; numberOfPSU := numberOfPSU s;
     powerSupplies := powerSupplies s;
     psuPreviousWorkable := psuPreviousWorkable s; logOnlyOnce := logOnlyOnce s;
     timers := timers s; ready := v; world := world s |}.

Definition set_world (v : World) (s : Engine) : Engine :=
  {| crSupported := crSupported s;
     powerSupplyRedundancyEnabled := powerSupplyRedundancyEnabled s;
     rotationEnabled := rotationEnabled s; periodOfRotation := periodOfRotation s;
     rotationAlgorithm := rotationAlgorithm s;
     rotationRankOrder := rotationRankOrder s;
     coldRedundancyStatus := coldRedundancyStatus s;
     redundantCount := redundantCount s; numberOfPSU := numberOfPSU s;
     powerSupplies := powerSupplies s;
     psuPreviousWorkable := psuPreviousWorkable s; logOnlyOnce := logOnlyOnce s;
     timers := timers s; ready := ready s; world := v |}.

(** ** Timers *)

Definition aborted (hs : list Handler) : list (Handler * ErrorCode) :=
  map (fun h => (h, operation_aborted)) hs.

Definition with_timer (t : TimerId) (v : Timer) (s : Engine) : Engine :=
  set_timers (fun t' => if TimerId_eqb t' t then v else timers s t') s.

(** [t.cancel()]: every waiting handler is made ready with
    [operation_aborted]. *)
Definition cancel (t : TimerId) (s : Engine) : Engine :=
  with_timer t {| expiry := expiry (timers s t); waiting := [] |}
    (set_ready (ready s ++ aborted (waiting (timers s t))) s).

(** [t.expires_after(d)]: as [cancel], and the expiry is set. *)
Definition expires_after (t : TimerId) (d : Z) (s : Engine) : Engine :=
  with_timer t {| expiry := d; waiting := [] |}
    (set_ready (ready s ++ aborted (waiting (timers s t))) s).

Definition async_wait (t : TimerId) (h : Handler) (s : Engine) : Engine :=
  with_timer t {| expiry := expiry (timers s t); waiting := waiting (timers s t) ++ [h] |} s.

Definition cerr_engine (msg : string) (s : Engine) : Engine :=
  set_world (say msg (world s)) s.

(** ** Re-ranking *)

Definition is_normal (psu : PowerSupply) : bool := PSUState_eqb (state psu) normal.
Definition is_acLost (psu : PowerSupply) : bool := PSUState_eqb (state psu) acLost.

(** [orders[n] = v] on a vector, for an index in range. *)
Fixpoint assign (n : nat) (v : Z) (orders : list Z) : list Z :=
  match orders, n with
  | [], _ => []
  | _ :: rest, O => v :: rest
  | x :: rest, S n => x :: assign n v rest
  end.

(** The loop of the [bmcSpecific] branch of [reRanking] over the PSUs that
    remain, with the locals [index], [psuNumber], [orders] and the static
    [logOnlyOnce]. *)
Fixpoint reRanking_loop (psus : list PowerSupply) (index psuNumber : Z) (orders : list Z)
    (once : bool) (w : World) : list PowerSupply * (list Z * (bool * World)) :=
  match psus with
  | [] => ([], (orders, (once, w)))
  | psu :: rest =>
    let '(psu, index) :=
      if is_normal psu then (set_order index psu, u8 (index + 1))
      else (set_order 0 psu, index) in
    let '(psuNumber, (orders, (once, w))) :=
      if psuNumber <? Z.of_nat (List.length orders)
      then (u8 (psuNumber + 1), (assign (Z.to_nat psuNumber) (order psu) orders, (once, w)))
      else if negb once
           then (psuNumber, (orders, (true, say "RotationRankOrder less than number of PSUs" w)))
           else (psuNumber, (orders, (once, w))) in
    let '(rest, r) := reRanking_loop rest index psuNumber orders once w in
    (psu :: rest, r)
  end.

(** [reRanking], with the depth of recursion it may use; the result carries
    the number of nested calls that were made. The loop of the second
    branch returns at the first PSU in [acLost], so it is entered exactly
    when some PSU is in that state. *)
Fixpoint reRanking_rec (depth : nat) (s : Engine) : option (Engine * nat) :=
  match depth with
  | O => None
  | S depth =>
    if Algo_eqb (rotationAlgorithm s) bmcSpecific then
      let '(psus, (orders, (once, w))) :=
        reRanking_loop (powerSupplies s) 1 0 (rotationRankOrder s) (logOnlyOnce s) (world s) in
      Some (set_rotationRankOrder orders
              (set_world w (set_logOnlyOnce once (set_powerSupplies psus s))), O)
    else if existsb is_acLost (powerSupplies s) then
      match reRanking_rec depth (set_rotationAlgorithm bmcSpecific s) with
      | Some (s', n) => Some (s', S n)
      | None => None
      end
    else Some (s, O)
  end.

Definition reRanking (s : Engine) : Engine :=
  match reRanking_rec 2 s with
  | Some (s', _) => s'
  | None => s
  end.

(** ** Redundancy control state machine *)

(** The guard both entry points start with. *)
Definition blocked (s : Engine) : bool :=
  negb (crSupported s) || negb (powerSupplyRedundancyEnabled s)
  || Status_eqb (coldRedundancyStatus s) inProgress.

Definition putWarmRedundant (s : Engine) : Engine :=
  if negb (crSupported s) then s
  else
    set_world
      (fold_left (fun w psu => if is_normal psu
                               then writePmbus (bus psu) (address psu) 0 w else w)
                 (powerSupplies s) (world s)) s.

Definition startRotateCR (s : Engine) : Engine :=
  async_wait timerRotation startRotateCR_wait
    (expires_after timerRotation (periodOfRotation s) s).

Definition startCRCheck (s : Engine) : Engine :=
  async_wait timerCheck startCRCheck_wait (expires_after timerCheck 60 s).

Definition configCR (reConfig : bool) (s : Engine) : Engine :=
  if blocked s then s
  else
    let s := cancel timerRotation s in
    let s := cancel timerCheck s in
    let s := startRotateCR s in
    let s := startCRCheck s in
    let s := set_coldRedundancyStatus inProgress s in
    let s := putWarmRedundant s in
    let s := expires_after warmRedundantTimer 5 s in
    async_wait warmRedundantTimer (configCR_wait reConfig) s.

(** The final rank writes of the continuation of [configCR]. *)
Definition write_ranks (psus : list PowerSupply) (w : World) : World :=
  fold_left (fun w psu => if is_normal psu && negb (order psu =? 0)
                          then writePmbus (bus psu) (address psu) (order psu) w else w)
            psus w.

(** The continuation [configCR] gives to the settle timer. *)
Definition configCR_handler (reConfig : bool) (ec : ErrorCode) (s : Engine) : Engine :=
  match ec with
  | operation_aborted => set_coldRedundancyStatus completed s
  | timer_fault =>
    cerr_engine "warm redundant timer error" (set_coldRedundancyStatus completed s)
  | success =>
    let s := if reConfig then reRanking s else s in
    let s := set_world (write_ranks (powerSupplies s) (world s)) s in
    set_coldRedundancyStatus completed s
  end.

Definition rotateCR (s : Engine) : Engine :=
  if blocked s then s
  else
    let s := set_coldRedundancyStatus inProgress s in
    let s := putWarmRedundant s in
    let s := expires_after warmRedundantTimer 5 s in
    async_wait warmRedundantTimer rotateCR_wait s.

(** [goodPSUCount] is an [int]. *)
Definition goodPSUCount (psus : list PowerSupply) : Z :=
  fold_left (fun n psu => if is_normal psu then n + 1 else n) psus 0.

(** The new order of a PSU whose order is not 0: [psu->order++] on a
    [uint8_t], then the comparison with the [int] count. *)
Definition rotated (good o : Z) : Z :=
  let o := u8 (o + 1) in
  if good <? o then 1 else o.

(** The second loop of the continuation of [rotateCR]. *)
Fixpoint rotate_loop (good : Z) (psus : list PowerSupply) (w : World)
  : list PowerSupply * World :=
  match psus with
  | [] => ([], w)
  | psu :: rest =>
    if order psu =? 0 then
      let '(rest, w) := rotate_loop good rest w in (psu :: rest, w)
    else
      let psu := set_order (rotated good (order psu)) psu in
      let w := writePmbus (bus psu) (address psu) (order psu) w in
      let '(rest, w) := rotate_loop good rest w in (psu :: rest, w)
  end.

(** The continuation [rotateCR] gives to the settle timer. *)
Definition rotateCR_handler (ec : ErrorCode) (s : Engine) : Engine :=
  match ec with
  | operation_aborted => set_coldRedundancyStatus completed s
  | timer_fault =>
    cerr_engine "warm redundant timer error" (set_coldRedundancyStatus completed s)
  | success =>
    let good := goodPSUCount (powerSupplies s) in
    let '(psus, w) := rotate_loop good (powerSupplies s) (world s) in
    let s := set_world w (set_powerSupplies psus s) in
    let s := set_rotationRankOrder (map order (powerSupplies s)) s in
    set_coldRedundancyStatus completed s
  end.

(** ** Rotation scheduler and drift checker *)

Definition startRotateCR_handler (ec : ErrorCode) (s : Engine) : Engine :=
  match ec with
  | operation_aborted => s
  | _ =>
    let s := match ec with timer_fault => cerr_engine "timer error" s | _ => s end in
    let s := if crSupported s && rotationEnabled s then rotateCR s else s in
    startRotateCR s
  end.

(** The loop of [checkCR] over the PSUs that remain. *)
Fixpoint checkCR_loop (psus : list PowerSupply) (s : Engine) : Engine :=
  match psus with
  | [] => s
  | psu :: rest =>
    if is_normal psu then
      let '(order, w) := readPmbus (bus psu) (address psu) (-1) (world s) in
      let s := set_world w s in
      if order =? 0 then configCR true s else checkCR_loop rest s
    else checkCR_loop rest s
  end.

Definition checkCR (s : Engine) : Engine :=
  if negb (crSupported s) then s
  else if negb (powerSupplyRedundancyEnabled s) then putWarmRedundant s
  else checkCR_loop (powerSupplies s) s.

Definition startCRCheck_handler (ec : ErrorCode) (s : Engine) : Engine :=
  match ec with
  | operation_aborted => s
  | _ =>
    let s := match ec with timer_fault => cerr_engine "timer error" s | _ => s end in
    let s := if crSupported s then checkCR s else s in
    startCRCheck s
  end.

(** ** Health event classifier *)

(** [psuWorkable] is a [uint8_t]. *)
Definition psuWorkable (psus : list PowerSupply) : Z :=
  fold_left (fun n psu => if is_normal psu then u8 (n + 1) else n) psus 0.

Definition emit (id : string) (a : Associations) (w : World) : World :=
  set_property_Associations a (sd_journal_send id w).

(** The comparison of the workable count with the count of the previous
    evaluation, in the continuation of [checkRedundancyEvent]. *)
Definition classify (workable previous redundant total : Z) (w : World) : World :=
  if previous <? workable then
    if redundant <=? workable then
      if workable =? total then
        emit "OpenBMC.0.1.PowerUnitRedundancyRegained" associationsOk w
      else if previous <? redundant then
        emit "OpenBMC.0.1.PowerUnitDegradedFromNonRedundant" associationsWarning w
      else w
    else if previous =? 0 then
      emit "OpenBMC.0.1.PowerUnitNonRedundantFromInsufficient" associationsNonCrit w
    else w
  else if workable <? previous then
    if redundant <=? workable then
      let w := emit "OpenBMC.0.1.PowerUnitRedundancyDegraded" associationsWarning w in
      if previous =? total
      then sd_journal_send "OpenBMC.0.1.PowerUnitDegradedFromRedundant" w
      else w
    else
      let w :=
        if redundant <=? previous then
          let w := sd_journal_send "OpenBMC.0.1.PowerUnitRedundancyLost" w in
          if 0 <? workable
          then emit "OpenBMC.0.1.PowerUnitNonRedundantSufficient" associationsWarning w
          else w
        else w in
      if workable =? 0
      then emit "OpenBMC.0.1.PowerUnitNonRedundantInsufficient" associationsCrit w
      else w
  else w.

(** The value of the static [psuPreviousWorkable] at an evaluation: it is
    initialised from [numberOfPSU] the first time control passes it. *)
Definition previousWorkable (s : Engine) : Z :=
  match psuPreviousWorkable s with
  | Some n => n
  | None => numberOfPSU s
  end.

(** The continuation [checkRedundancyEvent] gives to the debounce timer. *)
Definition checkRedundancyEvent_handler (ec : ErrorCode) (s : Engine) : Engine :=
  match ec with
  | operation_aborted => s
  | _ =>
    let workable := psuWorkable (powerSupplies s) in
    let w := classify workable (previousWorkable s) (redundantCount s) (numberOfPSU s)
                      (world s) in
    set_psuPreviousWorkable (Some workable) (set_world w s)
  end.

Definition checkRedundancyEvent (s : Engine) : Engine :=
  if negb (crSupported s) || negb (powerSupplyRedundancyEnabled s) then s
  else async_wait puRedundantTimer checkRedundancyEvent_wait
         (expires_after puRedundantTimer 2 s).

(** ** Configuration ingestion *)

Definition saveConfig (s : Engine) : Engine :=
  let w := world s in
  let w := saveProperty "PowerSupplyRedundancyEnabled"
             (VBool (powerSupplyRedundancyEnabled s)) w in
  let w := saveProperty "RotationEnabled" (VBool (rotationEnabled s)) w in
  let w := saveProperty "RotationAlgorithm"
             (VString (convertAlgoToString (rotationAlgorithm s))) w in
  let w := saveProperty "RotationRankOrder" (VBytes (rotationRankOrder s)) w in
  let w := saveProperty "PeriodOfRotation" (VU32 (periodOfRotation s)) w in
  set_world w s.

(** The callback of the constructor's [GetAll] call to the settings
    service; [ec] is true when the call failed. A key that is absent from
    the reply yields a null [get_if]. *)
Definition settings_handler (ec : bool) (propMap : PropertyMap) (s : Engine) : Engine :=
  if ec then cerr_engine "Exception happened when get all properties" s
  else
    match get_if_u32 (lookup "PeriodOfRotation" propMap),
          get_if_bool (lookup "PowerSupplyRedundancyEnabled" propMap),
          get_if_string (lookup "RotationAlgorithm" propMap),
          get_if_bool (lookup "RotationEnabled" propMap),
          get_if_bytes (lookup "RotationRankOrder" propMap) with
    | Some period, Some redundancyEnabled, Some algorithm, Some enabled, Some rankOrder =>
      let s :=
        if (minRotationPeriod <=? period) && (period <=? maxRotationPeriod)
        then set_periodOfRotation period s
        else cerr_engine ("error invalid period, valid period is between ("
                            ++ to_string minRotationPeriod ++ "seconds) and ("
                            ++ to_string maxRotationPeriod ++ "seconds)") s in
      let s := set_powerSupplyRedundancyEnabled redundancyEnabled s in
      let s := set_rotationAlgorithm (convertAlgoFromString algorithm) s in
      let s := set_rotationEnabled enabled s in
      let s := set_rotationRankOrder rankOrder s in
      let s := configCR false s in
      let s := cancel timerRotation s in
      startRotateCR s
    | _, _, _, _, _ => cerr_engine "error reading configuration data" s
    end.

(** The inner loop of [refreshConfig]: the rank sequence applied to the
    PSUs that remain, with the [uint8_t] counter at [index]. *)
Fixpoint apply_rank (pRank : list Z) (index : Z) (psus : list PowerSupply)
  : list PowerSupply :=
  match psus with
  | [] => []
  | psu :: rest =>
    (if index <? Z.of_nat (List.length pRank)
     then set_order (nth (Z.to_nat index) pRank 0) psu
     else set_order 0 psu) :: apply_rank pRank (u8 (index + 1)) rest
  end.

(** The outer loop of [refreshConfig] over the entries that remain. *)
Fixpoint refreshConfig_loop (values : PropertyMap) (s : Engine) : Engine :=
  match values with
  | [] => s
  | (key, value) :: rest =>
    if String.eqb key "RotationRankOrder" then
      match get_if_bytes (Some value) with
      | None => refreshConfig_loop rest s
      | Some pRank =>
        configCR false (set_powerSupplies (apply_rank pRank 0 (powerSupplies s)) s)
      end
    else refreshConfig_loop rest s
  end.

(** The handler of a policy-change notification. *)
Definition refreshConfig (values : PropertyMap) (s : Engine) : Engine :=
  let s := cancel timerRotation s in
  let s := startRotateCR s in
  let s := cancel timerCheck s in
  let s := startCRCheck s in
  let s := saveConfig s in
  refreshConfig_loop values s.

(** The handler of a PSU state notification, from the point where the PSU
    name has been cut out of the object path ([None] when the path does
    not yield one, or the message cannot be read). *)
Definition eventCollect (psuName : option string) (values : list (string * bool))
    (s : Engine) : Engine :=
  match psuName with
  | None => cerr_engine "Unable to get PSU state name from path" s
  | Some psuName =>
    let update psu :=
      if negb (String.eqb (name psu) psuName) then psu
      else match find (fun kv => String.eqb (fst kv) "functional") values with
           | Some (_, true) => set_state normal psu
           | Some (_, false) => set_state acLost psu
           | None => psu
           end in
    checkRedundancyEvent (set_powerSupplies (map update (powerSupplies s)) s)
  end.

(** ** The event loop *)

Definition run_handler (h : Handler) (ec : ErrorCode) (s : Engine) : Engine :=
  match h with
  | configCR_wait reConfig => configCR_handler reConfig ec s
  | rotateCR_wait => rotateCR_handler ec s
  | startRotateCR_wait => startRotateCR_handler ec s
  | startCRCheck_wait => startCRCheck_handler ec s
  | checkRedundancyEvent_wait => checkRedundancyEvent_handler ec s
  end.

(** What the loop can be given to do: a timer completes its waits with an
    error code, the next ready handler runs, or a message arrives. *)
Inductive Event :=
| timerDone (t : TimerId) (ec : ErrorCode)
| runReady
| settingsReply (ec : bool) (propMap : PropertyMap)
| propertiesChanged (values : PropertyMap)
| psuEvent (psuName : option string) (values : list (string * bool)).

Definition step (e : Event) (s : Engine) : Engine :=
  match e with
  | timerDone t ec =>
    with_timer t {| expiry := expiry (timers s t); waiting := [] |}
      (set_ready (ready s ++ map (fun h => (h, ec)) (waiting (timers s t))) s)
  | runReady =>
    match ready s with
    | [] => s
    | (h, ec) :: rest => run_handler h ec (set_ready rest s)
    end
  | settingsReply ec propMap => settings_handler ec propMap s
  | propertiesChanged values => refreshConfig values s
  | psuEvent psuName values => eventCollect psuName values s
  end.

Definition run (events : list Event) (s : Engine) : Engine :=
  fold_left (fun s e => step e s) events s.

(** The engine as the constructor leaves it, before the loop runs; whether
    cold redundancy is supported and the default redundant count come from
    the class declaration. *)
Definition initial (dev : I2c) (supported : bool) (count : Z) : Engine :=
  {| crSupported := supported;
     powerSupplyRedundancyEnabled := false;
     rotationEnabled := true;
     periodOfRotation := 7 * oneDay;
     rotationAlgorithm := bmcSpecific;
     rotationRankOrder := [1; 2; 3; 4];
     coldRedundancyStatus := completed;
     redundantCount := count;
     numberOfPSU := 0;
     powerSupplies := [];
     psuPreviousWorkable := None;
     logOnlyOnce := false;
     timers := fun _ => {| expiry := 0; waiting := [] |};
     ready := [];
     world := {| i2c := dev; io_log := []; cerr := []; journal := [];
                 published := []; settings := [] |} |}.

(** ** Observations used in the statements *)

Definition is_settle (h : Handler) : bool :=
  match h with
  | configCR_wait _ | rotateCR_wait => true
  | _ => false
  end.

(** The settle continuations that have not run yet: those waiting on the
    settle timer and those the loop has ready. *)
Definition outstanding (s : Engine) : nat :=
  (List.length (filter is_settle (waiting (timers s warmRedundantTimer)))
   + List.length (filter (fun r => is_settle (fst r)) (ready s)))%nat.

(** The other timers never hold a settle continuation. *)
Definition settle_on_settle_timer (s : Engine) : Prop :=
  forall t, t <> warmRedundantTimer -> filter is_settle (waiting (timers s t)) = [].

(** At most one operation is outstanding, and the status says so. *)
Definition exclusive (s : Engine) : Prop :=
  settle_on_settle_timer s /\
  (outstanding s = 0%nat \/
   (outstanding s = 1%nat /\ coldRedundancyStatus s = inProgress)).

(** The ranks the specification asks of re-ranking under [bmcSpecific]:
    going through the fleet in order, the Normal PSUs take [next],
    [next + 1], ... and every other PSU takes 0. Nothing else changes. *)
Fixpoint ranks_from (next : Z) (psus : list PowerSupply) : list PowerSupply :=
  match psus with
  | [] => []
  | psu :: rest =>
    if is_normal psu then set_order next psu :: ranks_from (next + 1) rest
    else set_order 0 psu :: ranks_from next rest
  end.

(** The sequence [first], [first + 1], ... of length [n]. *)
Definition ascending (first : Z) (n : nat) : list Z :=
  map (fun j => first + Z.of_nat j) (seq 0 n).

(** The number of Normal PSUs of a fleet. *)
Definition normal_count (psus : list PowerSupply) : nat :=
  List.length (filter is_normal psus).

(** The cyclic successor on the ranks [1..n]. *)
Definition successor (n r : Z) : Z := if r =? n then 1 else r + 1.

(** ** Notions used in the proofs *)

(** [f] touches neither a timer nor the ready queue. *)
Definition quiet (f : Engine -> Engine) : Prop :=
  forall s, timers (f s) = timers s /\ ready (f s) = ready s.

(** [f] is quiet and keeps the status and the two enabling flags. *)
Definition silent (f : Engine -> Engine) : Prop :=
  forall s, timers (f s) = timers s /\ ready (f s) = ready s /\
            coldRedundancyStatus (f s) = coldRedundancyStatus s.

Definition settle_waits (hs : list Handler) : nat := List.length (filter is_settle hs).
Definition settle_ready (r : list (Handler * ErrorCode)) : nat :=
  List.length (filter (fun r => is_settle (fst r)) r).

(** The effect on a timer of [cancel], [expires_after] and an expiry: the
    waits end, each handler becomes ready with the same error code. *)
Definition flush (t : TimerId) (d : Z) (ec : ErrorCode) (s : Engine) : Engine :=
  with_timer t {| expiry := d; waiting := [] |}
    (set_ready (ready s ++ map (fun h => (h, ec)) (waiting (timers s t))) s).

(** [f] keeps settle continuations on the settle timer, keeps their number
    and keeps the status. *)
Definition keeps (f : Engine -> Engine) : Prop :=
  forall s, settle_on_settle_timer s ->
    settle_on_settle_timer (f s) /\ outstanding (f s) = outstanding s /\
    coldRedundancyStatus (f s) = coldRedundancyStatus s.

Definition safe (f : Engine -> Engine) : Prop :=
  forall s, exclusive s -> exclusive (f s).

(** The PSU the second loop of the continuation leaves in place of [psu]. *)
Definition rotate_psu (good : Z) (psu : PowerSupply) : PowerSupply :=
  if order psu =? 0 then psu else set_order (rotated good (order psu)) psu.

(** The writes of the rotation, folded over the fleet after it. *)
Definition write_rotated (psus' : list PowerSupply) (w : World) : World :=
  fold_left (fun w psu' => if order psu' =? 0 then w
                           else writePmbus (bus psu') (address psu') (order psu') w)
            psus' w.

(** [f] changes neither the rotation period nor the fleet. *)
Definition policy_kept (f : Engine -> Engine) : Prop :=
  forall s, periodOfRotation (f s) = periodOfRotation s /\
            powerSupplies (f s) = powerSupplies s.

(** ** PSU state notifications, from the object path on *)

(** [s.find_last_of(chars)]: the position of the last character of [s]
    that occurs in [chars], [None] for [npos]. *)
Fixpoint find_last_of (chars : list Ascii.ascii) (s : string) : option nat :=
  match s with
  | EmptyString => None
  | String c rest =>
    match find_last_of chars rest with
    | Some n => Some (S n)
    | None => if existsb (Ascii.eqb c) chars then Some O else None
    end
  end.

(** [s.find(c)] for a one-character pattern: the position of the first
    occurrence of [c] in [s]. *)
Fixpoint find_first (c : Ascii.ascii) (s : string) : option nat :=
  match s with
  | EmptyString => None
  | String c' rest =>
    if Ascii.eqb c' c then Some O
    else match find_first c rest with
         | Some n => Some (S n)
         | None => None
         end
  end.

(** The first lines of [eventCollect]: the PSU name is what lies between
    the last slash or backslash of the object path and the first
    underscore after it; the result is the line written to [std::cerr]
    when there is none. *)
Definition psuName_of_path (path : string) : string + string :=
  match find_last_of ["/"%char; "\"%char] path with
  | None => inl "Unable to get PSU state name from path"
  | Some slantingPos =>
    if (String.length path <=? slantingPos + 1)%nat
    then inl "Unable to get PSU state name from path"
    else
      let statePSUName :=
        substring (slantingPos + 1) (String.length path - (slantingPos + 1)) path in
      match find_first "_"%char statePSUName with
      | None => inl "Unable to get PSU name from PSU path"
      | Some hypenPos => inr (substring 0 hypenPos statePSUName)
      end
  end.

(** [eventCollect] on a signal with the given object path; [payload] is
    [None] when reading the message throws. *)
Definition eventCollect_signal (path : string) (payload : option (list (string * bool)))
    (s : Engine) : Engine :=
  match psuName_of_path path with
  | inl msg => cerr_engine msg s
  | inr psuName =>
    match payload with
    | None => cerr_engine "Failed to read message from PSU Event" s
    | Some values => eventCollect (Some psuName) values s
    end
  end.

(** ** Further notions used in the proofs *)

(** The handler each timer is given. *)
Definition belongs (t : TimerId) (h : Handler) : bool :=
  match t, h with
  | warmRedundantTimer, configCR_wait _ | warmRedundantTimer, rotateCR_wait
  | timerRotation, startRotateCR_wait | timerCheck, startCRCheck_wait
  | puRedundantTimer, checkRedundancyEvent_wait => true
  | _, _ => false
  end.

(** Every timer has at most one wait pending, with a handler of its own. *)
Definition tidy (s : Engine) : Prop :=
  forall t, (List.length (waiting (timers s t)) <= 1)%nat /\
            forallb (belongs t) (waiting (timers s t)) = true.

(** The status is InProgress exactly while a settle continuation is
    outstanding, and there is never more than one. *)
Definition linked (s : Engine) : Prop :=
  (outstanding s = 0%nat /\ coldRedundancyStatus s = completed) \/
  (outstanding s = 1%nat /\ coldRedundancyStatus s = inProgress).

Definition sound (s : Engine) : Prop := tidy s /\ linked s.



(** [f] changes none of the four policy fields that the settings reply
    carries beside the period. *)
Definition props_kept (f : Engine -> Engine) : Prop :=
  forall s, powerSupplyRedundancyEnabled (f s) = powerSupplyRedundancyEnabled s /\
            rotationAlgorithm (f s) = rotationAlgorithm s /\
            rotationEnabled (f s) = rotationEnabled s /\
            rotationRankOrder (f s) = rotationRankOrder s.

(** The register accesses that a loop of [writePmbus] calls over a fleet
    may make: [value psu] is the value written for [psu], or [None] when
    the loop passes it over. *)
Definition write_each (value : PowerSupply -> option Z) (psus : list PowerSupply)
    (w : World) : World :=
  fold_left (fun w psu => match value psu with
                          | Some v => writePmbus (bus psu) (address psu) v w
                          | None => w
                          end) psus w.

(** An access to the order register of [psu], writing [v] if it writes. *)
Definition access_of (psu : PowerSupply) (v : Z) (e : IoEvent) : Prop :=
  e = IoSet (bus psu) (address psu) pmbusCmdCRSupport v
  \/ e = IoGet (bus psu) (address psu) pmbusCmdCRSupport.

(** [vals] written over the front of [orders], which keeps its length. *)
Fixpoint overlay (vals orders : list Z) : list Z :=
  match vals, orders with
  | v :: vals, _ :: orders => v :: overlay vals orders
  | _, _ => orders
  end.

(** The rank a PSU holds after [k] turns of the cycle 1 -> 2 -> ... -> n -> 1. *)
Definition turned (n : Z) (k : nat) (r : Z) : Z :=
  if r =? 0 then 0 else (r - 1 + Z.of_nat k) mod n + 1.

End Engine.

(** ** Presence poller

    [i2cPing] is declared in [utility.hpp] and the rescan is a call to
    another service: both act on an environment [Env] that is a parameter;
    [i2cPing] returns 0 when the device answers and [reScanBus] tells
    whether the call threw. *)
Class Presence := {
  Env : Type;
  i2cPing : Z -> Z -> Env -> Z * Env;
  reScanBus : Z -> Env -> bool * Env
}.

(** What a polling cycle sends out: the two journal messages with their
    argument, the rescan request, and the line on [std::cerr] when the
    request fails. *)
Inductive PresenceEvent :=
| PowerSupplyInserted (psuNumStr : string)
| PowerSupplyRemoved (psuNumStr : string)
| ReScanBus (bus : Z)
| RescanFailed.

Definition is_inserted (e : PresenceEvent) : bool :=
  match e with PowerSupplyInserted _ => true | _ => false end.
Definition is_rescan (e : PresenceEvent) : bool :=
  match e with ReScanBus _ => true | _ => false end.

Section Poller.
Context {Q : Presence}.

(** The file-level state of the poller: [addrTable] ([uint64_t] entries),
    [psuRescanBus] (a [uint8_t]), [pingFd], the set [psuPresence] of
    [uint8_t] addresses (only membership is ever asked of it), and the
    environment with what was sent to it. *)
Record Poller := {
  addrTable : list Z;
  psuRescanBus : Z;
  pingFd : Z;
  psuPresence : list Z;
  env : Env;
  sent : list PresenceEvent
}.

Definition present (addr : Z) (p : Poller) : bool :=
  existsb (Z.eqb addr) (psuPresence p).

(** [pingPSU]: the address is received as a [uint8_t]. *)
Definition pingPSU (addr : Z) (p : Poller) : Z * Poller :=
  let '(ret, e) := i2cPing (pingFd p) (u8 addr) (env p) in
  (ret, {| addrTable := addrTable p; psuRescanBus := psuRescanBus p; pingFd := pingFd p;
           psuPresence := psuPresence p; env := e; sent := sent p |}).

(** [psuPresence.emplace(addr)] and the journal message that follows it. *)
Definition insert_psu (addr : Z) (psuNumber : Z) (p : Poller) : Poller :=
  {| addrTable := addrTable p; psuRescanBus := psuRescanBus p; pingFd := pingFd p;
     psuPresence := psuPresence p ++ [u8 addr]; env := env p;
     sent := sent p ++ [PowerSupplyInserted ("PSU" ++ to_string psuNumber)] |}.

(** [psuPresence.erase(addr)] and the journal message that follows it. *)
Definition remove_psu (addr : Z) (psuNumber : Z) (p : Poller) : Poller :=
  {| addrTable := addrTable p; psuRescanBus := psuRescanBus p; pingFd := pingFd p;
     psuPresence := filter (fun a => negb (Z.eqb (u8 addr) a)) (psuPresence p);
     env := env p;
     sent := sent p ++ [PowerSupplyRemoved ("PSU" ++ to_string psuNumber)] |}.

Definition rescanPSUEntityManager (bus : Z) (p : Poller) : Poller :=
  let '(threw, e) := reScanBus bus (env p) in
  {| addrTable := addrTable p; psuRescanBus := psuRescanBus p; pingFd := pingFd p;
     psuPresence := psuPresence p; env := e;
     sent := sent p ++ ReScanBus bus :: (if threw then [RescanFailed] else []) |}.

(** The loop of [keepAlive] over the addresses that remain, with the
    locals [newPSUFound] and [psuNumber] (a [uint8_t]). *)
Fixpoint keepAlive_loop (addrs : list Z) (psuNumber : Z) (newPSUFound : bool)
    (p : Poller) : bool * Poller :=
  match addrs with
  | [] => (newPSUFound, p)
  | addr :: rest =>
    let '(ret, p) := pingPSU addr p in
    let '(newPSUFound, p) :=
      if 0 =? ret then
        if negb (present (u8 addr) p) then (true, insert_psu addr psuNumber p)
        else (newPSUFound, p)
      else
        if present (u8 addr) p then (newPSUFound, remove_psu addr psuNumber p)
        else (newPSUFound, p) in
    keepAlive_loop rest (u8 (psuNumber + 1)) newPSUFound p
  end.

Definition keepAlive (p : Poller) : Poller :=
  let '(newPSUFound, p) := keepAlive_loop (addrTable p) 1 false p in
  if newPSUFound then rescanPSUEntityManager (psuRescanBus p) p else p.

(** One turn of the loop of [keepAlive]. *)
Definition keepAlive_turn (addr psuNumber : Z) (newPSUFound : bool) (p : Poller)
  : bool * Poller :=
  let '(ret, p) := pingPSU addr p in
  if 0 =? ret then
    if negb (present (u8 addr) p) then (true, insert_psu addr psuNumber p)
    else (newPSUFound, p)
  else
    if present (u8 addr) p then (newPSUFound, remove_psu addr psuNumber p)
    else (newPSUFound, p).

(** The devices answer a ping the same way whenever they are asked, and a
    ping does not change them. *)
Definition steady (fd : Z) (answers : Z -> Z) : Prop :=
  forall addr e, i2cPing fd addr e = (answers addr, e).

End Poller.

(** ** Platforms and fleets for concrete runs *)

(** A bus on which every call succeeds and the order register reads 255
    whatever was written. *)
Definition stuck_bus : Platform :=
  {| I2c := unit;
     i2cSet := fun _ _ _ _ dev => (0, dev);
     i2cGet := fun _ _ _ _ dev => (0, 255, dev);
     pmbusCmdCRSupport := 208;
     minRotationPeriod := 86400;
     maxRotationPeriod := 40 * 86400;
     oneDay := 86400;
     convertAlgoFromString := fun a => if String.eqb a "userSpecific" then userSpecific
                                       else bmcSpecific;
     convertAlgoToString := fun a => match a with
                                     | bmcSpecific => "bmcSpecific"
                                     | userSpecific => "userSpecific"
                                     end |}.

(** A bus whose registers hold what was last written to them; a register
    never written cannot be read. *)
Definition register_file : Platform :=
  {| I2c := list (Z * Z * Z * Z);
     i2cSet := fun bus addr reg value dev => (0, (bus, addr, reg, value) :: dev);
     i2cGet := fun bus addr reg cur dev =>
       match find (fun '(b, a, r, _) => (b =? bus) && (a =? addr) && (r =? reg)) dev with
       | Some (_, _, _, v) => (0, v, dev)
       | None => (-1, cur, dev)
       end;
     pmbusCmdCRSupport := 208;
     minRotationPeriod := 86400;
     maxRotationPeriod := 40 * 86400;
     oneDay := 86400;
     convertAlgoFromString := fun a => if String.eqb a "userSpecific" then userSpecific
                                       else bmcSpecific;
     convertAlgoToString := fun a => match a with
                                     | bmcSpecific => "bmcSpecific"
                                     | userSpecific => "userSpecific"
                                     end |}.

(** The [i]-th PSU of a test fleet, 128 addresses to a bus. *)
Definition psu_at (i : nat) (o : Z) (st : PSUState) : PowerSupply :=
  {| name := "PSU" ++ to_string (Z.of_nat i + 1);
     bus := 1 + Z.of_nat i / 128;
     address := Z.of_nat i mod 128;
     order := o;
     state := st |}.

(** [n] Normal PSUs, the [i]-th holding the rank [f i]. *)
Definition fleet_of (n : nat) (f : nat -> Z) : list PowerSupply :=
  map (fun i => psu_at i (f i) normal) (seq 0 n).

(** An enabled engine on the register file, idle, with the given fleet. *)
Definition engine_on (psus : list PowerSupply) (algo : Algo) (count : Z) : Engine :=
  @set_rotationAlgorithm register_file algo
    (@set_numberOfPSU register_file (u8 (Z.of_nat (List.length psus)))
       (@set_powerSupplies register_file psus
          (@set_powerSupplyRedundancyEnabled register_file true
             (@initial register_file [] true count)))).

(** The same engine after an evaluation that saw [previous] workable PSUs. *)
Definition engine_after (psus : list PowerSupply) (count previous : Z) : Engine :=
  @set_psuPreviousWorkable register_file (Some previous) (engine_on psus bmcSpecific count).

(** A world in which nothing has happened yet. *)
Definition blank (P : Platform) (dev : @I2c P) : @World P :=
  {| i2c := dev; io_log := []; cerr := []; journal := []; published := [];
     settings := [] |}.

(** Four Normal PSUs holding the ranks 1, 2, 3, 4. *)
Definition four_psus : list PowerSupply := fleet_of 4 (fun i => Z.of_nat i + 1).

(** Three PSUs, the second in AcLost. *)
Definition mixed_fleet : list PowerSupply :=
  [psu_at 0 3 normal; psu_at 1 1 acLost; psu_at 2 2 normal].

(** An engine with a Reconfigure under way. *)
Definition busy_engine : Engine := configCR true (engine_on four_psus bmcSpecific 3).

(** An idle engine whose rotation and check timers wait, as they do once
    the settings have arrived. *)
Definition armed_engine (psus : list PowerSupply) : Engine :=
  @startCRCheck register_file (@startRotateCR register_file (engine_on psus bmcSpecific 2)).

(** 256 Normal PSUs and a last one in AcLost. *)
Definition large_mixed_fleet : list PowerSupply :=
  fleet_of 256 (fun _ => 0) ++ [psu_at 256 0 acLost].

(** A settings reply whose rotation period is an hour. *)
Definition short_period_reply : PropertyMap :=
  [("PeriodOfRotation", VU32 3600); ("PowerSupplyRedundancyEnabled", VBool true);
   ("RotationAlgorithm", VString "bmcSpecific"); ("RotationEnabled", VBool true);
   ("RotationRankOrder", VBytes [1; 2; 3; 4])].

(** The register file after a write of 3 to the order register at bus 7,
    address 88. *)
Definition written_world : @World register_file := writePmbus 7 88 3 (blank register_file []).


(** The object path of a state signal of the second PSU. *)
Definition psu2_path : string :=
  "/xyz/openbmc_project/State/Decorator/PSU2_OperationalStatus".

(** Devices of which only the one at address 88 answers a ping; a rescan
    never fails. *)
Definition one_psu_answers : Presence :=
  {| Env := unit;
     i2cPing := fun _ addr e => (if addr =? 88 then 0 else -1, e);
     reScanBus := fun _ e => (false, e) |}.

(** A poller of the addresses 88 and 89 that has recorded 89 as present. *)
Definition poller_with_89 : @Poller one_psu_answers :=
  @Build_Poller one_psu_answers [88; 89] 7 3 [89] tt [].

(** * Properties *)

Local Open Scope list_scope.

(** The two ways a branch of the classifier ends. *)
Ltac publishes_one := eexists; split; [reflexivity|cbn; lia].
Ltac publishes_none := exists []; rewrite app_nil_r; split; [reflexivity|cbn; lia].

Section Properties.
Context {P : Platform}.

(** ** Register access layer *)

Lemma writes_app (a b : list IoEvent) : writes (a ++ b) = (writes a + writes b)%nat.
Proof. unfold writes. now rewrite filter_app, length_app. Qed.

Lemma say_io_log msg (w : World) : io_log (say msg w) = io_log w.
Proof. reflexivity. Qed.

(** One attempt issues exactly one register write, to the register it was
    asked to write, followed by at most one read of that register. *)
Lemma writePmbus_attempt_log bus addr value tmp (w : World) :
  exists es,
    io_log (snd (writePmbus_attempt bus addr value tmp w)) = io_log w ++ es /\
    writes es = 1%nat /\
    hd_error es = Some (IoSet bus addr pmbusCmdCRSupport value) /\
    Forall (fun e => e = IoSet bus addr pmbusCmdCRSupport value
                     \/ e = IoGet bus addr pmbusCmdCRSupport) es.
Proof.
  unfold writePmbus_attempt, do_i2cSet, do_i2cGet.
  destruct (i2cSet bus addr pmbusCmdCRSupport value (i2c w)) as [ret dev] eqn:Eset.
  destruct (negb (ret =? 0)); cbn.
  - exists [IoSet bus addr pmbusCmdCRSupport value].
    repeat split; auto.
  - destruct (i2cGet bus addr pmbusCmdCRSupport tmp dev) as [[ret' v] dev'] eqn:Eget.
    exists [IoSet bus addr pmbusCmdCRSupport value; IoGet bus addr pmbusCmdCRSupport].
    destruct (negb (ret' =? 0)); cbn; rewrite <- app_assoc; repeat split; auto.
Qed.

(** The loop returns whenever the fuel exceeds the retries that are left. *)
Lemma writePmbus_loop_total fuel : forall bus addr value i tmp (w : World),
  (Z.to_nat (retryCount - i) < fuel)%nat ->
  exists w', writePmbus_loop fuel bus addr value i tmp w = Some w'.
Proof.
  induction fuel as [|fuel IH]; intros bus addr value i tmp w Hfuel; [lia|].
  cbn [writePmbus_loop].
  destruct (writePmbus_attempt bus addr value tmp _) as [tmp' w1].
  destruct (i <? retryCount) eqn:Hi; cbn [andb].
  - destruct (negb (tmp' =? value)); [|eauto].
    apply IH. apply Z.ltb_lt in Hi. unfold retryCount in *. lia.
  - eauto.
Qed.

(** The writes of a run of the loop entered at [i]: at least one, and at
    most one per value the counter takes up to [retryCount]. *)
Lemma writePmbus_loop_log fuel : forall bus addr value i tmp (w w' : World),
  writePmbus_loop fuel bus addr value i tmp w = Some w' ->
  exists es,
    io_log w' = io_log w ++ es /\
    (1 <= writes es)%nat /\
    (writes es <= Nat.max 1 (Z.to_nat (retryCount + 1 - i)))%nat /\
    Forall (fun e => e = IoSet bus addr pmbusCmdCRSupport value
                     \/ e = IoGet bus addr pmbusCmdCRSupport) es.
Proof.
  induction fuel as [|fuel IH]; intros bus addr value i tmp w w' Hrun; [discriminate|].
  cbn [writePmbus_loop] in Hrun.
  set (w0 := if 0 <? i then say _ w else w) in Hrun.
  assert (Hw0 : io_log w0 = io_log w) by (subst w0; now destruct (0 <? i)).
  destruct (writePmbus_attempt_log bus addr value tmp w0) as (es & Hes & Hn & Hhd & Hall).
  destruct (writePmbus_attempt bus addr value tmp w0) as [tmp' w1]. cbn [snd] in Hes.
  destruct ((i <? retryCount) && negb (tmp' =? value)) eqn:Hcond.
  - apply andb_prop in Hcond as [Hi _]. apply Z.ltb_lt in Hi.
    destruct (IH _ _ _ _ _ _ _ Hrun) as (es' & Hes' & Hlo & Hhi & Hall').
    exists (es ++ es'). rewrite Hes', Hes, Hw0, <- app_assoc, writes_app.
    repeat split; [lia| |now apply Forall_app].
    unfold retryCount in *. lia.
  - injection Hrun as <-. exists es. rewrite Hes, Hw0.
    repeat split; [lia|lia|assumption].
Qed.

Lemma writePmbus_run bus addr value (w : World) :
  writePmbus_loop pmbus_fuel bus addr value 0 (-1) w = Some (writePmbus bus addr value w).
Proof.
  unfold writePmbus.
  destruct (writePmbus_loop_total pmbus_fuel bus addr value 0 (-1) w) as [w' Hw'].
  - unfold pmbus_fuel, retryCount. cbn. lia.
  - now rewrite Hw'.
Qed.

(** The loop of [readPmbus] returns as well. *)
Lemma readPmbus_loop_total fuel : forall bus addr i value (w : World),
  (Z.to_nat (retryCount - i) < fuel)%nat ->
  exists r, readPmbus_loop fuel bus addr i value w = Some r.
Proof.
  induction fuel as [|fuel IH]; intros bus addr i value w Hfuel; [lia|].
  cbn [readPmbus_loop].
  destruct (do_i2cGet bus addr value w) as [[ret v] w1].
  destruct (i <? retryCount) eqn:Hi; cbn [andb].
  - destruct (negb (ret =? 0)); [|eauto].
    apply IH. apply Z.ltb_lt in Hi. unfold retryCount in *. lia.
  - eauto.
Qed.

Lemma readPmbus_run bus addr value (w : World) :
  readPmbus_loop pmbus_fuel bus addr 0 value w = Some (readPmbus bus addr value w).
Proof.
  unfold readPmbus.
  destruct (readPmbus_loop_total pmbus_fuel bus addr 0 value w) as [r Hr].
  - unfold pmbus_fuel, retryCount. cbn. lia.
  - now rewrite Hr.
Qed.

(** ** Methods that leave the timers and the ready queue alone *)

Lemma silent_quiet f : silent f -> quiet f.
Proof. intros H s. destruct (H s) as (? & ? & ?). now split. Qed.

Lemma putWarmRedundant_silent : silent putWarmRedundant.
Proof. intros s. unfold putWarmRedundant. now destruct (negb (crSupported s)). Qed.

Lemma reRanking_rec_silent depth : forall s s' n,
  reRanking_rec depth s = Some (s', n) ->
  timers s' = timers s /\ ready s' = ready s /\
  coldRedundancyStatus s' = coldRedundancyStatus s.
Proof.
  induction depth as [|depth IH]; intros s s' n H; [discriminate|].
  cbn [reRanking_rec] in H.
  destruct (Algo_eqb (rotationAlgorithm s) bmcSpecific).
  - destruct (reRanking_loop _ _ _ _ _ _) as [psus [orders [once w]]].
    injection H as <- _. now cbn.
  - destruct (existsb is_acLost (powerSupplies s)).
    + destruct (reRanking_rec depth _) as [[s1 n1]|] eqn:E; [|discriminate].
      injection H as <- _. now apply IH in E.
    + injection H as <- _. auto.
Qed.

Lemma reRanking_silent : silent reRanking.
Proof.
  intros s. unfold reRanking.
  destruct (reRanking_rec 2 s) as [[s' n]|] eqn:E; [|auto].
  now apply reRanking_rec_silent in E.
Qed.

Lemma configCR_handler_quiet reConfig ec : quiet (configCR_handler reConfig ec).
Proof.
  intros s. destruct ec; cbn; auto.
  destruct reConfig; cbn; auto.
  destruct (reRanking_silent s) as (? & ? & ?). auto.
Qed.

Lemma rotateCR_handler_quiet ec : quiet (rotateCR_handler ec).
Proof.
  intros s. destruct ec; cbn; auto.
  destruct (rotate_loop _ _ _) as [psus w]. now cbn.
Qed.

(** ** Counting the settle continuations *)

#[local] Arguments settle_waits : simpl never.
#[local] Arguments settle_ready : simpl never.

Lemma outstanding_eq s :
  outstanding s
  = (settle_waits (waiting (timers s warmRedundantTimer)) + settle_ready (ready s))%nat.
Proof. reflexivity. Qed.

Lemma settle_ready_app a b : settle_ready (a ++ b) = (settle_ready a + settle_ready b)%nat.
Proof. unfold settle_ready. now rewrite filter_app, length_app. Qed.

Lemma settle_ready_map ec hs :
  settle_ready (map (fun h => (h, ec)) hs) = settle_waits hs.
Proof.
  unfold settle_ready, settle_waits.
  induction hs as [|h hs IH]; [reflexivity|].
  cbn. destruct (is_settle h); cbn; now rewrite IH.
Qed.

Lemma settle_waits_nil hs : filter is_settle hs = [] -> settle_waits hs = 0%nat.
Proof. unfold settle_waits. now intros ->. Qed.

Lemma cancel_flush t s : cancel t s = flush t (expiry (timers s t)) operation_aborted s.
Proof. reflexivity. Qed.

Lemma expires_after_flush t d s : expires_after t d s = flush t d operation_aborted s.
Proof. reflexivity. Qed.

Lemma silent_keeps f : silent f -> keeps f.
Proof.
  intros H s Hs. destruct (H s) as (Ht & Hr & Hst).
  unfold settle_on_settle_timer, outstanding. rewrite Ht, Hr. auto.
Qed.

Lemma keeps_id : keeps (fun s => s).
Proof. intros s Hs. auto. Qed.

Lemma keeps_comp f g : keeps f -> keeps g -> keeps (fun s => g (f s)).
Proof.
  intros Hf Hg s Hs. destruct (Hf s Hs) as (H1 & H2 & H3).
  destruct (Hg (f s) H1) as (H4 & H5 & H6).
  split; [assumption|split; congruence].
Qed.

Lemma keeps_flush t d ec : keeps (flush t d ec).
Proof.
  intros s Hs. repeat split.
  - intros t' Ht'. unfold flush, with_timer. cbn.
    destruct (TimerId_eqb t' t); [reflexivity|]. now apply Hs.
  - rewrite !outstanding_eq. unfold flush, with_timer. cbn.
    rewrite settle_ready_app, settle_ready_map.
    destruct t; cbn.
    + change (settle_waits []) with 0%nat. lia.
    + rewrite (settle_waits_nil (waiting (timers s timerRotation)))
        by (apply Hs; discriminate). lia.
    + rewrite (settle_waits_nil (waiting (timers s timerCheck)))
        by (apply Hs; discriminate). lia.
    + rewrite (settle_waits_nil (waiting (timers s puRedundantTimer)))
        by (apply Hs; discriminate). lia.
Qed.

Lemma keeps_cancel t : keeps (cancel t).
Proof. intros s. rewrite cancel_flush. apply keeps_flush. Qed.

Lemma keeps_expires_after t d : keeps (expires_after t d).
Proof. intros s. rewrite expires_after_flush. apply keeps_flush. Qed.

Lemma filter_settle_snoc hs h :
  filter is_settle (hs ++ [h]) = filter is_settle hs ++ (if is_settle h then [h] else []).
Proof. rewrite filter_app. cbn. now destruct (is_settle h). Qed.

Lemma keeps_async_wait t h : is_settle h = false -> keeps (async_wait t h).
Proof.
  intros Hh s Hs. repeat split.
  - intros t' Ht'. unfold async_wait, with_timer. cbn.
    destruct (TimerId_eqb t' t) eqn:E; [|now apply Hs].
    cbn. rewrite filter_settle_snoc, Hh, app_nil_r.
    destruct t', t; try discriminate E; apply Hs; assumption.
  - rewrite !outstanding_eq. unfold async_wait, with_timer, settle_waits. cbn.
    destruct t; cbn; try reflexivity.
    now rewrite filter_settle_snoc, Hh, app_nil_r.
Qed.

Lemma keeps_startRotateCR : keeps startRotateCR.
Proof.
  intros s Hs. unfold startRotateCR.
  destruct (keeps_expires_after timerRotation (periodOfRotation s) s Hs) as (H1 & H2 & H3).
  destruct (keeps_async_wait timerRotation startRotateCR_wait eq_refl _ H1) as (? & ? & ?).
  split; [assumption|split; congruence].
Qed.

Lemma keeps_startCRCheck : keeps startCRCheck.
Proof.
  intros s Hs. unfold startCRCheck.
  destruct (keeps_expires_after timerCheck 60 s Hs) as (H1 & H2 & H3).
  destruct (keeps_async_wait timerCheck startCRCheck_wait eq_refl _ H1) as (? & ? & ?).
  split; [assumption|split; congruence].
Qed.

(** ** Mutual exclusion is an invariant of the event loop *)

Lemma keeps_safe f : keeps f -> safe f.
Proof.
  intros Hf s [Hs Hx]. destruct (Hf s Hs) as (H1 & H2 & H3).
  split; [assumption|]. rewrite H2, H3. assumption.
Qed.

Lemma safe_comp f g : safe f -> safe g -> safe (fun s => g (f s)).
Proof. intros Hf Hg s Hs. apply Hg, Hf, Hs. Qed.

Lemma unblocked_completed s : blocked s = false -> coldRedundancyStatus s = completed.
Proof.
  unfold blocked. intros H. apply orb_false_elim in H as [_ H].
  now destruct (coldRedundancyStatus s).
Qed.

(** Arming the settle timer when nothing is outstanding. *)
Lemma arm_exclusive h s :
  is_settle h = true -> settle_on_settle_timer s -> outstanding s = 0%nat ->
  exclusive (async_wait warmRedundantTimer h
               (expires_after warmRedundantTimer 5
                  (putWarmRedundant (set_coldRedundancyStatus inProgress s)))).
Proof.
  intros Hh Hs H0.
  set (s1 := set_coldRedundancyStatus inProgress s).
  assert (Hs1 : settle_on_settle_timer s1) by exact Hs.
  destruct (silent_keeps _ putWarmRedundant_silent s1 Hs1) as (Hs2 & Ho2 & Hst2).
  destruct (keeps_expires_after warmRedundantTimer 5 _ Hs2) as (Hs3 & Ho3 & Hst3).
  set (s3 := expires_after warmRedundantTimer 5 (putWarmRedundant s1)) in *.
  assert (Ho : outstanding s3 = 0%nat) by (rewrite Ho3, Ho2; exact H0).
  assert (Hst : coldRedundancyStatus s3 = inProgress) by (rewrite Hst3, Hst2; reflexivity).
  clearbody s3. clear Ho3 Hst3.
  split.
  - intros t Ht. unfold async_wait, with_timer. cbn.
    destruct (TimerId_eqb t warmRedundantTimer) eqn:E.
    + destruct t; try discriminate E. contradiction.
    + now apply Hs3.
  - right. split.
    + rewrite outstanding_eq in *. unfold async_wait, with_timer, settle_waits in *.
      cbn in *. rewrite filter_settle_snoc, Hh, length_app. cbn. lia.
    + exact Hst.
Qed.

Lemma exclusive_idle s :
  exclusive s -> coldRedundancyStatus s = completed -> outstanding s = 0%nat.
Proof. intros [_ [H|[_ H]]] Hc; [assumption|congruence]. Qed.

Lemma configCR_safe reConfig : safe (configCR reConfig).
Proof.
  intros s Hx. unfold configCR.
  destruct (blocked s) eqn:Hb; [assumption|].
  pose proof (unblocked_completed s Hb) as Hc.
  pose proof (exclusive_idle s Hx Hc) as H0.
  destruct Hx as [Hs _].
  assert (K : keeps (fun s => startCRCheck (startRotateCR
                                 (cancel timerCheck (cancel timerRotation s))))).
  { apply (keeps_comp (fun s => startRotateCR (cancel timerCheck (cancel timerRotation s)))
                      startCRCheck); [|apply keeps_startCRCheck].
    apply (keeps_comp (fun s => cancel timerCheck (cancel timerRotation s))
                      startRotateCR); [|apply keeps_startRotateCR].
    apply (keeps_comp (cancel timerRotation) (cancel timerCheck)); apply keeps_cancel. }
  destruct (K s Hs) as (Hs' & Ho' & _).
  apply arm_exclusive; [reflexivity|exact Hs'|congruence].
Qed.

Lemma rotateCR_safe : safe rotateCR.
Proof.
  intros s Hx. unfold rotateCR.
  destruct (blocked s) eqn:Hb; [assumption|].
  pose proof (unblocked_completed s Hb) as Hc.
  pose proof (exclusive_idle s Hx Hc) as H0.
  destruct Hx as [Hs _].
  apply arm_exclusive; [reflexivity|exact Hs|exact H0].
Qed.

Lemma cerr_engine_keeps msg : keeps (cerr_engine msg).
Proof. apply silent_keeps. intros s. now cbn. Qed.

Lemma startRotateCR_handler_safe ec : safe (startRotateCR_handler ec).
Proof.
  intros s Hx. unfold startRotateCR_handler.
  destruct ec; [|assumption|].
  - apply (keeps_safe _ keeps_startRotateCR).
    destruct (crSupported s && rotationEnabled s); [now apply rotateCR_safe|assumption].
  - apply (keeps_safe _ keeps_startRotateCR).
    pose proof (keeps_safe _ (cerr_engine_keeps "timer error") s Hx) as Hx'.
    destruct (crSupported _ && rotationEnabled _); [now apply rotateCR_safe|assumption].
Qed.

Lemma set_world_exclusive w s : exclusive s -> exclusive (set_world w s).
Proof. intros Hx. exact Hx. Qed.

Lemma checkCR_loop_safe psus : safe (checkCR_loop psus).
Proof.
  induction psus as [|psu rest IH]; intros s Hx; cbn [checkCR_loop]; [assumption|].
  destruct (is_normal psu); [|now apply IH].
  destruct (readPmbus (bus psu) (address psu) (-1) (world s)) as [o w].
  destruct (o =? 0).
  - apply configCR_safe. now apply set_world_exclusive.
  - apply IH. now apply set_world_exclusive.
Qed.

Lemma checkCR_safe : safe checkCR.
Proof.
  intros s Hx. unfold checkCR.
  destruct (negb (crSupported s)); [assumption|].
  destruct (negb (powerSupplyRedundancyEnabled s)).
  - now apply (keeps_safe _ (silent_keeps _ putWarmRedundant_silent)).
  - now apply checkCR_loop_safe.
Qed.

Lemma startCRCheck_handler_safe ec : safe (startCRCheck_handler ec).
Proof.
  intros s Hx. unfold startCRCheck_handler.
  destruct ec; [|assumption|].
  - apply (keeps_safe _ keeps_startCRCheck).
    destruct (crSupported s); [now apply checkCR_safe|assumption].
  - apply (keeps_safe _ keeps_startCRCheck).
    pose proof (keeps_safe _ (cerr_engine_keeps "timer error") s Hx) as Hx'.
    destruct (crSupported _); [now apply checkCR_safe|assumption].
Qed.

Lemma checkRedundancyEvent_handler_safe ec : safe (checkRedundancyEvent_handler ec).
Proof. intros s Hx. destruct ec; exact Hx. Qed.

Lemma checkRedundancyEvent_safe : safe checkRedundancyEvent.
Proof.
  intros s Hx. unfold checkRedundancyEvent.
  destruct (negb (crSupported s) || negb (powerSupplyRedundancyEnabled s)); [assumption|].
  apply (keeps_safe _ (keeps_async_wait puRedundantTimer checkRedundancyEvent_wait eq_refl)).
  now apply (keeps_safe _ (keeps_expires_after puRedundantTimer 2)).
Qed.

Lemma settings_handler_safe ec propMap : safe (settings_handler ec propMap).
Proof.
  intros s Hx. unfold settings_handler.
  destruct ec; [exact Hx|].
  destruct (get_if_u32 _) as [period|]; [|exact Hx].
  destruct (get_if_bool _) as [redundancyEnabled|]; [|exact Hx].
  destruct (get_if_string _) as [algorithm|]; [|exact Hx].
  destruct (get_if_bool _) as [enabled|]; [|exact Hx].
  destruct (get_if_bytes _) as [rankOrder|]; [|exact Hx].
  apply (keeps_safe _ keeps_startRotateCR).
  apply (keeps_safe _ (keeps_cancel timerRotation)).
  apply configCR_safe.
  destruct ((minRotationPeriod <=? period) && (period <=? maxRotationPeriod)); exact Hx.
Qed.

Lemma refreshConfig_loop_safe values : safe (refreshConfig_loop values).
Proof.
  induction values as [|[key value] rest IH]; intros s Hx; cbn [refreshConfig_loop];
    [assumption|].
  destruct (String.eqb key "RotationRankOrder"); [|now apply IH].
  destruct (get_if_bytes (Some value)) as [pRank|]; [|now apply IH].
  apply configCR_safe. exact Hx.
Qed.

Lemma refreshConfig_safe values : safe (refreshConfig values).
Proof.
  intros s Hx. unfold refreshConfig.
  apply refreshConfig_loop_safe.
  assert (Hsave : safe saveConfig) by (intros s' Hx'; exact Hx').
  apply Hsave.
  apply (keeps_safe _ keeps_startCRCheck).
  apply (keeps_safe _ (keeps_cancel timerCheck)).
  apply (keeps_safe _ keeps_startRotateCR).
  now apply (keeps_safe _ (keeps_cancel timerRotation)).
Qed.

Lemma eventCollect_safe psuName values : safe (eventCollect psuName values).
Proof.
  intros s Hx. unfold eventCollect.
  destruct psuName as [psuName|]; [|exact Hx].
  apply checkRedundancyEvent_safe. exact Hx.
Qed.

(** Running the handler at the head of the ready queue. *)
Lemma runReady_safe : safe (step runReady).
Proof.
  intros s Hx. cbn [step].
  destruct (ready s) as [|[h ec] rest] eqn:Hr; [assumption|].
  set (s1 := set_ready rest s).
  assert (Hs1 : settle_on_settle_timer s1) by (destruct Hx as [Hs _]; exact Hs).
  assert (Ho : outstanding s
               = ((if is_settle h then 1 else 0) + outstanding s1)%nat).
  { rewrite !outstanding_eq. subst s1. cbn [ready timers set_ready]. rewrite Hr.
    unfold settle_ready. cbn [filter fst]. destruct (is_settle h); cbn [List.length]; lia. }
  destruct (is_settle h) eqn:Hh.
  - assert (H0 : outstanding s1 = 0%nat) by (destruct Hx as [_ [H|[H _]]]; lia).
    assert (Hq : quiet (run_handler h ec)).
    { destruct h; try discriminate Hh; cbn [run_handler];
        [apply configCR_handler_quiet|apply rotateCR_handler_quiet]. }
    destruct (Hq s1) as [Ht Hrd].
    split.
    + unfold settle_on_settle_timer. rewrite Ht. exact Hs1.
    + left. unfold outstanding. rewrite Ht, Hrd. exact H0.
  - assert (Hx1 : exclusive s1).
    { split; [exact Hs1|]. destruct Hx as [_ Hx].
      replace (outstanding s1) with (outstanding s) by lia. exact Hx. }
    destruct h; try discriminate Hh; cbn [run_handler].
    + now apply startRotateCR_handler_safe.
    + now apply startCRCheck_handler_safe.
    + now apply checkRedundancyEvent_handler_safe.
Qed.

Lemma step_safe e : safe (step e).
Proof.
  destruct e as [t ec| |ec propMap|values|psuName values].
  - intros s Hx. apply (keeps_safe _ (keeps_flush t (expiry (timers s t)) ec)). exact Hx.
  - apply runReady_safe.
  - apply settings_handler_safe.
  - apply refreshConfig_safe.
  - apply eventCollect_safe.
Qed.

Lemma run_safe events : safe (run events).
Proof.
  induction events as [|e rest IH]; intros s Hx; [assumption|].
  cbn. apply IH. now apply step_safe.
Qed.

Lemma initial_exclusive dev supported count : exclusive (initial dev supported count).
Proof. split; [intros t _; reflexivity|left; reflexivity]. Qed.

(** C1. A Reconfigure or Rotate request made while redundancy is not
    supported, the feature is disabled, or the status is already
    InProgress returns the engine as it received it: the status, the order
    of every PSU and the trace of register accesses are those of before.
    As a consequence, whatever the event loop is given to do, from the
    engine the constructor leaves (or from any engine with at most one
    operation under way), at most one settle continuation of Reconfigure
    or Rotate is outstanding at any time, and while one is outstanding the
    status is InProgress. *)
Theorem blocked_request_is_noop :
  (forall (s : Engine) (reConfig : bool),
      crSupported s = false \/ powerSupplyRedundancyEnabled s = false
      \/ coldRedundancyStatus s = inProgress ->
      configCR reConfig s = s /\ rotateCR s = s /\
      coldRedundancyStatus (configCR reConfig s) = coldRedundancyStatus s /\
      coldRedundancyStatus (rotateCR s) = coldRedundancyStatus s /\
      map order (powerSupplies (configCR reConfig s)) = map order (powerSupplies s) /\
      map order (powerSupplies (rotateCR s)) = map order (powerSupplies s) /\
      io_log (world (configCR reConfig s)) = io_log (world s) /\
      io_log (world (rotateCR s)) = io_log (world s)) /\
  (forall (s : Engine) (events : list Event),
      exclusive s -> exclusive (run events s)) /\
  (forall dev supported count (events : list Event),
      let s := run events (initial dev supported count) in
      (outstanding s <= 1)%nat /\
      (outstanding s = 1%nat -> coldRedundancyStatus s = inProgress)).
Proof.
  split; [|split].
  - intros s reConfig Hb.
    assert (Hblocked : blocked s = true).
    { unfold blocked. destruct Hb as [-> | [-> | ->]]; cbn;
        rewrite ?orb_true_r; reflexivity. }
    unfold configCR, rotateCR. rewrite Hblocked. repeat split.
  - intros s events Hx. now apply run_safe.
  - intros dev supported count events s.
    destruct (run_safe events _ (initial_exclusive dev supported count))
      as [_ [H | [H Hst]]]; fold s in H |- *.
    + split; [lia|]. intros H1. lia.
    + fold s in Hst. split; [lia|]. intros _. exact Hst.
Qed.

(** C8. A settle-timer continuation of Reconfigure or Rotate that is
    cancelled or that receives an error sets the status to Completed and
    does nothing else to the fleet or the hardware: the PSUs, the rank
    order, the devices and the trace of register accesses are those of
    before. *)
Theorem cancelled_settle_completes (s : Engine) (h : Handler) (ec : ErrorCode) :
  is_settle h = true -> ec <> success ->
  let s' := run_handler h ec s in
  coldRedundancyStatus s' = completed /\
  io_log (world s') = io_log (world s) /\
  i2c (world s') = i2c (world s) /\
  powerSupplies s' = powerSupplies s /\
  rotationRankOrder s' = rotationRankOrder s /\
  rotationAlgorithm s' = rotationAlgorithm s.
Proof.
  intros Hh Hec.
  destruct h; try discriminate Hh; destruct ec; try congruence; cbn; repeat split.
Qed.

(** ** Re-ranking *)

Lemma is_normal_set_order o psu : is_normal (set_order o psu) = is_normal psu.
Proof. reflexivity. Qed.

Lemma ranks_from_no_normal psus : forall k k',
  normal_count psus = 0%nat -> ranks_from k psus = ranks_from k' psus.
Proof.
  unfold normal_count.
  induction psus as [|psu rest IH]; intros k k' H; [reflexivity|].
  cbn in *. destruct (is_normal psu); [discriminate|].
  f_equal. now apply IH.
Qed.

(** One turn of the loop of the source, as far as the fleet goes. *)
Lemma reRanking_loop_cons psu rest index psuNumber orders once (w : World) :
  exists psuNumber' orders' once' w',
    fst (reRanking_loop (psu :: rest) index psuNumber orders once w)
    = (if is_normal psu then set_order index psu else set_order 0 psu)
        :: fst (reRanking_loop rest (if is_normal psu then u8 (index + 1) else index)
                               psuNumber' orders' once' w').
Proof.
  cbn [reRanking_loop].
  destruct (is_normal psu);
    (destruct (psuNumber <? Z.of_nat (List.length orders)); [|destruct (negb once)]);
    match goal with
    | |- context [reRanking_loop rest ?i ?n ?o ?c ?w'] =>
      exists n, o, c, w'; destruct (reRanking_loop rest i n o c w'); reflexivity
    end.
Qed.

(** While the counter does not wrap, the loop of the source assigns the
    ranks of the specification. *)
Lemma reRanking_loop_ranks psus : forall index psuNumber orders once (w : World),
  0 <= index -> index + Z.of_nat (normal_count psus) <= 256 ->
  fst (reRanking_loop psus index psuNumber orders once w) = ranks_from index psus.
Proof.
  unfold normal_count.
  induction psus as [|psu rest IH]; intros index psuNumber orders once w H0 Hb;
    [reflexivity|].
  destruct (reRanking_loop_cons psu rest index psuNumber orders once w)
    as (n' & o' & c' & w' & ->).
  cbn [ranks_from filter] in *.
  destruct (is_normal psu) eqn:Hn; cbn [List.length] in Hb; f_equal.
  - destruct (Z.eq_dec (index + 1) 256) as [Hw|Hw].
    + rewrite (ranks_from_no_normal rest (index + 1) (u8 (index + 1)))
        by (unfold normal_count; lia).
      apply IH; unfold u8; [apply Z.mod_pos_bound; lia|rewrite Hw; cbn; lia].
    + assert (Hu : u8 (index + 1) = index + 1) by (unfold u8; apply Z.mod_small; lia).
      rewrite Hu. apply IH; lia.
  - apply IH; lia.
Qed.

Lemma ranks_from_fields k psus :
  map (set_order 0) (ranks_from k psus) = map (set_order 0) psus.
Proof.
  revert k. induction psus as [|psu rest IH]; intros k; [reflexivity|].
  cbn. destruct (is_normal psu); cbn; now rewrite IH.
Qed.

Lemma ascending_cons k n : ascending k (S n) = k :: ascending (k + 1) n.
Proof.
  unfold ascending. cbn [seq map]. rewrite Z.add_0_r. f_equal.
  rewrite <- seq_shift, map_map. apply map_ext. intros j. lia.
Qed.

Lemma ranks_from_normal k psus :
  map order (filter is_normal (ranks_from k psus)) = ascending k (normal_count psus).
Proof.
  unfold normal_count.
  revert k. induction psus as [|psu rest IH]; intros k; [reflexivity|].
  cbn [ranks_from filter]. destruct (is_normal psu) eqn:Hn.
  - cbn [filter]. rewrite is_normal_set_order, Hn. cbn [map List.length].
    now rewrite ascending_cons, IH.
  - cbn [filter]. rewrite is_normal_set_order, Hn. apply IH.
Qed.

Lemma ranks_from_others k psus :
  Forall (fun psu => is_normal psu = false -> order psu = 0) (ranks_from k psus).
Proof.
  revert k. induction psus as [|psu rest IH]; intros k; [constructor|].
  cbn. destruct (is_normal psu) eqn:Hn; constructor; auto.
  cbn. rewrite is_normal_set_order. congruence.
Qed.

(** The first branch of [reRanking] makes no nested call. *)
Lemma reRanking_rec_bmc depth s :
  rotationAlgorithm s = bmcSpecific ->
  exists s', reRanking_rec (S depth) s = Some (s', O) /\
             rotationAlgorithm s' = bmcSpecific /\
             powerSupplies s'
             = fst (reRanking_loop (powerSupplies s) 1 0 (rotationRankOrder s)
                                   (logOnlyOnce s) (world s)).
Proof.
  intros Ha. cbn [reRanking_rec]. rewrite Ha. cbn [Algo_eqb].
  destruct (reRanking_loop _ _ _ _ _ _) as [psus [orders [once w]]].
  eexists. split; [reflexivity|]. cbn. auto.
Qed.

Lemma reRanking_bmc_fleet s :
  rotationAlgorithm s = bmcSpecific ->
  (normal_count (powerSupplies s) <= 255)%nat ->
  rotationAlgorithm (reRanking s) = bmcSpecific /\
  powerSupplies (reRanking s) = ranks_from 1 (powerSupplies s).
Proof.
  intros Ha Hb. unfold reRanking.
  destruct (reRanking_rec_bmc 1 s Ha) as (s' & -> & Ha' & ->).
  split; [assumption|]. apply reRanking_loop_ranks; lia.
Qed.

Lemma exists_acLost psus :
  Exists (fun psu => state psu = acLost) psus -> existsb is_acLost psus = true.
Proof.
  intros H. apply existsb_exists. apply Exists_exists in H as (psu & Hin & Hst).
  exists psu. split; [assumption|]. unfold is_acLost. now rewrite Hst.
Qed.

(** C2, within the range of the rank counter. For a fleet with at most 255
    Normal PSUs, re-ranking with algorithm BmcSpecific changes nothing of
    a PSU but its order, gives the Normal PSUs, in fleet order, the ranks
    1, 2, 3, ... up to their number, and gives every other PSU rank 0. *)
Theorem reRanking_bmc_contiguous (s : Engine) :
  rotationAlgorithm s = bmcSpecific ->
  (normal_count (powerSupplies s) <= 255)%nat ->
  let psus' := powerSupplies (reRanking s) in
  map (set_order 0) psus' = map (set_order 0) (powerSupplies s) /\
  map order (filter is_normal psus') = ascending 1 (normal_count (powerSupplies s)) /\
  Forall (fun psu => is_normal psu = false -> order psu = 0) psus' /\
  psus' = ranks_from 1 (powerSupplies s).
Proof.
  intros Ha Hb psus'. subst psus'.
  destruct (reRanking_bmc_fleet s Ha Hb) as [_ ->].
  repeat split.
  - apply ranks_from_fields.
  - apply ranks_from_normal.
  - apply ranks_from_others.
Qed.

(** C4, within the range of the rank counter. For a fleet with a PSU in
    AcLost and at most 255 Normal PSUs, re-ranking with algorithm
    UserSpecific returns, after exactly one nested call, with whatever
    depth of recursion it is allowed beyond one; the nested call is the
    BmcSpecific pass and makes no call of its own; the algorithm is
    BmcSpecific afterwards and the ranks are those of the BmcSpecific
    pass: 1, 2, 3, ... on the Normal PSUs in fleet order, 0 elsewhere. *)
Theorem reRanking_user_fallback (s : Engine) :
  rotationAlgorithm s = userSpecific ->
  Exists (fun psu => state psu = acLost) (powerSupplies s) ->
  (normal_count (powerSupplies s) <= 255)%nat ->
  let psus' := powerSupplies (reRanking s) in
  (forall depth, (2 <= depth)%nat -> reRanking_rec depth s = Some (reRanking s, 1%nat)) /\
  (forall depth, (1 <= depth)%nat ->
     reRanking_rec depth (set_rotationAlgorithm bmcSpecific s) = Some (reRanking s, 0%nat)) /\
  rotationAlgorithm (reRanking s) = bmcSpecific /\
  map (set_order 0) psus' = map (set_order 0) (powerSupplies s) /\
  map order (filter is_normal psus') = ascending 1 (normal_count (powerSupplies s)) /\
  Forall (fun psu => is_normal psu = false -> order psu = 0) psus'.
Proof.
  intros Ha Hlost Hb psus'.
  apply exists_acLost in Hlost.
  set (s1 := set_rotationAlgorithm bmcSpecific s).
  assert (Hnested : forall depth, exists s',
             reRanking_rec (S depth) s1 = Some (s', O) /\
             rotationAlgorithm s' = bmcSpecific /\
             powerSupplies s' = ranks_from 1 (powerSupplies s)).
  { intros depth. destruct (reRanking_rec_bmc depth s1 eq_refl) as (s' & E & Ha' & Hp).
    exists s'. repeat split; try assumption.
    rewrite Hp. change (powerSupplies s1) with (powerSupplies s).
    apply reRanking_loop_ranks; lia. }
  assert (Hsame : forall depth, reRanking_rec (S depth) s1 = reRanking_rec 1 s1).
  { intros depth. reflexivity. }
  assert (Hfirst : forall depth,
             reRanking_rec (S (S depth)) s
             = match reRanking_rec (S depth) s1 with
               | Some (s', n) => Some (s', S n)
               | None => None
               end).
  { intros depth. cbn [reRanking_rec]. rewrite Ha, Hlost. reflexivity. }
  destruct (Hnested O) as (s' & E & Ha' & Hp).
  assert (Hre : reRanking s = s').
  { unfold reRanking. rewrite (Hfirst O). fold s1. now rewrite E. }
  subst psus'. rewrite Hre.
  repeat split.
  - intros [|[|depth]] Hd; try lia. rewrite Hfirst, Hsame. fold s1. now rewrite E.
  - intros [|depth] Hd; try lia. fold s1. now rewrite Hsame.
  - assumption.
  - rewrite Hp. apply ranks_from_fields.
  - rewrite Hp. apply ranks_from_normal.
  - rewrite Hp. apply ranks_from_others.
Qed.

(** ** The register write, as its callers see it *)

(** C5, with the count the loop has. For every bus, address and value,
    [writePmbus] returns, having made at least one and at most four
    write-then-verify attempts (the first and [retryCount] = 3 retries),
    all on the order register of that device; and an attempt after which
    the verification value equals the value written is the last: the loop
    returns at once. *)
Theorem writePmbus_attempts (bus addr value : Z) (w : World) :
  writePmbus_loop pmbus_fuel bus addr value 0 (-1) w = Some (writePmbus bus addr value w) /\
  (exists es,
      io_log (writePmbus bus addr value w) = io_log w ++ es /\
      (1 <= writes es <= 4)%nat /\
      Forall (fun e => e = IoSet bus addr pmbusCmdCRSupport value
                       \/ e = IoGet bus addr pmbusCmdCRSupport) es) /\
  (forall fuel i tmp,
      let w0 := if 0 <? i then say ("i2cset retry: " ++ to_string i)%string w else w in
      fst (writePmbus_attempt bus addr value tmp w0) = value ->
      writePmbus_loop (S fuel) bus addr value i tmp w
      = Some (snd (writePmbus_attempt bus addr value tmp w0))).
Proof.
  split; [apply writePmbus_run|split].
  - destruct (writePmbus_loop_log _ _ _ _ _ _ _ _ (writePmbus_run bus addr value w))
      as (es & Hes & Hlo & Hhi & Hall).
    exists es. repeat split; assumption.
  - intros fuel i tmp w0 Hv. cbn [writePmbus_loop]. fold w0.
    destruct (writePmbus_attempt bus addr value tmp w0) as [tmp' w1].
    cbn [fst snd] in *. subst tmp'.
    rewrite Z.eqb_refl. cbn [negb]. now rewrite andb_false_r.
Qed.

(** Every call of [writePmbus] puts a write of the value on the trace and
    keeps what was on it. *)
Lemma writePmbus_writes bus addr value (w : World) :
  exists es, io_log (writePmbus bus addr value w) = io_log w ++ es /\
             In (IoSet bus addr pmbusCmdCRSupport value) es.
Proof.
  destruct (writePmbus_loop_log _ _ _ _ _ _ _ _ (writePmbus_run bus addr value w))
    as (es & Hes & Hlo & _ & Hall).
  exists es. split; [assumption|].
  unfold writes in Hlo.
  destruct (filter is_write es) as [|e l] eqn:Hf; [cbn in Hlo; lia|].
  assert (Hin : In e (filter is_write es)) by (rewrite Hf; now left).
  apply filter_In in Hin as [Hin Hw].
  rewrite Forall_forall in Hall. destruct (Hall e Hin) as [-> | ->]; [assumption|discriminate].
Qed.

(** ** Rotation *)

Lemma goodPSUCount_from psus : forall n,
  fold_left (fun n psu => if is_normal psu then n + 1 else n) psus n
  = n + Z.of_nat (normal_count psus).
Proof.
  unfold normal_count.
  induction psus as [|psu rest IH]; intros n; cbn [fold_left filter]; [cbn; lia|].
  rewrite IH. destruct (is_normal psu); cbn [List.length]; lia.
Qed.

Lemma goodPSUCount_normal psus : goodPSUCount psus = Z.of_nat (normal_count psus).
Proof. unfold goodPSUCount. now rewrite goodPSUCount_from. Qed.

Lemma all_normal_count psus :
  Forall (fun psu => state psu = normal) psus -> normal_count psus = List.length psus.
Proof.
  unfold normal_count. induction 1 as [|psu rest Hs _ IH]; [reflexivity|].
  cbn. unfold is_normal at 1. rewrite Hs. cbn. now rewrite IH.
Qed.

Lemma rotate_loop_fleet good psus : forall (w : World),
  fst (rotate_loop good psus w) = map (rotate_psu good) psus.
Proof.
  induction psus as [|psu rest IH]; intros w; [reflexivity|].
  cbn [rotate_loop map]. unfold rotate_psu at 1.
  destruct (order psu =? 0).
  - specialize (IH w). destruct (rotate_loop good rest w). cbn in *. now f_equal.
  - match goal with
    | |- context [rotate_loop good rest ?w'] =>
      specialize (IH w'); destruct (rotate_loop good rest w')
    end. cbn in *. now f_equal.
Qed.

Lemma rotate_loop_world good psus : forall (w : World),
  snd (rotate_loop good psus w)
  = fold_left (fun w psu => if order psu =? 0 then w
                            else writePmbus (bus psu) (address psu)
                                            (rotated good (order psu)) w) psus w.
Proof.
  induction psus as [|psu rest IH]; intros w; [reflexivity|].
  cbn [rotate_loop fold_left].
  destruct (order psu =? 0).
  - specialize (IH w). destruct (rotate_loop good rest w). cbn in *. assumption.
  - match goal with
    | |- context [rotate_loop good rest ?w'] =>
      specialize (IH w'); destruct (rotate_loop good rest w')
    end. cbn in *. assumption.
Qed.

Lemma rotated_successor n r : 1 <= r <= n -> n <= 254 -> rotated n r = successor n r.
Proof.
  intros Hr Hn. unfold rotated, successor, u8.
  rewrite Z.mod_small by lia.
  destruct (r =? n) eqn:E.
  - apply Z.eqb_eq in E. subst. replace (n <? n + 1) with true; [reflexivity|].
    symmetry. apply Z.ltb_lt. lia.
  - apply Z.eqb_neq in E. replace (n <? r + 1) with false; [reflexivity|].
    symmetry. apply Z.ltb_ge. lia.
Qed.

Lemma write_rotated_keeps psus' : forall (w : World) e,
  In e (io_log w) -> In e (io_log (write_rotated psus' w)).
Proof.
  unfold write_rotated.
  induction psus' as [|psu rest IH]; intros w e He; [assumption|].
  cbn [fold_left]. apply IH. destruct (order psu =? 0); [assumption|].
  destruct (writePmbus_writes (bus psu) (address psu) (order psu) w) as (es & -> & _).
  apply in_or_app. now left.
Qed.

Lemma write_rotated_writes psus' : forall (w : World),
  Forall (fun psu' => order psu' <> 0 ->
            In (IoSet (bus psu') (address psu') pmbusCmdCRSupport (order psu'))
               (io_log (write_rotated psus' w))) psus'.
Proof.
  induction psus' as [|psu rest IH]; intros w; constructor.
  - intros Ho. unfold write_rotated. cbn [fold_left].
    apply Z.eqb_neq in Ho. rewrite Ho.
    apply (write_rotated_keeps rest).
    destruct (writePmbus_writes (bus psu) (address psu) (order psu) w) as (es & -> & Hin).
    apply in_or_app. now right.
  - unfold write_rotated. cbn [fold_left]. apply IH.
Qed.

Lemma write_rotated_map good psus : forall (w : World),
  Forall (fun psu => order psu <> 0 -> rotated good (order psu) <> 0) psus ->
  write_rotated (map (rotate_psu good) psus) w
  = fold_left (fun w psu => if order psu =? 0 then w
                            else writePmbus (bus psu) (address psu)
                                            (rotated good (order psu)) w) psus w.
Proof.
  unfold write_rotated.
  induction psus as [|psu rest IH]; intros w Hall; [reflexivity|].
  inversion Hall as [|? ? Hpsu Hrest]; subst.
  cbn [map fold_left]. rewrite <- IH by assumption. f_equal.
  unfold rotate_psu. destruct (order psu =? 0) eqn:E; [now rewrite E|].
  cbn [order bus address set_order].
  apply Z.eqb_neq in E. apply Hpsu in E. apply Z.eqb_neq in E. now rewrite E.
Qed.

Lemma successor_nonzero n r : 1 <= r -> successor n r <> 0.
Proof. intros Hr. unfold successor. destruct (r =? n); lia. Qed.

(** C3, within the range of the order field. For a fleet of N PSUs, all
    Normal, N at most 254, whose orders lie in 0..N (in particular a fleet
    holding the ranks 1..N), the settle step of Rotate leaves every PSU of
    order 0 as it is and gives every other PSU the cyclic successor of its
    order (r+1, and 1 for N); it stores the new orders as the rank order,
    sets the status to Completed, and the register accesses it makes are
    those of one [writePmbus] per PSU of non-zero order, in fleet order,
    with the new order of that PSU at its bus and address: a write of each
    new order is on the trace. *)
Theorem rotateCR_cyclic (s : Engine) :
  let psus := powerSupplies s in
  let n := Z.of_nat (List.length psus) in
  Forall (fun psu => state psu = normal) psus ->
  Forall (fun psu => 0 <= order psu <= n) psus ->
  n <= 254 ->
  let s' := rotateCR_handler success s in
  coldRedundancyStatus s' = completed /\
  powerSupplies s'
  = map (fun psu => if order psu =? 0 then psu
                    else set_order (successor n (order psu)) psu) psus /\
  rotationRankOrder s' = map order (powerSupplies s') /\
  world s' = write_rotated (powerSupplies s') (world s) /\
  Forall (fun psu' => order psu' <> 0 ->
            In (IoSet (bus psu') (address psu') pmbusCmdCRSupport (order psu'))
               (io_log (world s'))) (powerSupplies s').
Proof.
  intros psus n Hnormal Hrange Hn s'.
  assert (Hgood : goodPSUCount psus = n).
  { rewrite goodPSUCount_normal. unfold n. now rewrite all_normal_count. }
  assert (Hrot : Forall (fun psu => order psu <> 0 ->
                           rotated n (order psu) = successor n (order psu)) psus).
  { rewrite Forall_forall in *. intros psu Hin Ho.
    apply rotated_successor; [|assumption]. specialize (Hrange psu Hin). lia. }
  assert (Hfleet : map (rotate_psu n) psus
                   = map (fun psu => if order psu =? 0 then psu
                                     else set_order (successor n (order psu)) psu) psus).
  { apply map_ext_in. intros psu Hin. unfold rotate_psu.
    destruct (order psu =? 0) eqn:E; [reflexivity|].
    rewrite Forall_forall in Hrot. rewrite (Hrot psu Hin); [reflexivity|].
    now apply Z.eqb_neq. }
  assert (Hnz : Forall (fun psu => order psu <> 0 -> rotated n (order psu) <> 0) psus).
  { rewrite Forall_forall in *. intros psu Hin Ho. rewrite (Hrot psu Hin Ho).
    apply successor_nonzero. specialize (Hrange psu Hin). lia. }
  subst s'. unfold rotateCR_handler. fold psus. rewrite Hgood.
  pose proof (rotate_loop_fleet n psus (world s)) as Hf.
  pose proof (rotate_loop_world n psus (world s)) as Hw.
  destruct (rotate_loop n psus (world s)) as [psus' w']. cbn [fst snd] in Hf, Hw.
  cbn. subst psus' w'. rewrite <- Hfleet.
  assert (Hworld : fold_left
                     (fun w psu => if order psu =? 0 then w
                                   else writePmbus (bus psu) (address psu)
                                                   (rotated n (order psu)) w) psus (world s)
                   = write_rotated (map (rotate_psu n) psus) (world s))
    by (symmetry; now apply write_rotated_map).
  repeat split.
  - exact Hworld.
  - rewrite Hworld. apply write_rotated_writes.
Qed.

(** ** Health event classifier *)

Lemma classify_tie n redundant total (w : World) : classify n n redundant total w = w.
Proof. unfold classify. now rewrite Z.ltb_irrefl. Qed.

(** One evaluation publishes at most one association list. *)
Lemma classify_at_most_one workable previous redundant total (w : World) :
  exists l, published (classify workable previous redundant total w) = published w ++ l /\
            (List.length l <= 1)%nat.
Proof.
  unfold classify.
  destruct (previous <? workable).
  - destruct (redundant <=? workable).
    + destruct (workable =? total); [publishes_one|].
      destruct (previous <? redundant); [publishes_one|publishes_none].
    + destruct (previous =? 0); [publishes_one|publishes_none].
  - destruct (workable <? previous); [|publishes_none].
    destruct (redundant <=? workable).
    + destruct (previous =? total); publishes_one.
    + destruct (workable =? 0) eqn:E0.
      * apply Z.eqb_eq in E0. subst workable. rewrite Z.ltb_irrefl.
        destruct (redundant <=? previous); publishes_one.
      * destruct (redundant <=? previous); [destruct (0 <? workable)|].
        -- publishes_one.
        -- publishes_none.
        -- publishes_none.
Qed.

(** C6, with the guard the code has. When the workable count exceeds the
    previous count, equals the number of PSUs and is at least the
    redundant count, an evaluation publishes Ok (and logs that full
    redundancy is regained); when it is below the redundant count, the
    evaluation publishes NonCritical if the previous count was 0 and
    nothing otherwise, never Ok. *)
Theorem classifier_full_redundancy (s : Engine) (ec : ErrorCode) :
  ec <> operation_aborted ->
  let workable := psuWorkable (powerSupplies s) in
  previousWorkable s < workable ->
  workable = numberOfPSU s ->
  let s' := checkRedundancyEvent_handler ec s in
  (redundantCount s <= workable ->
     published (world s') = published (world s) ++ [associationsOk] /\
     journal (world s')
     = journal (world s) ++ ["OpenBMC.0.1.PowerUnitRedundancyRegained"%string]) /\
  (workable < redundantCount s ->
     published (world s')
     = published (world s)
         ++ (if previousWorkable s =? 0 then [associationsNonCrit] else [])) /\
  psuPreviousWorkable s' = Some workable.
Proof.
  intros Hec workable Hprev Htotal s'.
  assert (Hs' : s' = set_psuPreviousWorkable (Some workable)
                       (set_world (classify workable (previousWorkable s) (redundantCount s)
                                            (numberOfPSU s) (world s)) s))
    by (subst s'; destruct ec; [reflexivity|congruence|reflexivity]).
  rewrite Hs'. cbn [world set_world set_psuPreviousWorkable psuPreviousWorkable].
  unfold classify.
  apply Z.ltb_lt in Hprev. rewrite Hprev.
  split; [|split; [|reflexivity]].
  - intros Hred. apply Z.leb_le in Hred. rewrite Hred.
    rewrite <- Htotal, Z.eqb_refl. now cbn.
  - intros Hred. apply Z.leb_gt in Hred. rewrite Hred.
    destruct (previousWorkable s =? 0); [reflexivity|now rewrite app_nil_r].
Qed.

(** C7, with the count the code has. After any evaluation the previous
    workable count is the count that evaluation saw. An evaluation that
    follows one with the same workable count changes nothing of the world
    (it publishes no association list and logs no event) and leaves the
    previous workable count as it is; two consecutive evaluations of the
    same fleet therefore publish what the first one does, which is at most
    one association list. *)
Theorem classifier_tie_is_silent (s : Engine) (ec1 ec2 : ErrorCode) :
  ec1 <> operation_aborted -> ec2 <> operation_aborted ->
  let workable := psuWorkable (powerSupplies s) in
  let s1 := checkRedundancyEvent_handler ec1 s in
  psuPreviousWorkable s1 = Some workable /\
  (forall s1' : Engine,
      psuPreviousWorkable s1' = psuPreviousWorkable s1 ->
      psuWorkable (powerSupplies s1') = workable ->
      world (checkRedundancyEvent_handler ec2 s1') = world s1' /\
      psuPreviousWorkable (checkRedundancyEvent_handler ec2 s1') = Some workable) /\
  world (checkRedundancyEvent_handler ec2 s1) = world s1 /\
  (exists l,
      published (world (checkRedundancyEvent_handler ec2 s1)) = published (world s) ++ l /\
      (List.length l <= 1)%nat).
Proof.
  intros Hec1 Hec2 workable s1.
  assert (Heval : forall ec s0, ec <> operation_aborted ->
            checkRedundancyEvent_handler ec s0
            = set_psuPreviousWorkable (Some (psuWorkable (powerSupplies s0)))
                (set_world (classify (psuWorkable (powerSupplies s0)) (previousWorkable s0)
                                     (redundantCount s0) (numberOfPSU s0) (world s0)) s0))
    by (intros ec s0 H; destruct ec; [reflexivity|congruence|reflexivity]).
  assert (Hprev1 : psuPreviousWorkable s1 = Some workable)
    by (subst s1; now rewrite Heval).
  assert (Htie : forall s1' : Engine,
             psuPreviousWorkable s1' = psuPreviousWorkable s1 ->
             psuWorkable (powerSupplies s1') = workable ->
             world (checkRedundancyEvent_handler ec2 s1') = world s1' /\
             psuPreviousWorkable (checkRedundancyEvent_handler ec2 s1') = Some workable).
  { intros s1' Hp Hw. rewrite Heval by assumption.
    cbn [world set_world set_psuPreviousWorkable psuPreviousWorkable].
    unfold previousWorkable. rewrite Hp, Hprev1, Hw, classify_tie. auto. }
  assert (Hsecond : world (checkRedundancyEvent_handler ec2 s1) = world s1).
  { apply Htie; [reflexivity|]. subst s1. now rewrite Heval. }
  repeat split; try assumption; try (now apply Htie).
  rewrite Hsecond. subst s1. rewrite Heval by assumption.
  cbn [world set_world set_psuPreviousWorkable]. apply classify_at_most_one.
Qed.

(** ** Configuration ingestion *)

Lemma putWarmRedundant_policy : policy_kept putWarmRedundant.
Proof. intros s. unfold putWarmRedundant. now destruct (negb (crSupported s)). Qed.

Lemma policy_kept_comp f g : policy_kept f -> policy_kept g -> policy_kept (fun s => g (f s)).
Proof.
  intros Hf Hg s. destruct (Hf s) as [H1 H2]. destruct (Hg (f s)) as [H3 H4].
  split; congruence.
Qed.

Lemma cancel_policy t : policy_kept (cancel t).
Proof. intros s. split; reflexivity. Qed.

Lemma expires_after_policy t d : policy_kept (expires_after t d).
Proof. intros s. split; reflexivity. Qed.

Lemma async_wait_policy t h : policy_kept (async_wait t h).
Proof. intros s. split; reflexivity. Qed.

Lemma startRotateCR_policy : policy_kept startRotateCR.
Proof. intros s. split; reflexivity. Qed.

Lemma startCRCheck_policy : policy_kept startCRCheck.
Proof. intros s. split; reflexivity. Qed.

Lemma set_coldRedundancyStatus_policy st : policy_kept (set_coldRedundancyStatus st).
Proof. intros s. split; reflexivity. Qed.

Lemma configCR_policy reConfig : policy_kept (configCR reConfig).
Proof.
  intros s. unfold configCR. destruct (blocked s); [auto|].
  revert s.
  repeat (apply (policy_kept_comp _ (async_wait _ _)); [|apply async_wait_policy]).
  repeat (apply (policy_kept_comp _ (expires_after _ _)); [|apply expires_after_policy]).
  apply (policy_kept_comp _ putWarmRedundant); [|apply putWarmRedundant_policy].
  apply (policy_kept_comp _ (set_coldRedundancyStatus _));
    [|apply set_coldRedundancyStatus_policy].
  apply (policy_kept_comp _ startCRCheck); [|apply startCRCheck_policy].
  apply (policy_kept_comp _ startRotateCR); [|apply startRotateCR_policy].
  apply (policy_kept_comp (cancel timerRotation) (cancel timerCheck)); apply cancel_policy.
Qed.

Lemma settings_handler_period ec propMap s :
  periodOfRotation (settings_handler ec propMap s)
  = match get_if_u32 (lookup "PeriodOfRotation" propMap),
          get_if_bool (lookup "PowerSupplyRedundancyEnabled" propMap),
          get_if_string (lookup "RotationAlgorithm" propMap),
          get_if_bool (lookup "RotationEnabled" propMap),
          get_if_bytes (lookup "RotationRankOrder" propMap) with
    | Some period, Some _, Some _, Some _, Some _ =>
      if negb ec && (minRotationPeriod <=? period) && (period <=? maxRotationPeriod)
      then period else periodOfRotation s
    | _, _, _, _, _ => periodOfRotation s
    end.
Proof.
  unfold settings_handler.
  destruct ec.
  - cbn [negb andb].
    destruct (get_if_u32 _); [|reflexivity].
    destruct (get_if_bool (lookup "PowerSupplyRedundancyEnabled" propMap)); [|reflexivity].
    destruct (get_if_string _); [|reflexivity].
    destruct (get_if_bool _); [|reflexivity].
    destruct (get_if_bytes _); reflexivity.
  - destruct (get_if_u32 _) as [period|]; [|reflexivity].
    destruct (get_if_bool _); [|reflexivity].
    destruct (get_if_string _); [|reflexivity].
    destruct (get_if_bool _); [|reflexivity].
    destruct (get_if_bytes _); [|reflexivity].
    cbn [negb andb].
    match goal with
    | |- context [configCR false ?x] =>
      destruct (startRotateCR_policy (cancel timerRotation (configCR false x))) as [-> _];
      destruct (cancel_policy timerRotation (configCR false x)) as [-> _];
      destruct (configCR_policy false x) as [-> _]
    end.
    now destruct ((minRotationPeriod <=? period) && (period <=? maxRotationPeriod)).
Qed.

(** C9. When the settings reply carries a rotation period outside
    [minRotationPeriod, maxRotationPeriod], the period the engine held is
    retained; the period changes only to a value of the reply that lies in
    the range; and a complete reply with a period in the range stores it. *)
Theorem rotation_period_bounds (s : Engine) (ec : bool) (propMap : PropertyMap)
    (period : Z) :
  get_if_u32 (lookup "PeriodOfRotation" propMap) = Some period ->
  let s' := settings_handler ec propMap s in
  (period < minRotationPeriod \/ maxRotationPeriod < period ->
     periodOfRotation s' = periodOfRotation s) /\
  (periodOfRotation s' <> periodOfRotation s ->
     minRotationPeriod <= period <= maxRotationPeriod /\ periodOfRotation s' = period) /\
  (ec = false ->
   get_if_bool (lookup "PowerSupplyRedundancyEnabled" propMap) <> None ->
   get_if_string (lookup "RotationAlgorithm" propMap) <> None ->
   get_if_bool (lookup "RotationEnabled" propMap) <> None ->
   get_if_bytes (lookup "RotationRankOrder" propMap) <> None ->
   minRotationPeriod <= period <= maxRotationPeriod ->
   periodOfRotation s' = period).
Proof.
  intros Hp s'. subst s'. rewrite settings_handler_period, Hp.
  destruct (get_if_bool (lookup "PowerSupplyRedundancyEnabled" propMap));
    destruct (get_if_string _); destruct (get_if_bool (lookup "RotationEnabled" propMap));
    destruct (get_if_bytes _);
    try (repeat split; intros; congruence).
  destruct ec; cbn [negb andb].
  - repeat split; intros; congruence.
  - destruct (minRotationPeriod <=? period) eqn:Hlo;
      destruct (period <=? maxRotationPeriod) eqn:Hhi; cbn [andb];
      rewrite ?Z.leb_le, ?Z.leb_gt in *;
      repeat split; intros; try congruence; try lia.
Qed.

(** ** Rank order notifications *)

Lemma apply_rank_length pRank psus : forall index,
  List.length (apply_rank pRank index psus) = List.length psus.
Proof. induction psus as [|psu rest IH]; intros index; cbn; [reflexivity|now rewrite IH]. Qed.

(** While the position counter does not wrap, the PSU at position [i] is
    given the [i]-th rank, or 0 past the end of the sequence. *)
Lemma apply_rank_nth pRank psus : forall index i psu,
  0 <= index -> index + Z.of_nat (List.length psus) <= 256 ->
  nth_error psus i = Some psu ->
  nth_error (apply_rank pRank index psus) i
  = Some (if index + Z.of_nat i <? Z.of_nat (List.length pRank)
          then set_order (nth (Z.to_nat (index + Z.of_nat i)) pRank 0) psu
          else set_order 0 psu).
Proof.
  induction psus as [|p rest IH]; intros index i psu H0 Hb Hi;
    [destruct i; discriminate|].
  destruct i as [|i]; cbn [nth_error apply_rank] in *.
  - injection Hi as ->. now rewrite Z.add_0_r.
  - assert (Hrest : (0 < List.length rest)%nat)
      by (destruct rest; [destruct i; discriminate|cbn; lia]).
    cbn [List.length] in Hb.
    assert (Hu : u8 (index + 1) = index + 1) by (unfold u8; apply Z.mod_small; lia).
    rewrite Hu, (IH (index + 1) i psu) by (assumption || lia).
    replace (index + 1 + Z.of_nat i) with (index + Z.of_nat (S i)) by lia.
    reflexivity.
Qed.

Lemma refreshConfig_loop_rank values : forall s pRank,
  In ("RotationRankOrder"%string, VBytes pRank) values ->
  NoDup (map fst values) ->
  refreshConfig_loop values s
  = configCR false (set_powerSupplies (apply_rank pRank 0 (powerSupplies s)) s).
Proof.
  induction values as [|[key value] rest IH]; intros s pRank Hin Hnd; [contradiction|].
  cbn [refreshConfig_loop]. cbn [map fst] in Hnd. inversion Hnd as [|? ? Hnotin Hnd']; subst.
  destruct Hin as [Heq | Hin].
  - injection Heq as -> ->. rewrite String.eqb_refl. reflexivity.
  - destruct (String.eqb key "RotationRankOrder") eqn:E.
    + apply String.eqb_eq in E. subst key. exfalso. apply Hnotin.
      apply (in_map fst) in Hin. exact Hin.
    + now apply IH.
Qed.

(** C10, within the range of the position counter. For a fleet of at most
    256 PSUs and a notification that carries the rank sequence [pRank],
    the handler gives the PSU at each position below the length of the
    sequence the rank at that position and every PSU at a later position
    order 0, changes nothing else of a PSU, and only then triggers
    Reconfigure, which leaves the fleet as it is. *)
Theorem rank_order_applied (s : Engine) (values : PropertyMap) (pRank : list Z) :
  In ("RotationRankOrder"%string, VBytes pRank) values ->
  NoDup (map fst values) ->
  (List.length (powerSupplies s) <= 256)%nat ->
  let before := saveConfig (startCRCheck (cancel timerCheck
                   (startRotateCR (cancel timerRotation s)))) in
  let psus' := apply_rank pRank 0 (powerSupplies s) in
  refreshConfig values s = configCR false (set_powerSupplies psus' before) /\
  powerSupplies (refreshConfig values s) = psus' /\
  List.length psus' = List.length (powerSupplies s) /\
  forall i psu, nth_error (powerSupplies s) i = Some psu ->
    ((i < List.length pRank)%nat ->
       nth_error psus' i = Some (set_order (nth i pRank 0) psu)) /\
    ((List.length pRank <= i)%nat ->
       nth_error psus' i = Some (set_order 0 psu)).
Proof.
  intros Hin Hnd Hlen before psus'.
  assert (Hrun : refreshConfig values s = configCR false (set_powerSupplies psus' before)).
  { unfold refreshConfig. fold before.
    rewrite (refreshConfig_loop_rank values before pRank Hin Hnd). reflexivity. }
  split; [exact Hrun|]. split; [|split].
  - rewrite Hrun. now destruct (configCR_policy false (set_powerSupplies psus' before)).
  - apply apply_rank_length.
  - intros i psu Hi. subst psus'.
    rewrite (apply_rank_nth pRank _ 0 i psu) by (assumption || lia).
    rewrite Z.add_0_l, Nat2Z.id.
    split; intros Hcmp.
    + replace (Z.of_nat i <? Z.of_nat (List.length pRank)) with true; [reflexivity|].
      symmetry. apply Z.ltb_lt. lia.
    + replace (Z.of_nat i <? Z.of_nat (List.length pRank)) with false; [reflexivity|].
      symmetry. apply Z.ltb_ge. lia.
Qed.

End Properties.

(** * Concrete runs *)

(** On the register file a write is verified at the first attempt, and the
    loop returns after it. *)
Lemma writePmbus_attempts_witness :
  fst (writePmbus_attempt 7 88 1 (-1) (blank register_file [])) = 1 /\
  writePmbus_loop 4 7 88 1 0 (-1) (blank register_file [])
  = Some (snd (writePmbus_attempt 7 88 1 (-1) (blank register_file []))).
Proof.
  split; [reflexivity|].
  exact (proj2 (proj2 (writePmbus_attempts 7 88 1 (blank register_file []))) 3%nat 0 (-1)
               eq_refl).
Defined.

(** C5 as stated fails: on a bus whose register never reads back the value
    written, [writePmbus] makes four attempts, the fourth with the counter
    at 3. *)
Lemma writePmbus_fourth_attempt :
  writes (io_log (writePmbus 7 88 1 (blank stuck_bus tt))) = 4%nat /\
  io_log (writePmbus 7 88 1 (blank stuck_bus tt))
  = [IoSet 7 88 208 1; IoGet 7 88 208; IoSet 7 88 208 1; IoGet 7 88 208;
     IoSet 7 88 208 1; IoGet 7 88 208; IoSet 7 88 208 1; IoGet 7 88 208] /\
  ~ (writes (io_log (writePmbus 7 88 1 (blank stuck_bus tt))) <= 3)%nat.
Proof.
  split; [reflexivity|]. split; [reflexivity|].
  vm_compute. intros H. repeat apply le_S_n in H. inversion H.
Qed.

Lemma blocked_request_is_noop_witness :
  coldRedundancyStatus busy_engine = inProgress /\
  configCR false busy_engine = busy_engine /\
  rotateCR busy_engine = busy_engine.
Proof.
  split; [reflexivity|].
  destruct (proj1 blocked_request_is_noop busy_engine false
                  (or_intror (or_intror eq_refl))) as (H1 & H2 & _).
  split; assumption.
Defined.

Lemma cancelled_settle_completes_witness :
  is_settle (configCR_wait true) = true /\
  operation_aborted <> success /\
  coldRedundancyStatus (run_handler (configCR_wait true) operation_aborted busy_engine)
  = completed /\
  io_log (world (run_handler (configCR_wait true) operation_aborted busy_engine))
  = io_log (world busy_engine).
Proof.
  assert (Hec : operation_aborted <> success) by discriminate.
  split; [reflexivity|]. split; [exact Hec|].
  destruct (cancelled_settle_completes busy_engine (configCR_wait true) operation_aborted
              eq_refl Hec) as (H1 & H2 & _).
  split; assumption.
Defined.

Lemma reRanking_bmc_contiguous_witness :
  let s := engine_on mixed_fleet bmcSpecific 2 in
  rotationAlgorithm s = bmcSpecific /\
  (normal_count (powerSupplies s) <= 255)%nat /\
  map order (filter is_normal (powerSupplies (reRanking s))) = [1; 2] /\
  map order (powerSupplies (reRanking s)) = [1; 0; 2].
Proof.
  intros s.
  assert (Hb : (normal_count (powerSupplies s) <= 255)%nat) by (vm_compute; lia).
  split; [reflexivity|]. split; [exact Hb|].
  destruct (reRanking_bmc_contiguous s eq_refl Hb) as (_ & H2 & _ & H4).
  split; [exact H2|]. rewrite H4. reflexivity.
Defined.

(** C2 as stated fails: in a fleet of 256 Normal PSUs the last one is given
    rank 0, so the ranks of the Normal PSUs are not 1, ..., 256. *)
Lemma reRanking_bmc_wraps :
  let s := engine_on (fleet_of 256 (fun _ => 0)) bmcSpecific 2 in
  rotationAlgorithm s = bmcSpecific /\
  (exists psu', nth_error (powerSupplies (reRanking s)) 255 = Some psu' /\
                state psu' = normal /\ order psu' = 0) /\
  map order (filter is_normal (powerSupplies (reRanking s))) <> ascending 1 256.
Proof.
  intros s. split; [reflexivity|]. split.
  - eexists. split; [vm_compute; reflexivity|]. split; reflexivity.
  - intros H. apply (f_equal (fun l => nth 255 l (-1))) in H.
    vm_compute in H. discriminate H.
Qed.

Lemma reRanking_user_fallback_witness :
  let s := engine_on mixed_fleet userSpecific 2 in
  rotationAlgorithm s = userSpecific /\
  Exists (fun psu => state psu = acLost) (powerSupplies s) /\
  (normal_count (powerSupplies s) <= 255)%nat /\
  reRanking_rec 2 s = Some (reRanking s, 1%nat) /\
  rotationAlgorithm (reRanking s) = bmcSpecific /\
  map order (filter is_normal (powerSupplies (reRanking s))) = [1; 2].
Proof.
  intros s.
  assert (Hl : Exists (fun psu => state psu = acLost) (powerSupplies s))
    by (apply Exists_cons_tl, Exists_cons_hd; reflexivity).
  assert (Hb : (normal_count (powerSupplies s) <= 255)%nat) by (vm_compute; lia).
  split; [reflexivity|]. split; [exact Hl|]. split; [exact Hb|].
  destruct (reRanking_user_fallback s eq_refl Hl Hb) as (H1 & _ & H3 & _ & H5 & _).
  split; [apply H1; lia|]. split; [exact H3|exact H5].
Defined.

(** C4 as stated fails: with 256 Normal PSUs and one in AcLost the
    fallback runs, and the 256th Normal PSU is given rank 0. *)
Lemma reRanking_user_fallback_wraps :
  let s := engine_on large_mixed_fleet userSpecific 2 in
  rotationAlgorithm s = userSpecific /\
  Exists (fun psu => state psu = acLost) (powerSupplies s) /\
  rotationAlgorithm (reRanking s) = bmcSpecific /\
  (exists psu', nth_error (powerSupplies (reRanking s)) 255 = Some psu' /\
                state psu' = normal /\ order psu' = 0) /\
  map order (filter is_normal (powerSupplies (reRanking s))) <> ascending 1 256.
Proof.
  intros s. split; [reflexivity|]. split; [|split; [vm_compute; reflexivity|split]].
  - apply Exists_exists. exists (psu_at 256 0 acLost). split; [|reflexivity].
    apply in_or_app. right. now left.
  - eexists. split; [vm_compute; reflexivity|]. split; reflexivity.
  - intros H. apply (f_equal (fun l => nth 255 l (-1))) in H.
    vm_compute in H. discriminate H.
Qed.

Lemma rotateCR_cyclic_witness :
  let s := engine_on four_psus bmcSpecific 3 in
  Forall (fun psu => state psu = normal) (powerSupplies s) /\
  Forall (fun psu => 0 <= order psu <= 4) (powerSupplies s) /\
  4 <= 254 /\
  map order (powerSupplies s) = [1; 2; 3; 4] /\
  map order (powerSupplies (rotateCR_handler success s)) = [2; 3; 4; 1] /\
  rotationRankOrder (rotateCR_handler success s) = [2; 3; 4; 1] /\
  coldRedundancyStatus (rotateCR_handler success s) = completed.
Proof.
  intros s.
  assert (Hn : Forall (fun psu => state psu = normal) (powerSupplies s))
    by (repeat constructor).
  assert (Hr : Forall (fun psu => 0 <= order psu <= Z.of_nat (List.length (powerSupplies s)))
                      (powerSupplies s))
    by (repeat constructor; discriminate).
  assert (Hb : Z.of_nat (List.length (powerSupplies s)) <= 254) by discriminate.
  split; [exact Hn|]. split; [exact Hr|]. split; [exact Hb|]. split; [reflexivity|].
  destruct (rotateCR_cyclic s Hn Hr Hb) as (H1 & H2 & H3 & _).
  split; [rewrite H2; reflexivity|]. split; [rewrite H3, H2; reflexivity|exact H1].
Defined.

(** C3 as stated fails: in a fleet of 255 Normal PSUs holding the ranks
    1, ..., 255, the settle step of Rotate gives the PSU of rank 255 the
    order 0, not 1, and writes that 0 to its register. *)
Lemma rotateCR_wraps :
  let s := engine_on (fleet_of 255 (fun i => Z.of_nat i + 1)) bmcSpecific 3 in
  let s' := rotateCR_handler success s in
  forallb is_normal (powerSupplies s) = true /\
  map order (powerSupplies s) = ascending 1 255 /\
  nth_error (map order (powerSupplies s)) 254 = Some 255 /\
  nth_error (map order (powerSupplies s')) 254 = Some 0 /\
  successor 255 255 = 1 /\
  nth_error (io_log (world s')) 508 = Some (IoSet 2 126 208 0).
Proof.
  intros s s'.
  split; [vm_compute; reflexivity|]. split; [vm_compute; reflexivity|].
  split; [vm_compute; reflexivity|]. split; [vm_compute; reflexivity|].
  split; [reflexivity|]. vm_compute; reflexivity.
Qed.

Lemma classifier_full_redundancy_witness :
  let s := engine_after four_psus 3 3 in
  success <> operation_aborted /\
  previousWorkable s < psuWorkable (powerSupplies s) /\
  psuWorkable (powerSupplies s) = numberOfPSU s /\
  redundantCount s <= psuWorkable (powerSupplies s) /\
  published (world (checkRedundancyEvent_handler success s)) = [associationsOk].
Proof.
  intros s.
  assert (Hec : success <> operation_aborted) by discriminate.
  assert (Hp : previousWorkable s < psuWorkable (powerSupplies s)) by reflexivity.
  assert (Ht : psuWorkable (powerSupplies s) = numberOfPSU s) by reflexivity.
  assert (Hr : redundantCount s <= psuWorkable (powerSupplies s)) by discriminate.
  split; [exact Hec|]. split; [exact Hp|]. split; [exact Ht|]. split; [exact Hr|].
  destruct (classifier_full_redundancy s success Hec Hp Ht) as (H1 & _).
  destruct (H1 Hr) as [H _]. exact H.
Defined.

(** C6 as stated fails: with one PSU known, workable again after none was,
    and a redundant count of 2, the workable count exceeds the previous
    count and equals the number of PSUs, and the evaluation publishes
    NonCritical, not Ok. *)
Lemma classifier_full_needs_redundant_count :
  let s := engine_after [psu_at 0 1 normal] 2 0 in
  let s' := checkRedundancyEvent_handler success s in
  previousWorkable s < psuWorkable (powerSupplies s) /\
  psuWorkable (powerSupplies s) = numberOfPSU s /\
  published (world s') = [associationsNonCrit] /\
  journal (world s') = ["OpenBMC.0.1.PowerUnitNonRedundantFromInsufficient"%string] /\
  ~ In associationsOk (published (world s')).
Proof.
  intros s s'. split; [reflexivity|]. split; [reflexivity|].
  split; [reflexivity|]. split; [reflexivity|].
  intros [H|[]]. discriminate H.
Qed.

Lemma classifier_tie_is_silent_witness :
  let s := engine_after four_psus 3 3 in
  let s1 := checkRedundancyEvent_handler success s in
  let s2 := checkRedundancyEvent_handler success s1 in
  success <> operation_aborted /\
  psuPreviousWorkable s1 = Some 4 /\
  world s2 = world s1 /\
  published (world s2) = [associationsOk].
Proof.
  intros s s1 s2.
  assert (Hec : success <> operation_aborted) by discriminate.
  split; [exact Hec|].
  destruct (classifier_tie_is_silent s success success Hec Hec) as (H1 & _ & H3 & _).
  split; [exact H1|]. split; [exact H3|]. reflexivity.
Defined.

(** C7 as stated fails: two consecutive evaluations that both see the
    workable count of the evaluation before them publish nothing at all,
    not exactly one association list. *)
Lemma classifier_two_ties_publish_nothing :
  let s := engine_after four_psus 3 4 in
  let s1 := checkRedundancyEvent_handler success s in
  let s2 := checkRedundancyEvent_handler success s1 in
  psuWorkable (powerSupplies s) = 4 /\
  psuWorkable (powerSupplies s1) = 4 /\
  published (world s) = [] /\
  published (world s2) = [] /\
  journal (world s2) = [] /\
  List.length (published (world s2)) <> 1%nat.
Proof.
  intros s s1 s2. repeat (split; [reflexivity|]). discriminate.
Qed.

Lemma rotation_period_bounds_witness :
  let s := engine_on four_psus bmcSpecific 3 in
  get_if_u32 (lookup "PeriodOfRotation" short_period_reply) = Some 3600 /\
  3600 < @minRotationPeriod register_file /\
  periodOfRotation s = 604800 /\
  periodOfRotation (settings_handler false short_period_reply s) = 604800.
Proof.
  intros s.
  assert (Hlow : 3600 < @minRotationPeriod register_file) by reflexivity.
  split; [reflexivity|]. split; [exact Hlow|]. split; [reflexivity|].
  destruct (rotation_period_bounds s false short_period_reply 3600 eq_refl) as (H & _).
  rewrite (H (or_introl Hlow)). reflexivity.
Defined.

Lemma rank_order_applied_witness :
  let s := engine_on four_psus bmcSpecific 3 in
  let values := [("RotationRankOrder"%string, VBytes [2; 1])] in
  In ("RotationRankOrder"%string, VBytes [2; 1]) values /\
  NoDup (map fst values) /\
  (List.length (powerSupplies s) <= 256)%nat /\
  map order (powerSupplies (refreshConfig values s)) = [2; 1; 0; 0].
Proof.
  intros s values.
  assert (Hin : In ("RotationRankOrder"%string, VBytes [2; 1]) values) by (left; reflexivity).
  assert (Hnd : NoDup (map fst values)) by (repeat constructor; intros []).
  assert (Hlen : (List.length (powerSupplies s) <= 256)%nat) by (cbn; lia).
  split; [exact Hin|]. split; [exact Hnd|]. split; [exact Hlen|].
  destruct (rank_order_applied s values [2; 1] Hin Hnd Hlen) as (_ & H & _).
  rewrite H. reflexivity.
Defined.

(** C10 as stated fails: in a fleet of 257 PSUs that is notified of a rank
    sequence of length 1, the PSU at position 256 is given the rank at
    position 0 of the sequence, not order 0. *)
Lemma rank_order_position_wraps :
  let s := engine_on (fleet_of 257 (fun _ => 0)) bmcSpecific 3 in
  let values := [("RotationRankOrder"%string, VBytes [5])] in
  (List.length [5] < List.length (powerSupplies s))%nat /\
  (List.length [5] <= 256)%nat /\
  (exists psu, nth_error (powerSupplies s) 256 = Some psu) /\
  nth_error (map order (powerSupplies (refreshConfig values s))) 256 = Some 5.
Proof.
  intros s values. split; [vm_compute; lia|]. split; [cbn; lia|].
  split; [eexists; vm_compute; reflexivity|]. vm_compute; reflexivity.
Qed.

(** * Further properties *)

Section Further.
Context {P : Platform}.

(** ** Register access layer *)

Lemma readPmbus_loop_log fuel : forall bus addr i value (w : World) r,
  readPmbus_loop fuel bus addr i value w = Some r ->
  exists es,
    io_log (snd r) = io_log w ++ es /\
    (1 <= List.length es)%nat /\
    (List.length es <= Nat.max 1 (Z.to_nat (retryCount + 1 - i)))%nat /\
    Forall (fun e => e = IoGet bus addr pmbusCmdCRSupport) es.
Proof.
  induction fuel as [|fuel IH]; intros bus addr i value w r Hrun; [discriminate|].
  cbn [readPmbus_loop] in Hrun. unfold do_i2cGet in Hrun.
  destruct (i2cGet bus addr pmbusCmdCRSupport value (i2c w)) as [[ret v] dev].
  set (w1 := Build_World _ _ _ _ _ _) in Hrun.
  set (w2 := if negb (ret =? 0) then say _ w1 else w1) in Hrun.
  assert (Hw2 : io_log w2 = io_log w ++ [IoGet bus addr pmbusCmdCRSupport])
    by (subst w2 w1; now destruct (negb (ret =? 0))).
  destruct ((i <? retryCount) && negb (ret =? 0)) eqn:Hcond.
  - apply andb_prop in Hcond as [Hi _]. apply Z.ltb_lt in Hi.
    destruct (IH _ _ _ _ _ _ Hrun) as (es & Hes & Hlo & Hhi & Hall).
    exists (IoGet bus addr pmbusCmdCRSupport :: es).
    rewrite Hes, Hw2, <- app_assoc. cbn [app List.length].
    repeat split; [lia| |now constructor].
    unfold retryCount in *. lia.
  - injection Hrun as <-. exists [IoGet bus addr pmbusCmdCRSupport]. cbn [snd List.length].
    repeat split; [assumption|lia|lia|now constructor].
Qed.

(** X1. [readPmbus] returns after at least one and at most four reads of
    the order register of the device it was given, and after no other
    access; a first read that succeeds is the only one, and its value is
    the result. *)
Theorem readPmbus_reads (bus addr value : Z) (w : World) :
  readPmbus_loop pmbus_fuel bus addr 0 value w = Some (readPmbus bus addr value w) /\
  (exists es,
      io_log (snd (readPmbus bus addr value w)) = io_log w ++ es /\
      (1 <= List.length es <= 4)%nat /\
      Forall (fun e => e = IoGet bus addr pmbusCmdCRSupport) es) /\
  (forall ret v w1,
      do_i2cGet bus addr value w = (ret, v, w1) -> ret = 0 ->
      readPmbus bus addr value w = (v, w1)).
Proof.
  split; [apply readPmbus_run|split].
  - destruct (readPmbus_loop_log _ _ _ _ _ _ _ (readPmbus_run bus addr value w))
      as (es & Hes & Hlo & Hhi & Hall).
    exists es. repeat split; assumption.
  - intros ret v w1 Hget Hret. unfold readPmbus, pmbus_fuel.
    cbn [readPmbus_loop]. rewrite Hget. subst ret. cbn [Z.eqb negb].
    now rewrite andb_false_r.
Qed.

(** ** Loops of register writes over the fleet *)

Lemma fold_left_same {A B} (f g : A -> B -> A) (l : list B) :
  (forall a b, f a b = g a b) -> forall a, fold_left f l a = fold_left g l a.
Proof.
  intros Hfg. induction l as [|b l IH]; intros a; [reflexivity|].
  cbn. now rewrite Hfg, IH.
Qed.

Lemma is_normal_state psu : is_normal psu = true <-> state psu = normal.
Proof. unfold is_normal. destruct (state psu); cbn; split; congruence. Qed.

(** A call of [writePmbus] only accesses the register it was given. *)
Lemma writePmbus_accesses bus addr value (w : World) :
  exists es, io_log (writePmbus bus addr value w) = io_log w ++ es /\
             In (IoSet bus addr pmbusCmdCRSupport value) es /\
             Forall (fun e => e = IoSet bus addr pmbusCmdCRSupport value
                              \/ e = IoGet bus addr pmbusCmdCRSupport) es.
Proof.
  destruct (writePmbus_writes bus addr value w) as (es & Hes & Hin).
  destruct (writePmbus_loop_log _ _ _ _ _ _ _ _ (writePmbus_run bus addr value w))
    as (es' & Hes' & _ & _ & Hall).
  rewrite Hes in Hes'. apply app_inv_head in Hes'. subst es'.
  exists es. auto.
Qed.

(** What a loop of writes over the fleet puts on the trace: accesses to
    the PSUs it writes to, with the value it writes, and among them a
    write for each of these PSUs. *)
Lemma write_each_log value psus : forall (w : World),
  exists es,
    io_log (write_each value psus w) = io_log w ++ es /\
    Forall (fun e => exists psu v, In psu psus /\ value psu = Some v /\ access_of psu v e) es /\
    (forall psu v, In psu psus -> value psu = Some v ->
                   In (IoSet (bus psu) (address psu) pmbusCmdCRSupport v) es).
Proof.
  unfold write_each.
  induction psus as [|psu rest IH]; intros w.
  - exists []. rewrite app_nil_r. repeat split; [constructor|contradiction].
  - cbn [fold_left].
    destruct (value psu) as [v|] eqn:Hv.
    + destruct (writePmbus_accesses (bus psu) (address psu) v w) as (es1 & Hes1 & Hin1 & Hall1).
      destruct (IH (writePmbus (bus psu) (address psu) v w)) as (es2 & Hes2 & Hall2 & Hin2).
      exists (es1 ++ es2). rewrite Hes2, Hes1, <- app_assoc. repeat split.
      * apply Forall_app. split.
        -- eapply Forall_impl; [|exact Hall1]. intros e He.
           exists psu, v. repeat split; [now left|assumption|exact He].
        -- eapply Forall_impl; [|exact Hall2]. intros e (psu' & v' & Hin & Hv' & He).
           exists psu', v'. repeat split; [now right|assumption|exact He].
      * intros psu' v' [<- | Hin] Hv'; apply in_or_app.
        -- left. congruence.
        -- right. now apply Hin2.
    + destruct (IH w) as (es & Hes & Hall & Hin).
      exists es. repeat split; [assumption| |].
      * eapply Forall_impl; [|exact Hall]. intros e (psu' & v' & Hin' & Hv' & He).
        exists psu', v'. repeat split; [now right|assumption|exact He].
      * intros psu' v' [<- | Hin'] Hv'; [congruence|now apply Hin].
Qed.

Lemma set_world_same s : set_world (world s) s = s.
Proof. now destruct s. Qed.

(** X2. Putting the fleet in warm redundant mode changes nothing of the
    engine but the world; when cold redundancy is not supported it
    changes nothing at all; otherwise every register access it makes is
    to a PSU in Normal state and every write is a write of 0, and each
    Normal PSU is written at least once. *)
Theorem putWarmRedundant_writes (s : Engine) :
  putWarmRedundant s = set_world (world (putWarmRedundant s)) s /\
  (crSupported s = false -> putWarmRedundant s = s) /\
  exists es,
    io_log (world (putWarmRedundant s)) = io_log (world s) ++ es /\
    Forall (fun e => exists psu, In psu (powerSupplies s) /\ state psu = normal /\
                                 access_of psu 0 e) es /\
    (crSupported s = true ->
     forall psu, In psu (powerSupplies s) -> state psu = normal ->
                 In (IoSet (bus psu) (address psu) pmbusCmdCRSupport 0) es).
Proof.
  unfold putWarmRedundant.
  destruct (crSupported s) eqn:Hsup; cbn [negb].
  - split; [reflexivity|]. split; [discriminate|].
    cbn [world set_world].
    rewrite (fold_left_same _
               (fun w psu => match (if is_normal psu then Some 0 else None) with
                             | Some v => writePmbus (bus psu) (address psu) v w
                             | None => w
                             end))
      by (intros w psu; now destruct (is_normal psu)).
    destruct (write_each_log (fun psu => if is_normal psu then Some 0 else None)
                             (powerSupplies s) (world s)) as (es & Hes & Hall & Hin).
    exists es. split; [exact Hes|]. split.
    + eapply Forall_impl; [|exact Hall]. intros e (psu & v & Hp & Hv & He).
      destruct (is_normal psu) eqn:Hn; [|discriminate]. injection Hv as <-.
      exists psu. repeat split; [assumption|now apply is_normal_state|exact He].
    + intros _ psu Hp Hn. apply Hin; [assumption|].
      apply is_normal_state in Hn. now rewrite Hn.
  - split; [now rewrite set_world_same|]. split; [reflexivity|].
    exists []. rewrite app_nil_r. repeat split; [constructor|discriminate].
Qed.

(** X3. When the settle timer of Reconfigure fires, the continuation
    leaves the fleet as re-ranking left it (or as it was, without
    re-ranking) and sets the status to Completed; every register access
    it makes is to a PSU that is Normal and whose order is not 0, every
    write is a write of the order of that PSU, and each such PSU is
    written at least once. *)
Theorem configCR_handler_writes (s : Engine) (reConfig : bool) :
  let s0 := if reConfig then reRanking s else s in
  let s' := configCR_handler reConfig success s in
  coldRedundancyStatus s' = completed /\
  powerSupplies s' = powerSupplies s0 /\
  rotationRankOrder s' = rotationRankOrder s0 /\
  rotationAlgorithm s' = rotationAlgorithm s0 /\
  exists es,
    io_log (world s') = io_log (world s0) ++ es /\
    Forall (fun e => exists psu, In psu (powerSupplies s0) /\ state psu = normal /\
                                 order psu <> 0 /\ access_of psu (order psu) e) es /\
    (forall psu, In psu (powerSupplies s0) -> state psu = normal -> order psu <> 0 ->
                 In (IoSet (bus psu) (address psu) pmbusCmdCRSupport (order psu)) es).
Proof.
  intros s0 s'. subst s'. unfold configCR_handler. fold s0.
  cbn [coldRedundancyStatus powerSupplies rotationRankOrder rotationAlgorithm world
       set_coldRedundancyStatus set_world].
  repeat (split; [reflexivity|]).
  unfold write_ranks.
  rewrite (fold_left_same _
             (fun w psu => match (if is_normal psu && negb (order psu =? 0)
                                  then Some (order psu) else None) with
                           | Some v => writePmbus (bus psu) (address psu) v w
                           | None => w
                           end))
    by (intros w psu; now destruct (is_normal psu && negb (order psu =? 0))).
  destruct (write_each_log (fun psu => if is_normal psu && negb (order psu =? 0)
                                       then Some (order psu) else None)
                           (powerSupplies s0) (world s0)) as (es & Hes & Hall & Hin).
  exists es. split; [exact Hes|]. split.
  - eapply Forall_impl; [|exact Hall]. intros e (psu & v & Hp & Hv & He).
    destruct (is_normal psu) eqn:Hn; [|discriminate].
    destruct (order psu =? 0) eqn:Ho; [discriminate|]. injection Hv as <-.
    exists psu. repeat split;
      [assumption|now apply is_normal_state|now apply Z.eqb_neq|exact He].
  - intros psu Hp Hn Ho. apply Hin; [assumption|].
    apply is_normal_state in Hn. apply Z.eqb_neq in Ho. now rewrite Hn, Ho.
Qed.

(** X4. Re-ranking with algorithm UserSpecific while every PSU is Normal
    does nothing. *)
Theorem reRanking_user_healthy (s : Engine) :
  rotationAlgorithm s = userSpecific ->
  Forall (fun psu => state psu = normal) (powerSupplies s) ->
  reRanking s = s /\ reRanking_rec 1 s = Some (s, 0%nat).
Proof.
  intros Ha Hn.
  assert (Hnone : existsb is_acLost (powerSupplies s) = false).
  { induction Hn as [|psu rest Hp _ IH]; [reflexivity|].
    cbn. unfold is_acLost at 1. now rewrite Hp. }
  unfold reRanking. cbn [reRanking_rec]. rewrite Ha, Hnone. cbn. split; reflexivity.
Qed.

(** ** The rank order that re-ranking and rotation store *)

Lemma reRanking_loop_unfold psu rest index psuNumber orders once (w : World) :
  exists once' w',
    reRanking_loop (psu :: rest) index psuNumber orders once w
    = let psu' := if is_normal psu then set_order index psu else set_order 0 psu in
      let fits := psuNumber <? Z.of_nat (List.length orders) in
      let r := reRanking_loop rest (if is_normal psu then u8 (index + 1) else index)
                 (if fits then u8 (psuNumber + 1) else psuNumber)
                 (if fits then assign (Z.to_nat psuNumber) (order psu') orders else orders)
                 once' w' in
      (psu' :: fst r, snd r).
Proof.
  cbn [reRanking_loop].
  destruct (is_normal psu);
    (destruct (psuNumber <? Z.of_nat (List.length orders)); [|destruct (negb once)]);
    match goal with
    | |- context [reRanking_loop rest ?i ?n ?o ?c ?w'] =>
      exists c, w'; destruct (reRanking_loop rest i n o c w'); reflexivity
    end.
Qed.

Lemma assign_middle done v t todo :
  assign (List.length done) v (done ++ t :: todo) = done ++ v :: todo.
Proof. induction done as [|d done IH]; cbn; [reflexivity|now rewrite IH]. Qed.

Lemma overlay_length vals : forall orders,
  List.length (overlay vals orders) = List.length orders.
Proof.
  induction vals as [|v vals IH]; intros [|o orders]; cbn; try reflexivity.
  now rewrite IH.
Qed.

Lemma overlay_front vals : forall orders,
  (List.length vals <= List.length orders)%nat ->
  overlay vals orders = vals ++ skipn (List.length vals) orders.
Proof.
  induction vals as [|v vals IH]; intros [|o orders] Hlen; cbn in *; try reflexivity;
    [lia|]. rewrite IH by lia. reflexivity.
Qed.

(** While the position counter does not wrap, the loop writes the orders
    it assigns over the rank order, from the position it is at. *)
Lemma reRanking_loop_orders psus : forall index done todo once (w : World),
  Z.of_nat (List.length done) + Z.of_nat (List.length psus) <= 256 ->
  let r := reRanking_loop psus index (Z.of_nat (List.length done)) (done ++ todo) once w in
  fst (snd r) = done ++ overlay (map order (fst r)) todo.
Proof.
  induction psus as [|psu rest IH]; intros index done todo once w Hb;
    [now destruct todo|].
  destruct (reRanking_loop_unfold psu rest index (Z.of_nat (List.length done))
              (done ++ todo) once w) as (once' & w' & ->).
  cbn zeta. cbn [fst snd map].
  set (psu' := if is_normal psu then set_order index psu else set_order 0 psu).
  set (index' := if is_normal psu then u8 (index + 1) else index).
  rewrite length_app.
  destruct todo as [|t todo].
  - replace (Z.of_nat (List.length done) <? Z.of_nat (List.length done + List.length []))
      with false by (symmetry; apply Z.ltb_ge; cbn [List.length]; lia).
    cbn [List.length] in Hb.
    specialize (IH index' done [] once' w'). cbn zeta in IH.
    rewrite IH by lia. now destruct (map order _).
  - replace (Z.of_nat (List.length done)
             <? Z.of_nat (List.length done + List.length (t :: todo)))
      with true by (symmetry; apply Z.ltb_lt; cbn [List.length]; lia).
    rewrite Nat2Z.id, assign_middle. cbn [overlay].
    destruct rest as [|psu2 rest2].
    + cbn [reRanking_loop fst snd map overlay]. reflexivity.
    + cbn [List.length] in Hb.
      assert (Hu : u8 (Z.of_nat (List.length done) + 1)
                   = Z.of_nat (List.length (done ++ [order psu'])))
        by (rewrite length_app; cbn [List.length]; unfold u8;
            rewrite Z.mod_small; lia).
      rewrite Hu.
      replace (done ++ order psu' :: todo) with ((done ++ [order psu']) ++ todo)
        by (now rewrite <- app_assoc).
      specialize (IH index' (done ++ [order psu']) todo once' w'). cbn zeta in IH.
      rewrite IH by (rewrite length_app; cbn [List.length]; lia).
      now rewrite <- app_assoc.
Qed.

Lemma reRanking_loop_orders_start psus index orders once (w : World) :
  (List.length psus <= 256)%nat ->
  let r := reRanking_loop psus index 0 orders once w in
  fst (snd r) = overlay (map order (fst r)) orders.
Proof.
  intros Hlen. apply (reRanking_loop_orders psus index [] orders once w).
  cbn [List.length]. lia.
Qed.

Lemma reRanking_bmc_result s :
  rotationAlgorithm s = bmcSpecific ->
  let r := reRanking_loop (powerSupplies s) 1 0 (rotationRankOrder s) (logOnlyOnce s)
                          (world s) in
  powerSupplies (reRanking s) = fst r /\ rotationRankOrder (reRanking s) = fst (snd r).
Proof.
  intros Ha r. unfold reRanking. cbn [reRanking_rec]. rewrite Ha. cbn [Algo_eqb].
  subst r. destruct (reRanking_loop _ _ _ _ _ _) as [psus [orders [once w]]].
  split; reflexivity.
Qed.

Lemma reRanking_loop_length psus : forall index psuNumber orders once (w : World),
  List.length (fst (reRanking_loop psus index psuNumber orders once w)) = List.length psus.
Proof.
  induction psus as [|psu rest IH]; intros index psuNumber orders once w; [reflexivity|].
  destruct (reRanking_loop_unfold psu rest index psuNumber orders once w)
    as (once' & w' & ->).
  cbn zeta. cbn [fst List.length]. now rewrite IH.
Qed.

(** X5. For a fleet of at most 256 PSUs, re-ranking with algorithm
    BmcSpecific writes the new order of the PSU at each position over the
    entry of the rank order at that position; the rank order keeps its
    length, so the PSUs past its end are not recorded and the entries
    past the end of the fleet are kept. *)
Theorem reRanking_stores_ranks (s : Engine) :
  rotationAlgorithm s = bmcSpecific ->
  (List.length (powerSupplies s) <= 256)%nat ->
  let s' := reRanking s in
  rotationRankOrder s' = overlay (map order (powerSupplies s')) (rotationRankOrder s) /\
  List.length (rotationRankOrder s') = List.length (rotationRankOrder s) /\
  ((List.length (powerSupplies s) <= List.length (rotationRankOrder s))%nat ->
   rotationRankOrder s'
   = map order (powerSupplies s')
       ++ skipn (List.length (powerSupplies s)) (rotationRankOrder s)).
Proof.
  intros Ha Hlen s'. subst s'.
  destruct (reRanking_bmc_result s Ha) as [Hp Ho].
  pose proof (reRanking_loop_orders_start (powerSupplies s) 1 (rotationRankOrder s)
                (logOnlyOnce s) (world s) Hlen) as Hloop.
  cbn zeta in Hloop. rewrite <- Hp, <- Ho in Hloop.
  assert (Hl : List.length (powerSupplies (reRanking s)) = List.length (powerSupplies s))
    by (rewrite Hp; apply reRanking_loop_length).
  split; [exact Hloop|]. split.
  - rewrite Hloop. apply overlay_length.
  - intros Hfit. rewrite Hloop at 1. rewrite overlay_front; rewrite length_map, Hl;
      [reflexivity|assumption].
Qed.

Lemma set_order_same psu : set_order (order psu) psu = psu.
Proof. now destruct psu. Qed.

(** A rank sequence that starts with the orders of the fleet, applied to
    the fleet, changes nothing. *)
Lemma apply_rank_same psus : forall done todo,
  Z.of_nat (List.length done) + Z.of_nat (List.length psus) <= 256 ->
  apply_rank (done ++ map order psus ++ todo) (Z.of_nat (List.length done)) psus = psus.
Proof.
  induction psus as [|psu rest IH]; intros done todo Hb; [reflexivity|].
  cbn [apply_rank map List.length] in *.
  replace (Z.of_nat (List.length done)
           <? Z.of_nat (List.length (done ++ (order psu :: map order rest) ++ todo)))
    with true
    by (symmetry; apply Z.ltb_lt; rewrite length_app; cbn [List.length app]; lia).
  change ((order psu :: map order rest) ++ todo)
    with (order psu :: (map order rest ++ todo)).
  rewrite Nat2Z.id, nth_middle, set_order_same. f_equal.
  destruct rest as [|psu2 rest2]; [reflexivity|].
  cbn [List.length] in Hb.
  assert (Hu : u8 (Z.of_nat (List.length done) + 1)
               = Z.of_nat (List.length (done ++ [order psu])))
    by (rewrite length_app; cbn [List.length]; unfold u8; rewrite Z.mod_small; lia).
  rewrite Hu.
  replace (done ++ order psu :: map order (psu2 :: rest2) ++ todo)
    with ((done ++ [order psu]) ++ map order (psu2 :: rest2) ++ todo)
    by (now rewrite <- app_assoc).
  apply IH. rewrite length_app. cbn [List.length]. lia.
Qed.

Lemma refreshConfig_fleet pRank s :
  powerSupplies (refreshConfig [("RotationRankOrder"%string, VBytes pRank)] s)
  = apply_rank pRank 0 (powerSupplies s).
Proof.
  unfold refreshConfig. cbn [refreshConfig_loop get_if_bytes].
  change (String.eqb "RotationRankOrder" "RotationRankOrder") with true. cbn iota.
  match goal with
  | |- powerSupplies (configCR false ?x) = _ => destruct (configCR_policy false x) as [_ ->]
  end.
  reflexivity.
Qed.

Lemma rotateCR_handler_fleet s :
  let s' := rotateCR_handler success s in
  powerSupplies s' = map (rotate_psu (goodPSUCount (powerSupplies s))) (powerSupplies s) /\
  rotationRankOrder s' = map order (powerSupplies s') /\
  coldRedundancyStatus s' = completed.
Proof.
  cbn zeta. unfold rotateCR_handler.
  pose proof (rotate_loop_fleet (goodPSUCount (powerSupplies s)) (powerSupplies s) (world s))
    as Hf.
  destruct (rotate_loop _ _ _) as [psus w]. cbn [fst] in Hf. subst psus.
  cbn. repeat split.
Qed.

(** X6. The rank order that a rotation stores, sent back in a rank order
    notification, gives every PSU of a fleet of at most 256 the order it
    already has. *)
Theorem rotation_rank_order_round_trip (s : Engine) :
  (List.length (powerSupplies s) <= 256)%nat ->
  let s' := rotateCR_handler success s in
  apply_rank (rotationRankOrder s') 0 (powerSupplies s') = powerSupplies s' /\
  powerSupplies (refreshConfig [("RotationRankOrder"%string, VBytes (rotationRankOrder s'))] s')
  = powerSupplies s'.
Proof.
  intros Hlen s'.
  destruct (rotateCR_handler_fleet s) as (Hp & Ho & _). fold s' in Hp, Ho.
  assert (Hfix : apply_rank (rotationRankOrder s') 0 (powerSupplies s') = powerSupplies s').
  { rewrite Ho.
    pose proof (apply_rank_same (powerSupplies s') [] []) as H.
    cbn [List.length app] in H. rewrite app_nil_r in H. apply H.
    rewrite Hp, length_map. lia. }
  split; [exact Hfix|]. now rewrite refreshConfig_fleet.
Qed.

(** X7. The same round trip for re-ranking with algorithm BmcSpecific,
    when the rank order has an entry for every PSU: the stored rank order,
    sent back in a notification, gives every PSU the order re-ranking gave
    it. *)
Theorem reRanking_rank_order_round_trip (s : Engine) :
  rotationAlgorithm s = bmcSpecific ->
  (List.length (powerSupplies s) <= 256)%nat ->
  (List.length (powerSupplies s) <= List.length (rotationRankOrder s))%nat ->
  let s' := reRanking s in
  apply_rank (rotationRankOrder s') 0 (powerSupplies s') = powerSupplies s' /\
  powerSupplies (refreshConfig [("RotationRankOrder"%string, VBytes (rotationRankOrder s'))] s')
  = powerSupplies s'.
Proof.
  intros Ha Hlen Hfit s'.
  destruct (reRanking_bmc_result s Ha) as [Hp Ho]. fold s' in Hp, Ho.
  pose proof (reRanking_loop_orders_start (powerSupplies s) 1 (rotationRankOrder s)
                (logOnlyOnce s) (world s) Hlen) as Hloop.
  cbn zeta in Hloop. rewrite <- Hp, <- Ho in Hloop.
  assert (Hl : List.length (powerSupplies s') = List.length (powerSupplies s))
    by (rewrite Hp; apply reRanking_loop_length).
  assert (Hfix : apply_rank (rotationRankOrder s') 0 (powerSupplies s') = powerSupplies s').
  { rewrite Hloop, overlay_front by (rewrite length_map, Hl; assumption).
    apply (apply_rank_same (powerSupplies s') []). cbn [List.length]. lia. }
  split; [exact Hfix|]. now rewrite refreshConfig_fleet.
Qed.

(** ** Rotation on any fleet *)




Lemma NoDup_map_on {A B} (f : A -> B) (l : list A) :
  NoDup l -> (forall x y, In x l -> In y l -> f x = f y -> x = y) -> NoDup (map f l).
Proof.
  induction 1 as [|a l Ha Hl IH]; intros Hinj; [constructor|].
  cbn [map]. constructor.
  - intros Hin. apply in_map_iff in Hin as (b & Hfb & Hb).
    assert (b = a) by (apply Hinj; [now right|now left|assumption]).
    subst b. contradiction.
  - apply IH. intros x y Hx Hy. apply Hinj; now right.
Qed.

(** On a fleet that is all Normal and whose orders lie in 1..N, the orders
    after the settle step are the cyclic successors. *)
Lemma rotateCR_handler_orders s :
  let n := Z.of_nat (List.length (powerSupplies s)) in
  Forall (fun psu => state psu = normal) (powerSupplies s) ->
  Forall (fun psu => 0 <= order psu <= n) (powerSupplies s) ->
  n <= 254 ->
  map order (powerSupplies (rotateCR_handler success s))
  = map (fun r => if r =? 0 then 0 else successor n r) (map order (powerSupplies s)).
Proof.
  intros n Hnormal Hrange Hn.
  destruct (rotateCR_handler_fleet s) as (-> & _).
  rewrite goodPSUCount_normal, all_normal_count by assumption. fold n.
  rewrite !map_map. apply map_ext_in. intros psu Hin.
  rewrite Forall_forall in Hrange. specialize (Hrange psu Hin).
  unfold rotate_psu. destruct (order psu =? 0) eqn:E; [now apply Z.eqb_eq in E|].
  apply Z.eqb_neq in E. cbn [order set_order]. apply rotated_successor; lia.
Qed.

(** X9. On a fleet of N Normal PSUs, N at most 254, whose orders are
    distinct and lie in 1..N, the settle step of Rotate leaves the orders
    distinct and in 1..N: no two PSUs come to share a rank. *)
Theorem rotateCR_keeps_ranks_distinct (s : Engine) :
  let n := Z.of_nat (List.length (powerSupplies s)) in
  Forall (fun psu => state psu = normal) (powerSupplies s) ->
  Forall (fun r => 1 <= r <= n) (map order (powerSupplies s)) ->
  NoDup (map order (powerSupplies s)) ->
  n <= 254 ->
  let orders' := map order (powerSupplies (rotateCR_handler success s)) in
  NoDup orders' /\ Forall (fun r => 1 <= r <= n) orders' /\
  List.length orders' = List.length (powerSupplies s).
Proof.
  intros n Hnormal Hrange Hnd Hn orders'. subst orders'.
  assert (Hrange' : Forall (fun psu => 0 <= order psu <= n) (powerSupplies s)).
  { rewrite Forall_map in Hrange. eapply Forall_impl; [|exact Hrange].
    cbn. intros psu H. lia. }
  rewrite (rotateCR_handler_orders s Hnormal Hrange' Hn). fold n.
  rewrite Forall_forall in Hrange.
  assert (Hstep : forall r, In r (map order (powerSupplies s)) ->
                            (if r =? 0 then 0 else successor n r) = successor n r
                            /\ 1 <= successor n r <= n).
  { intros r Hr. specialize (Hrange r Hr).
    replace (r =? 0) with false by (symmetry; apply Z.eqb_neq; lia).
    split; [reflexivity|]. unfold successor.
    destruct (r =? n) eqn:E; [lia|]. apply Z.eqb_neq in E. lia. }
  repeat split.
  - apply NoDup_map_on; [assumption|]. intros x y Hx Hy.
    destruct (Hstep x Hx) as [-> _]. destruct (Hstep y Hy) as [-> _].
    specialize (Hrange x Hx) as Hxr. specialize (Hrange y Hy) as Hyr.
    unfold successor. destruct (x =? n) eqn:Ex; destruct (y =? n) eqn:Ey;
      rewrite ?Z.eqb_eq, ?Z.eqb_neq in *; lia.
  - apply Forall_forall. intros r' Hr'. apply in_map_iff in Hr' as (r & <- & Hr).
    destruct (Hstep r Hr) as [-> H]. exact H.
  - now rewrite !length_map.
Qed.

Lemma turned_step n k r :
  1 <= r <= n ->
  successor n (turned n k r) = turned n (S k) r /\ 1 <= turned n k r <= n.
Proof.
  intros Hr. unfold turned.
  replace (r =? 0) with false by (symmetry; apply Z.eqb_neq; lia).
  pose proof (Z.mod_pos_bound (r - 1 + Z.of_nat k) n ltac:(lia)) as Hm.
  split; [|lia].
  replace (r - 1 + Z.of_nat (S k)) with ((r - 1 + Z.of_nat k) + 1) by lia.
  rewrite <- (Z.add_mod_idemp_l (r - 1 + Z.of_nat k) 1 n) by lia.
  unfold successor.
  destruct ((r - 1 + Z.of_nat k) mod n + 1 =? n) eqn:E.
  - apply Z.eqb_eq in E. rewrite E, Z.mod_same by lia. reflexivity.
  - apply Z.eqb_neq in E.
    rewrite (Z.mod_small ((r - 1 + Z.of_nat k) mod n + 1) n) by lia. reflexivity.
Qed.

Lemma turned_zero n r : 0 <= r <= n -> turned n 0 r = r.
Proof.
  intros Hr. unfold turned. destruct (r =? 0) eqn:E; [now apply Z.eqb_eq in E|].
  apply Z.eqb_neq in E. rewrite Z.add_0_r, Z.mod_small by lia. lia.
Qed.

Lemma turned_full n r : 0 <= r <= n -> turned n (Z.to_nat n) r = r.
Proof.
  intros Hr. unfold turned. destruct (r =? 0) eqn:E; [now apply Z.eqb_eq in E|].
  apply Z.eqb_neq in E. rewrite Z2Nat.id by lia.
  replace (r - 1 + n) with (r - 1 + 1 * n) by lia.
  rewrite Z.mod_add, Z.mod_small by lia. lia.
Qed.

(** X10. On a fleet of N Normal PSUs, N at most 254, whose orders lie in
    0..N, [k] settle steps of Rotate in a row take every non-zero order
    [r] to ((r - 1 + k) mod N) + 1 and keep order 0; so N steps give
    every PSU the order it started with. *)
Theorem rotateCR_cycle (s : Engine) (k : nat) :
  let n := Z.of_nat (List.length (powerSupplies s)) in
  Forall (fun psu => state psu = normal) (powerSupplies s) ->
  Forall (fun psu => 0 <= order psu <= n) (powerSupplies s) ->
  n <= 254 ->
  map order (powerSupplies (Nat.iter k (rotateCR_handler success) s))
  = map (turned n k) (map order (powerSupplies s)) /\
  map order (powerSupplies (Nat.iter (List.length (powerSupplies s))
                                     (rotateCR_handler success) s))
  = map order (powerSupplies s).
Proof.
  intros n Hnormal Hrange Hn.
  assert (Hk : forall k,
             let sk := Nat.iter k (rotateCR_handler success) s in
             map order (powerSupplies sk) = map (turned n k) (map order (powerSupplies s)) /\
             Forall (fun psu => state psu = normal) (powerSupplies sk) /\
             List.length (powerSupplies sk) = List.length (powerSupplies s)).
  { clear k. induction k as [|k IH]; cbn zeta.
    - unfold Nat.iter. cbn [nat_rect]. repeat split; [|assumption].
      rewrite map_map. apply map_ext_in. intros psu Hin.
      rewrite Forall_forall in Hrange. symmetry. apply turned_zero. now apply Hrange.
    - rewrite Nat.iter_succ. set (sk := Nat.iter k (rotateCR_handler success) s) in *.
      cbn zeta in IH. destruct IH as (Ho & Hs & Hl).
      assert (Hr : Forall (fun psu => 0 <= order psu <= Z.of_nat (List.length (powerSupplies sk)))
                          (powerSupplies sk)).
      { rewrite Hl. fold n. rewrite <- Forall_map with (f := order) (P := fun r => 0 <= r <= n).
        rewrite Ho. rewrite Forall_map, Forall_map.
        eapply Forall_impl; [|exact Hrange]. cbn. intros psu Hp. unfold turned.
        destruct (order psu =? 0) eqn:E; [lia|]. apply Z.eqb_neq in E.
        pose proof (Z.mod_pos_bound (order psu - 1 + Z.of_nat k) n ltac:(lia)). lia. }
      split; [|split].
      + rewrite (rotateCR_handler_orders sk Hs Hr) by (rewrite Hl; exact Hn).
        rewrite Hl. fold n. rewrite Ho, !map_map. apply map_ext_in. intros psu Hin.
        rewrite Forall_forall in Hrange. specialize (Hrange psu Hin).
        destruct (order psu =? 0) eqn:E.
        * apply Z.eqb_eq in E. rewrite E. reflexivity.
        * apply Z.eqb_neq in E.
          destruct (turned_step n k (order psu) ltac:(lia)) as [Hstep Hin'].
          replace (turned n k (order psu) =? 0) with false
            by (symmetry; apply Z.eqb_neq; lia).
          exact Hstep.
      + destruct (rotateCR_handler_fleet sk) as (-> & _).
        apply Forall_map. eapply Forall_impl; [|exact Hs]. cbn. intros psu Hp.
        unfold rotate_psu. now destruct (order psu =? 0).
      + destruct (rotateCR_handler_fleet sk) as (-> & _). now rewrite length_map. }
  split; [apply Hk|].
  destruct (Hk (List.length (powerSupplies s))) as (-> & _).
  rewrite map_map. apply map_ext_in. intros psu Hin.
  rewrite Forall_forall in Hrange. specialize (Hrange psu Hin).
  replace (List.length (powerSupplies s)) with (Z.to_nat n) by (unfold n; apply Nat2Z.id).
  apply turned_full. exact Hrange.
Qed.

(** ** Health event classifier *)

(** X11. What one comparison of the classifier publishes, as a table: Ok
    exactly when the count rose to the number of PSUs and is at least the
    redundant count; NonCritical exactly when it rose from 0 and stays
    below the redundant count; Critical exactly when it fell to 0 and the
    redundant count is above 0; Warning in the three other cases the code
    distinguishes; and never more than one of them. *)
Theorem classify_table (workable previous redundant total : Z) (w : World) :
  exists l,
    published (classify workable previous redundant total w) = published w ++ l /\
    (In associationsOk l <->
       previous < workable /\ redundant <= workable /\ workable = total) /\
    (In associationsNonCrit l <->
       previous < workable /\ workable < redundant /\ previous = 0) /\
    (In associationsCrit l <->
       workable < previous /\ workable < redundant /\ workable = 0) /\
    (In associationsWarning l <->
       (previous < workable /\ redundant <= workable /\ workable <> total
        /\ previous < redundant)
       \/ (workable < previous /\ redundant <= workable)
       \/ (workable < previous /\ workable < redundant /\ redundant <= previous
           /\ 0 < workable)) /\
    (List.length l <= 1)%nat.
Proof.
  unfold classify.
  repeat match goal with
         | |- context [if ?c then _ else _] => destruct c eqn:?
         end;
    rewrite ?Z.ltb_lt, ?Z.ltb_ge, ?Z.leb_le, ?Z.leb_gt, ?Z.eqb_eq, ?Z.eqb_neq in *;
    try (exfalso; lia);
    (first [ exists []; split; [cbn; now rewrite app_nil_r|]
           | eexists; split; [cbn; reflexivity|] ]);
    cbn [In List.length];
    repeat split; intros; try lia;
      repeat match goal with
             | H : _ \/ _ |- _ => destruct H
             | H : _ /\ _ |- _ => destruct H
             | H : False |- _ => contradiction
             end;
      try discriminate; try lia; auto;
      try (right; lia); try (left; lia); try (right; left; lia); try (right; right; lia).
Qed.

(** ** Debouncing of the health evaluation *)

Lemma checkRedundancyEvent_arms s :
  crSupported s = true -> powerSupplyRedundancyEnabled s = true ->
  let s' := checkRedundancyEvent s in
  waiting (timers s' puRedundantTimer) = [checkRedundancyEvent_wait] /\
  expiry (timers s' puRedundantTimer) = 2 /\
  ready s' = ready s ++ aborted (waiting (timers s puRedundantTimer)) /\
  crSupported s' = true /\ powerSupplyRedundancyEnabled s' = true /\
  world s' = world s /\ psuPreviousWorkable s' = psuPreviousWorkable s /\
  powerSupplies s' = powerSupplies s.
Proof.
  intros Hs He. cbn zeta. unfold checkRedundancyEvent. rewrite Hs, He. cbn.
  repeat split; assumption.
Qed.

(** X12. While redundancy is supported and enabled, any number of
    requests for a health evaluation in a row leaves exactly one
    evaluation waiting on the debounce timer, set to 2 seconds; every
    earlier one is handed to the event loop as aborted, and an aborted
    evaluation does nothing: a burst of notifications is evaluated once. *)
Theorem checkRedundancyEvent_coalesces (s : Engine) (n : nat) :
  crSupported s = true -> powerSupplyRedundancyEnabled s = true ->
  let s' := Nat.iter (S n) checkRedundancyEvent s in
  waiting (timers s' puRedundantTimer) = [checkRedundancyEvent_wait] /\
  expiry (timers s' puRedundantTimer) = 2 /\
  ready s' = ready s ++ aborted (waiting (timers s puRedundantTimer))
                     ++ repeat (checkRedundancyEvent_wait, operation_aborted) n /\
  world s' = world s /\
  psuPreviousWorkable s' = psuPreviousWorkable s /\
  (forall s0, run_handler checkRedundancyEvent_wait operation_aborted s0 = s0).
Proof.
  intros Hs He.
  assert (Hn : forall n,
             let s' := Nat.iter (S n) checkRedundancyEvent s in
             waiting (timers s' puRedundantTimer) = [checkRedundancyEvent_wait] /\
             expiry (timers s' puRedundantTimer) = 2 /\
             ready s' = ready s ++ aborted (waiting (timers s puRedundantTimer))
                                ++ repeat (checkRedundancyEvent_wait, operation_aborted) n /\
             crSupported s' = true /\ powerSupplyRedundancyEnabled s' = true /\
             world s' = world s /\ psuPreviousWorkable s' = psuPreviousWorkable s).
  { clear n. induction n as [|n IH]; cbn zeta.
    - unfold Nat.iter. cbn [nat_rect].
      destruct (checkRedundancyEvent_arms s Hs He) as (H1 & H2 & H3 & H4 & H5 & H6 & H7 & _).
      cbn [repeat]. rewrite app_nil_r. repeat split; assumption.
    - rewrite Nat.iter_succ. set (sn := Nat.iter (S n) checkRedundancyEvent s) in *.
      cbn zeta in IH. destruct IH as (I1 & I2 & I3 & I4 & I5 & I6 & I7).
      destruct (checkRedundancyEvent_arms sn I4 I5) as (H1 & H2 & H3 & H4 & H5 & H6 & H7 & _).
      repeat split; try assumption; try congruence.
      rewrite H3, I3, I1. cbn [aborted map].
      rewrite <- !app_assoc. do 2 f_equal.
      change [(checkRedundancyEvent_wait, operation_aborted)]
        with (repeat (checkRedundancyEvent_wait, operation_aborted) 1).
      rewrite <- repeat_app. f_equal. lia. }
  cbn zeta. destruct (Hn n) as (H1 & H2 & H3 & _ & _ & H6 & H7).
  repeat split; assumption.
Qed.

(** ** PSU state notifications *)

Lemma string_length_app (a b : string) :
  String.length (a ++ b)%string = (String.length a + String.length b)%nat.
Proof. induction a as [|c a IH]; cbn; [reflexivity|now rewrite IH]. Qed.

Lemma find_last_of_app chars (a b : string) :
  find_last_of chars (a ++ b)%string
  = match find_last_of chars b with
    | Some n => Some (String.length a + n)%nat
    | None => find_last_of chars a
    end.
Proof.
  induction a as [|c a IH]; cbn [String.append find_last_of String.length].
  - now destruct (find_last_of chars b).
  - rewrite IH. now destruct (find_last_of chars b).
Qed.

Lemma find_first_app c (a b : string) :
  find_first c a = None ->
  find_first c (a ++ String c b)%string = Some (String.length a).
Proof.
  induction a as [|c' a IH]; cbn [String.append find_first String.length]; intros H.
  - now rewrite Ascii.eqb_refl.
  - destruct (Ascii.eqb c' c); [discriminate|].
    destruct (find_first c a); [discriminate|]. now rewrite IH.
Qed.

Lemma substring_skip (a : string) : forall n m (b : string),
  substring (String.length a + n) m (a ++ b)%string = substring n m b.
Proof. induction a as [|c a IH]; intros n m b; cbn; [reflexivity|apply IH]. Qed.

Lemma substring_all (b : string) : substring 0 (String.length b) b = b.
Proof. induction b as [|c b IH]; cbn; [reflexivity|now rewrite IH]. Qed.

Lemma substring_prefix (a b : string) :
  substring 0 (String.length a) (a ++ b)%string = a.
Proof.
  induction a as [|c a IH]; cbn; [now destruct b|now rewrite IH].
Qed.

Lemma psuName_of_path_sep (dir psuName suffix : string) (sep : Ascii.ascii) :
  sep = "/"%char \/ sep = "\"%char ->
  find_last_of ["/"%char; "\"%char] (psuName ++ String "_" suffix)%string = None ->
  find_first "_"%char psuName = None ->
  psuName_of_path (dir ++ String sep (psuName ++ String "_" suffix))%string = inr psuName.
Proof.
  intros Hsep Hclean Hname. unfold psuName_of_path.
  set (tail := (psuName ++ String "_" suffix)%string) in *.
  assert (Hlast : find_last_of ["/"%char; "\"%char] (String sep tail) = Some O).
  { cbn [find_last_of]. rewrite Hclean. destruct Hsep as [-> | ->]; reflexivity. }
  rewrite find_last_of_app, Hlast, Nat.add_0_r.
  assert (Hlen : String.length (dir ++ String sep tail)%string
                 = (String.length dir + 1 + String.length tail)%nat)
    by (rewrite string_length_app; cbn [String.length]; lia).
  assert (Htail : (1 <= String.length tail)%nat)
    by (subst tail; rewrite string_length_app; cbn [String.length]; lia).
  replace (String.length (dir ++ String sep tail)%string <=? String.length dir + 1)%nat
    with false by (symmetry; apply Nat.leb_gt; lia).
  rewrite Hlen.
  replace (String.length dir + 1 + String.length tail - (String.length dir + 1))%nat
    with (String.length tail) by lia.
  rewrite substring_skip. cbn [substring]. rewrite substring_all.
  subst tail. rewrite find_first_app by assumption.
  now rewrite substring_prefix.
Qed.

Lemma find_last_of_split chars (s : string) : forall n,
  find_last_of chars s = Some n ->
  exists a c b, s = (a ++ String c b)%string /\ String.length a = n /\
                existsb (Ascii.eqb c) chars = true /\ find_last_of chars b = None.
Proof.
  induction s as [|c s IH]; intros n H; [discriminate|].
  cbn [find_last_of] in H.
  destruct (find_last_of chars s) as [m|] eqn:E.
  - injection H as <-. destruct (IH m eq_refl) as (a & c' & b & -> & Hl & Hc & Hb).
    exists (String c a), c', b. cbn. repeat split; auto.
  - destruct (existsb (Ascii.eqb c) chars) eqn:Hc; [|discriminate]. injection H as <-.
    exists EmptyString, c, s. repeat split; auto.
Qed.

Lemma find_first_split c (s : string) : forall n,
  find_first c s = Some n ->
  exists a b, s = (a ++ String c b)%string /\ String.length a = n /\ find_first c a = None.
Proof.
  induction s as [|c' s IH]; intros n H; [discriminate|].
  cbn [find_first] in H.
  destruct (Ascii.eqb c' c) eqn:E.
  - injection H as <-. apply Ascii.eqb_eq in E. subst c'.
    exists EmptyString, s. repeat split; auto.
  - destruct (find_first c s) as [m|] eqn:Em; [|discriminate]. injection H as <-.
    destruct (IH m eq_refl) as (a & b & -> & Hl & Ha).
    exists (String c' a), b. cbn. rewrite E, Ha. repeat split; auto.
Qed.

(** X13. The object paths from which a PSU name is obtained are exactly
    those that end in a slash or backslash, the name, an underscore and a
    suffix, where the name holds no underscore and neither the name nor
    the suffix holds a slash or backslash; the name obtained is that
    name. *)
Theorem psuName_of_path_round_trip (path psuName : string) :
  psuName_of_path path = inr psuName <->
  exists dir sep suffix,
    (sep = "/"%char \/ sep = "\"%char) /\
    path = (dir ++ String sep (psuName ++ String "_" suffix))%string /\
    find_last_of ["/"%char; "\"%char] (psuName ++ String "_" suffix)%string = None /\
    find_first "_"%char psuName = None.
Proof.
  split.
  - unfold psuName_of_path. intros H.
    destruct (find_last_of ["/"%char; "\"%char] path) as [pos|] eqn:Hlast; [|discriminate].
    destruct (find_last_of_split _ _ _ Hlast) as (dir & sep & tail & -> & Hpos & Hsep & Hclean).
    subst pos. rewrite string_length_app in H. cbn [String.length] in H.
    destruct (String.length dir + S (String.length tail) <=? String.length dir + 1)%nat;
      [discriminate|].
    replace (String.length dir + S (String.length tail) - (String.length dir + 1))%nat
      with (String.length tail) in H by lia.
    rewrite substring_skip in H. cbn [substring] in H. rewrite substring_all in H.
    destruct (find_first "_"%char tail) as [k|] eqn:Hk; [|discriminate].
    destruct (find_first_split _ _ _ Hk) as (nm & suffix & -> & Hl & Hnm).
    subst k. rewrite substring_prefix in H. injection H as <-.
    exists dir, sep, suffix. repeat split; try assumption.
    cbn [existsb] in Hsep. rewrite orb_false_r in Hsep.
    apply orb_prop in Hsep as [E | E]; apply Ascii.eqb_eq in E; auto.
  - intros (dir & sep & suffix & Hsep & -> & Hclean & Hname).
    now apply psuName_of_path_sep.
Qed.

Lemma psuName_of_path_parse (dir psuName suffix : string) :
  find_last_of ["/"%char; "\"%char] (psuName ++ String "_" suffix)%string = None ->
  find_first "_"%char psuName = None ->
  psuName_of_path (dir ++ String "/" (psuName ++ String "_" suffix))%string = inr psuName.
Proof. intros Hc Hn. apply psuName_of_path_sep; auto. Qed.

Lemma checkRedundancyEvent_fleet s :
  powerSupplies (checkRedundancyEvent s) = powerSupplies s.
Proof.
  unfold checkRedundancyEvent.
  now destruct (negb (crSupported s) || negb (powerSupplyRedundancyEnabled s)).
Qed.

(** X14. A state notification whose path names a PSU and whose payload
    gives [functional] sets every PSU of that name to Normal (true) or
    AcLost (false) and leaves every other PSU as it is; without
    [functional] in the payload the fleet is as before. In both cases
    nothing but the state of a PSU changes. *)
Theorem eventCollect_signal_marks (s : Engine) (dir psuName suffix : string)
    (values : list (string * bool)) :
  find_last_of ["/"%char; "\"%char] (psuName ++ String "_" suffix)%string = None ->
  find_first "_"%char psuName = None ->
  let path := (dir ++ String "/" (psuName ++ String "_" suffix))%string in
  let psus' := powerSupplies (eventCollect_signal path (Some values) s) in
  (forall key functional,
      find (fun kv => String.eqb (fst kv) "functional") values = Some (key, functional) ->
      psus' = map (fun psu => if String.eqb (name psu) psuName
                              then set_state (if functional then normal else acLost) psu
                              else psu) (powerSupplies s)) /\
  (find (fun kv => String.eqb (fst kv) "functional") values = None ->
   psus' = powerSupplies s) /\
  map (set_state normal) psus' = map (set_state normal) (powerSupplies s).
Proof.
  intros Hclean Hname path psus'. subst psus' path.
  unfold eventCollect_signal.
  rewrite (psuName_of_path_parse dir psuName suffix) by assumption.
  unfold eventCollect. rewrite checkRedundancyEvent_fleet.
  cbn [powerSupplies set_powerSupplies].
  split; [|split].
  - intros key functional Hf. rewrite Hf. apply map_ext. intros psu.
    destruct (String.eqb (name psu) psuName); cbn [negb]; [|reflexivity].
    now destruct functional.
  - intros Hf. rewrite Hf. rewrite <- (map_id (powerSupplies s)) at 2.
    apply map_ext. intros psu. now destruct (negb (String.eqb (name psu) psuName)).
  - rewrite map_map. apply map_ext. intros psu.
    destruct (negb (String.eqb (name psu) psuName)); [reflexivity|].
    destruct (find _ values) as [[key [|]]|]; reflexivity.
Qed.

(** X15. A state notification is dropped, with one line on [std::cerr]
    and nothing else changed (no PSU state, no debounce timer), when its
    path holds no slash or backslash, when it ends in one, when what
    follows the last one holds no underscore, or when its payload cannot
    be read. *)
Theorem eventCollect_signal_rejects (s : Engine) (path : string)
    (payload : option (list (string * bool))) :
  find_last_of ["/"%char; "\"%char] path = None
  \/ (exists dir sep, (sep = "/"%char \/ sep = "\"%char)
                      /\ path = (dir ++ String sep EmptyString)%string)
  \/ (exists dir sep tail,
         (sep = "/"%char \/ sep = "\"%char)
         /\ path = (dir ++ String sep tail)%string
         /\ find_last_of ["/"%char; "\"%char] tail = None
         /\ find_first "_"%char tail = None)
  \/ payload = None ->
  exists msg, eventCollect_signal path payload s = cerr_engine msg s.
Proof.
  unfold eventCollect_signal, psuName_of_path.
  intros [Hnone | [(dir & sep & Hsep & ->) | [(dir & sep & tail & Hsep & -> & Hclean & Hus)
                                              | ->]]].
  - rewrite Hnone. eauto.
  - assert (Hlast : find_last_of ["/"%char; "\"%char] (String sep EmptyString) = Some O)
      by (destruct Hsep as [-> | ->]; reflexivity).
    rewrite find_last_of_app, Hlast, Nat.add_0_r, string_length_app.
    cbn [String.length].
    replace (String.length dir + 1 <=? String.length dir + 1)%nat with true
      by (symmetry; apply Nat.leb_le; lia).
    eauto.
  - assert (Hlast : find_last_of ["/"%char; "\"%char] (String sep tail) = Some O)
      by (cbn [find_last_of]; rewrite Hclean; destruct Hsep as [-> | ->]; reflexivity).
    rewrite find_last_of_app, Hlast, Nat.add_0_r, string_length_app.
    cbn [String.length].
    destruct (String.length dir + S (String.length tail) <=? String.length dir + 1)%nat;
      [eauto|].
    replace (String.length dir + S (String.length tail) - (String.length dir + 1))%nat
      with (String.length tail) by lia.
    rewrite substring_skip. cbn [substring]. rewrite substring_all, Hus. eauto.
  - destruct (find_last_of _ path) as [pos|]; [|eauto].
    destruct (String.length path <=? pos + 1)%nat; [eauto|].
    destruct (find_first _ _); eauto.
Qed.

(** ** Drift checker *)

Lemma readPmbus_log bus addr value (w : World) :
  exists es, io_log (snd (readPmbus bus addr value w)) = io_log w ++ es /\
             Forall (fun e => e = IoGet bus addr pmbusCmdCRSupport) es.
Proof.
  destruct (readPmbus_loop_log _ _ _ _ _ _ _ (readPmbus_run bus addr value w))
    as (es & Hes & _ & _ & Hall).
  exists es. auto.
Qed.

Lemma checkCR_loop_reads psus : forall s,
  exists w' es,
    io_log w' = io_log (world s) ++ es /\
    Forall (fun e => exists psu, In psu psus /\ state psu = normal /\
                                 e = IoGet (bus psu) (address psu) pmbusCmdCRSupport) es /\
    (checkCR_loop psus s = set_world w' s
     \/ checkCR_loop psus s = configCR true (set_world w' s)).
Proof.
  induction psus as [|psu rest IH]; intros s.
  - exists (world s), []. rewrite app_nil_r, set_world_same. auto.
  - cbn [checkCR_loop]. destruct (is_normal psu) eqn:Hn.
    + destruct (readPmbus_log (bus psu) (address psu) (-1) (world s)) as (es1 & Hes1 & Hall1).
      destruct (readPmbus (bus psu) (address psu) (-1) (world s)) as [o w1].
      cbn [snd] in Hes1.
      assert (Hall1' : Forall (fun e => exists psu0, In psu0 (psu :: rest) /\
                                  state psu0 = normal /\
                                  e = IoGet (bus psu0) (address psu0) pmbusCmdCRSupport) es1).
      { eapply Forall_impl; [|exact Hall1]. intros e He. exists psu.
        repeat split; [now left|now apply is_normal_state|exact He]. }
      destruct (o =? 0).
      * exists w1, es1. auto.
      * destruct (IH (set_world w1 s)) as (w' & es2 & Hes2 & Hall2 & Hres).
        exists w', (es1 ++ es2). cbn [world set_world] in Hes2.
        rewrite Hes2, Hes1, <- app_assoc. split; [reflexivity|]. split.
        -- apply Forall_app. split; [exact Hall1'|].
           eapply Forall_impl; [|exact Hall2]. intros e (psu0 & Hin & Hst & He).
           exists psu0. repeat split; [now right|assumption|exact He].
        -- exact Hres.
    + destruct (IH s) as (w' & es & Hes & Hall & Hres).
      exists w', es. repeat split; [assumption| |exact Hres].
      eapply Forall_impl; [|exact Hall]. intros e (psu0 & Hin & Hst & He).
      exists psu0. repeat split; [now right|assumption|exact He].
Qed.

(** X16. The drift check does nothing when cold redundancy is not
    supported and is [putWarmRedundant] when redundancy is disabled.
    Otherwise it only reads order registers of Normal PSUs and then either
    stops there or goes on as Reconfigure with re-ranking; it writes no
    register of its own, and while an operation is in progress it does
    nothing but read. *)
Theorem checkCR_reads_then_reconfigures (s : Engine) :
  (crSupported s = false -> checkCR s = s) /\
  (crSupported s = true -> powerSupplyRedundancyEnabled s = false ->
   checkCR s = putWarmRedundant s) /\
  (crSupported s = true -> powerSupplyRedundancyEnabled s = true ->
   exists w' es,
     io_log w' = io_log (world s) ++ es /\
     Forall (fun e => exists psu, In psu (powerSupplies s) /\ state psu = normal /\
                                  e = IoGet (bus psu) (address psu) pmbusCmdCRSupport) es /\
     (checkCR s = set_world w' s \/ checkCR s = configCR true (set_world w' s)) /\
     (coldRedundancyStatus s = inProgress -> checkCR s = set_world w' s)).
Proof.
  unfold checkCR. split; [|split].
  - now intros ->.
  - now intros -> ->.
  - intros -> ->. cbn [negb].
    destruct (checkCR_loop_reads (powerSupplies s) s) as (w' & es & Hes & Hall & Hres).
    exists w', es. repeat split; try assumption.
    intros Hbusy. destruct Hres as [H | H]; [exact H|].
    rewrite H. unfold configCR, blocked. cbn [crSupported powerSupplyRedundancyEnabled
      coldRedundancyStatus set_world]. rewrite Hbusy. cbn. now rewrite !orb_true_r.
Qed.

(** ** The status and the timers along any run of the event loop *)












Lemma sound_idle s :
  sound s -> coldRedundancyStatus s = completed -> outstanding s = 0%nat.
Proof. intros [_ [[H _]|[_ H]]] Hc; [assumption|congruence]. Qed.





















(** ** Configuration ingestion *)

Lemma props_kept_comp f g : props_kept f -> props_kept g -> props_kept (fun s => g (f s)).
Proof.
  intros Hf Hg s. destruct (Hf s) as (H1 & H2 & H3 & H4).
  destruct (Hg (f s)) as (H5 & H6 & H7 & H8). repeat split; congruence.
Qed.

Lemma props_kept_silent_world f :
  (forall s, exists w, f s = set_world w s) -> props_kept f.
Proof. intros Hf s. destruct (Hf s) as [w ->]. repeat split. Qed.

Lemma putWarmRedundant_props : props_kept putWarmRedundant.
Proof.
  apply props_kept_silent_world. intros s. unfold putWarmRedundant.
  destruct (negb (crSupported s)); [exists (world s); now rewrite set_world_same|eauto].
Qed.

Lemma configCR_props reConfig : props_kept (configCR reConfig).
Proof.
  intros s. unfold configCR. destruct (blocked s); [repeat split|].
  revert s.
  apply (props_kept_comp _ (async_wait _ _)); [|intros s; repeat split].
  apply (props_kept_comp _ (expires_after _ _)); [|intros s; repeat split].
  apply (props_kept_comp _ putWarmRedundant); [|apply putWarmRedundant_props].
  intros s. repeat split.
Qed.

(** X19. The settings reply is applied as a whole or not at all: when the
    call failed or one of the five properties is absent or of another
    type, the engine only writes a line on [std::cerr], even the
    properties that are well formed are not applied; when all five are
    there, the four beside the period are stored as given, whether or not
    the period is in range. *)
Theorem settings_reply_all_or_nothing (s : Engine) (ec : bool) (propMap : PropertyMap) :
  (ec = true
   \/ get_if_u32 (lookup "PeriodOfRotation" propMap) = None
   \/ get_if_bool (lookup "PowerSupplyRedundancyEnabled" propMap) = None
   \/ get_if_string (lookup "RotationAlgorithm" propMap) = None
   \/ get_if_bool (lookup "RotationEnabled" propMap) = None
   \/ get_if_bytes (lookup "RotationRankOrder" propMap) = None ->
   exists msg, settings_handler ec propMap s = cerr_engine msg s) /\
  (forall period redundancyEnabled algorithm enabled rankOrder,
      ec = false ->
      get_if_u32 (lookup "PeriodOfRotation" propMap) = Some period ->
      get_if_bool (lookup "PowerSupplyRedundancyEnabled" propMap) = Some redundancyEnabled ->
      get_if_string (lookup "RotationAlgorithm" propMap) = Some algorithm ->
      get_if_bool (lookup "RotationEnabled" propMap) = Some enabled ->
      get_if_bytes (lookup "RotationRankOrder" propMap) = Some rankOrder ->
      let s' := settings_handler ec propMap s in
      powerSupplyRedundancyEnabled s' = redundancyEnabled /\
      rotationAlgorithm s' = convertAlgoFromString algorithm /\
      rotationEnabled s' = enabled /\
      rotationRankOrder s' = rankOrder).
Proof.
  split.
  - intros H. unfold settings_handler. destruct ec; [eauto|].
    destruct (get_if_u32 _); [|eauto].
    destruct (get_if_bool (lookup "PowerSupplyRedundancyEnabled" propMap)); [|eauto].
    destruct (get_if_string _); [|eauto].
    destruct (get_if_bool _); [|eauto].
    destruct (get_if_bytes _); [|eauto].
    destruct H as [H | [H | [H | [H | [H | H]]]]]; discriminate H.
  - intros period redundancyEnabled algorithm enabled rankOrder -> Hp He Ha Hr Ho s'.
    assert (K : props_kept (fun y => startRotateCR (cancel timerRotation (configCR false y)))).
    { apply (props_kept_comp (fun y => cancel timerRotation (configCR false y)) startRotateCR);
        [|intros y; repeat split].
      apply (props_kept_comp (configCR false) (cancel timerRotation));
        [apply configCR_props|intros y; repeat split]. }
    subst s'. unfold settings_handler. rewrite Hp, He, Ha, Hr, Ho.
    lazy beta iota zeta.
    match goal with
    | |- context [configCR false ?x] => destruct (K x) as (H1 & H2 & H3 & H4)
    end.
    lazy beta in H1, H2, H3, H4. rewrite H1, H2, H3, H4.
    repeat split.
Qed.

Lemma refreshConfig_loop_skips values : forall s,
  (forall v, In ("RotationRankOrder"%string, v) values -> get_if_bytes (Some v) = None) ->
  refreshConfig_loop values s = s.
Proof.
  induction values as [|[key value] rest IH]; intros s H; [reflexivity|].
  cbn [refreshConfig_loop].
  destruct (String.eqb key "RotationRankOrder") eqn:E.
  - apply String.eqb_eq in E. subst key.
    rewrite (H value) by (now left). apply IH. intros v Hv. apply H. now right.
  - apply IH. intros v Hv. apply H. now right.
Qed.

(** X20. A policy-change notification that carries no rank order, or one
    of another type, triggers no Reconfigure: no PSU order changes, the
    status and the settle timer are as before and no register is
    accessed; the rotation and check timers are restarted and the five
    policy properties are sent to the settings service. *)
Theorem refreshConfig_without_ranks (s : Engine) (values : PropertyMap) :
  (forall v, In ("RotationRankOrder"%string, v) values -> get_if_bytes (Some v) = None) ->
  let s' := refreshConfig values s in
  powerSupplies s' = powerSupplies s /\
  coldRedundancyStatus s' = coldRedundancyStatus s /\
  timers s' warmRedundantTimer = timers s warmRedundantTimer /\
  io_log (world s') = io_log (world s) /\
  waiting (timers s' timerRotation) = [startRotateCR_wait] /\
  expiry (timers s' timerRotation) = periodOfRotation s /\
  waiting (timers s' timerCheck) = [startCRCheck_wait] /\
  expiry (timers s' timerCheck) = 60 /\
  map fst (settings (world s'))
  = map fst (settings (world s))
      ++ ["PowerSupplyRedundancyEnabled"; "RotationEnabled"; "RotationAlgorithm";
          "RotationRankOrder"; "PeriodOfRotation"]%string.
Proof.
  intros H s'. subst s'. unfold refreshConfig.
  rewrite refreshConfig_loop_skips by assumption.
  cbn. repeat split. rewrite !map_app. cbn. now rewrite <- !app_assoc.
Qed.

End Further.

(** * Operations from request to completion *)

Section Completion.
Context {P : Platform}.

Lemma reRanking_loop_fleet_only psus :
  forall index n1 o1 c1 (w1 : World) n2 o2 c2 (w2 : World),
    fst (reRanking_loop psus index n1 o1 c1 w1) = fst (reRanking_loop psus index n2 o2 c2 w2).
Proof.
  induction psus as [|psu rest IH]; intros; [reflexivity|].
  destruct (reRanking_loop_cons psu rest index n1 o1 c1 w1) as (a1 & b1 & d1 & e1 & ->).
  destruct (reRanking_loop_cons psu rest index n2 o2 c2 w2) as (a2 & b2 & d2 & e2 & ->).
  f_equal. apply IH.
Qed.

(** The fleet that re-ranking returns depends on the fleet and the
    algorithm alone. *)
Lemma reRanking_fleet_only s1 s2 :
  rotationAlgorithm s1 = rotationAlgorithm s2 ->
  powerSupplies s1 = powerSupplies s2 ->
  powerSupplies (reRanking s1) = powerSupplies (reRanking s2).
Proof.
  intros Ha Hp. unfold reRanking. cbn [reRanking_rec]. rewrite <- Ha, <- Hp.
  destruct (rotationAlgorithm s1); cbn [Algo_eqb].
  - pose proof (reRanking_loop_fleet_only (powerSupplies s1) 1
                  0 (rotationRankOrder s1) (logOnlyOnce s1) (world s1)
                  0 (rotationRankOrder s2) (logOnlyOnce s2) (world s2)) as H.
    destruct (reRanking_loop _ _ _ (rotationRankOrder s1) _ _) as [p1 [o1 [c1 w1]]].
    destruct (reRanking_loop _ _ _ (rotationRankOrder s2) _ _) as [p2 [o2 [c2 w2]]].
    exact H.
  - destruct (existsb is_acLost (powerSupplies s1)); [|exact Hp].
    cbn [rotationAlgorithm set_rotationAlgorithm Algo_eqb powerSupplies rotationRankOrder
         logOnlyOnce world].
    rewrite <- ?Hp.
    pose proof (reRanking_loop_fleet_only (powerSupplies s1) 1
                  0 (rotationRankOrder s1) (logOnlyOnce s1) (world s1)
                  0 (rotationRankOrder s2) (logOnlyOnce s2) (world s2)) as H.
    destruct (reRanking_loop _ _ _ (rotationRankOrder s1) _ _) as [p1 [o1 [c1 w1]]].
    destruct (reRanking_loop _ _ _ (rotationRankOrder s2) _ _) as [p2 [o2 [c2 w2]]].
    exact H.
Qed.

(** Running ready handlers that were aborted and are no settle
    continuations only takes them off the queue. *)
Lemma drain_aborted hs : forall rest s,
  Forall (fun h => is_settle h = false) hs ->
  ready s = aborted hs ++ rest ->
  run (repeat runReady (List.length hs)) s = set_ready rest s.
Proof.
  induction hs as [|h hs IH]; intros rest s Hall Hr.
  - cbn in *. rewrite <- Hr. now destruct s.
  - inversion Hall as [|? ? Hh Hhs]; subst.
    cbn [List.length repeat run fold_left step]. rewrite Hr. cbn [aborted map app].
    assert (Hrun : run_handler h operation_aborted (set_ready (aborted hs ++ rest) s)
                   = set_ready (aborted hs ++ rest) s)
      by (destruct h; try discriminate Hh; reflexivity).
    unfold aborted in Hrun |- *. rewrite Hrun.
    change (fold_left (fun s e => step e s) (repeat runReady (List.length hs))
                      (set_ready (map (fun h => (h, operation_aborted)) hs ++ rest) s))
      with (run (repeat runReady (List.length hs))
                (set_ready (aborted hs ++ rest) s)).
    rewrite (IH rest) by (assumption || reflexivity). reflexivity.
Qed.

Lemma run_app l1 l2 s : run (l1 ++ l2) s = run l2 (run l1 s).
Proof. unfold run. apply fold_left_app. Qed.

Lemma sound_idle_timer s :
  sound s -> blocked s = false -> waiting (timers s warmRedundantTimer) = [].
Proof.
  intros Hx Hb.
  pose proof (sound_idle s Hx (unblocked_completed s Hb)) as H0.
  destruct Hx as [Ht _]. destruct (Ht warmRedundantTimer) as [_ Hbel].
  rewrite outstanding_eq in H0. unfold settle_waits in H0.
  destruct (waiting (timers s warmRedundantTimer)) as [|h hs]; [reflexivity|].
  cbn [forallb] in Hbel. apply andb_prop in Hbel as [Hh _].
  assert (Hs : is_settle h = true) by (destruct h; try discriminate Hh; reflexivity).
  cbn [filter] in H0. rewrite Hs in H0. cbn [List.length] in H0. lia.
Qed.

Lemma tidy_not_settle s t :
  tidy s -> t <> warmRedundantTimer ->
  Forall (fun h => is_settle h = false) (waiting (timers s t)).
Proof.
  intros Ht Hne. destruct (Ht t) as [_ Hb].
  apply Forall_forall. intros h Hin. rewrite forallb_forall in Hb.
  specialize (Hb h Hin). destruct t, h; try discriminate Hb; try reflexivity; contradiction.
Qed.

(** What an accepted Reconfigure request leaves behind. *)
Lemma configCR_started reConfig s :
  blocked s = false ->
  let s1 := configCR reConfig s in
  ready s1 = ready s ++ aborted (waiting (timers s timerRotation))
                     ++ aborted (waiting (timers s timerCheck))
                     ++ aborted (waiting (timers s warmRedundantTimer)) /\
  waiting (timers s1 warmRedundantTimer) = [configCR_wait reConfig] /\
  waiting (timers s1 timerRotation) = [startRotateCR_wait] /\
  waiting (timers s1 timerCheck) = [startCRCheck_wait] /\
  coldRedundancyStatus s1 = inProgress /\
  powerSupplies s1 = powerSupplies s /\
  rotationAlgorithm s1 = rotationAlgorithm s.
Proof.
  intros Hb. cbn zeta. unfold configCR. rewrite Hb.
  match goal with
  | |- context [putWarmRedundant ?x] =>
    destruct (putWarmRedundant_silent x) as (Ht & Hr & Hst);
    destruct (putWarmRedundant_policy x) as (_ & Hp);
    destruct (putWarmRedundant_props x) as (_ & Ha & _);
    revert Ht Hr Hst Hp Ha; generalize (putWarmRedundant x); intros y Ht Hr Hst Hp Ha
  end.
  cbn [ready timers waiting expiry powerSupplies coldRedundancyStatus rotationAlgorithm
       async_wait expires_after with_timer set_timers set_ready TimerId_eqb].
  rewrite Ht, Hr, Hst, Hp, Ha. clear. unfold startCRCheck, startRotateCR.
  cbn [ready timers waiting expiry powerSupplies coldRedundancyStatus rotationAlgorithm
       async_wait expires_after cancel with_timer set_timers set_ready
       set_coldRedundancyStatus TimerId_eqb app aborted map].
  rewrite !app_nil_r, <- !app_assoc. repeat split.
Qed.

(** X24. A Reconfigure request that is accepted by a sound, idle engine
    with an empty ready queue sets the status to InProgress; once the
    settle timer has expired and the handlers made ready meanwhile have
    run, the status is Completed again, nothing is left to run, the fleet
    is the one re-ranking gives (the fleet as it was when re-ranking is
    not requested), and the rotation and check timers each wait anew. *)
Theorem reconfigure_completes (s : Engine) (reConfig : bool) :
  sound s -> blocked s = false -> ready s = [] ->
  let s1 := configCR reConfig s in
  let s2 := run (timerDone warmRedundantTimer success
                   :: repeat runReady (S (List.length (ready s1)))) s1 in
  coldRedundancyStatus s1 = inProgress /\
  coldRedundancyStatus s2 = completed /\
  ready s2 = [] /\
  outstanding s2 = 0%nat /\
  powerSupplies s2 = powerSupplies (if reConfig then reRanking s else s) /\
  waiting (timers s2 timerRotation) = [startRotateCR_wait] /\
  waiting (timers s2 timerCheck) = [startCRCheck_wait].
Proof.
  intros Hx Hb Hready.
  destruct (configCR_started reConfig s Hb) as (Hr1 & Hw1 & Hrot1 & Hchk1 & Hst1 & Hp1 & Ha1).
  revert Hr1 Hw1 Hrot1 Hchk1 Hst1 Hp1 Ha1. generalize (configCR reConfig s).
  intros s1 Hr1 Hw1 Hrot1 Hchk1 Hst1 Hp1 Ha1 s1' s2. subst s1'.
  rewrite Hready, (sound_idle_timer s Hx Hb) in Hr1. cbn [app aborted map] in Hr1.
  rewrite app_nil_r in Hr1.
  set (hs := waiting (timers s timerRotation) ++ waiting (timers s timerCheck)).
  assert (Hr1' : ready s1 = aborted hs) by (subst hs; unfold aborted; now rewrite map_app).
  assert (Hhs : Forall (fun h => is_settle h = false) hs).
  { subst hs. apply Forall_app. split; apply tidy_not_settle;
      try exact (proj1 Hx); discriminate. }
  set (s1' := step (timerDone warmRedundantTimer success) s1).
  assert (Hr' : ready s1' = aborted hs ++ [(configCR_wait reConfig, success)]).
  { subst s1'. cbn [step ready with_timer set_timers set_ready]. now rewrite Hr1', Hw1. }
  assert (Hs2 : s2 = configCR_handler reConfig success (set_ready [] s1')).
  { subst s2. cbn [run fold_left]. fold s1'.
    change (fold_left (fun s e => step e s)
                      (repeat runReady (S (List.length (ready s1)))) s1')
      with (run (repeat runReady (S (List.length (ready s1)))) s1').
    replace (S (List.length (ready s1))) with (List.length hs + 1)%nat
      by (rewrite Hr1'; unfold aborted; rewrite length_map; lia).
    rewrite repeat_app, run_app, (drain_aborted hs _ s1' Hhs Hr').
    cbn [repeat run fold_left step ready set_ready run_handler]. reflexivity. }
  assert (Htm : forall t, t <> warmRedundantTimer -> timers s1' t = timers s1 t).
  { intros t Ht. subst s1'. cbn [step timers with_timer set_timers set_ready].
    destruct t; try reflexivity. contradiction. }
  destruct (configCR_handler_quiet reConfig success (set_ready [] s1')) as [Hq1 Hq2].
  rewrite <- Hs2 in Hq1, Hq2.
  split; [exact Hst1|].
  split; [rewrite Hs2; reflexivity|].
  split; [rewrite Hq2; reflexivity|].
  split.
  - unfold outstanding. rewrite Hq1, Hq2. subst s1'.
    cbn [step timers ready with_timer set_timers set_ready TimerId_eqb waiting filter
         List.length]. reflexivity.
  - split.
    + rewrite Hs2. unfold configCR_handler.
      cbn [powerSupplies set_coldRedundancyStatus set_world].
      destruct reConfig; [|exact Hp1].
      apply reRanking_fleet_only; [exact Ha1|exact Hp1].
    + rewrite Hq1. cbn [timers set_ready].
      rewrite !Htm by discriminate. split; assumption.
Qed.



End Completion.

(** * Properties of the presence poller *)

Section Polling.
Context {Q : Presence}.

Lemma present_insert b addr n (p : Poller) :
  present b (insert_psu addr n p) = present b p || (b =? u8 addr).
Proof.
  unfold present, insert_psu. cbn [psuPresence].
  rewrite existsb_app. cbn [existsb]. now rewrite orb_false_r.
Qed.

Lemma present_remove b addr n (p : Poller) :
  present b (remove_psu addr n p) = present b p && negb (b =? u8 addr).
Proof.
  unfold present, remove_psu. cbn [psuPresence].
  induction (psuPresence p) as [|x l IH]; [reflexivity|].
  cbn [filter existsb]. destruct (u8 addr =? x) eqn:E; cbn [negb existsb].
  - apply Z.eqb_eq in E. subst x. rewrite IH.
    destruct (b =? u8 addr); cbn; [now rewrite andb_false_r|reflexivity].
  - rewrite IH. destruct (b =? x) eqn:Ebx; cbn; [|reflexivity].
    apply Z.eqb_eq in Ebx. subst x. rewrite Z.eqb_sym, E. reflexivity.
Qed.

Lemma present_In b (p : Poller) : present b p = true <-> In b (psuPresence p).
Proof.
  unfold present. rewrite existsb_exists. split.
  - intros (x & Hin & E). apply Z.eqb_eq in E. now subst x.
  - intros Hin. exists b. split; [assumption|apply Z.eqb_refl].
Qed.

Lemma keepAlive_loop_cons addr rest n found (p : Poller) :
  keepAlive_loop (addr :: rest) n found p
  = keepAlive_loop rest (u8 (n + 1)) (fst (keepAlive_turn addr n found p))
                   (snd (keepAlive_turn addr n found p)).
Proof.
  cbn [keepAlive_loop]. unfold keepAlive_turn.
  destruct (pingPSU addr p) as [ret p1].
  destruct (0 =? ret);
    [destruct (negb (present (u8 addr) p1))|destruct (present (u8 addr) p1)];
    reflexivity.
Qed.

(** What one turn sends and changes. *)
Lemma keepAlive_turn_effect addr n found (p : Poller) :
  let r := keepAlive_turn addr n found p in
  (exists js, sent (snd r) = sent p ++ js /\ filter is_rescan js = [] /\
              (List.length js <= 1)%nat /\
              fst r = found || existsb is_inserted js) /\
  addrTable (snd r) = addrTable p /\ psuRescanBus (snd r) = psuRescanBus p /\
  pingFd (snd r) = pingFd p /\
  (forall b, b <> u8 addr -> present b (snd r) = present b p) /\
  (NoDup (psuPresence p) -> NoDup (psuPresence (snd r))).
Proof.
  cbn zeta. unfold keepAlive_turn, pingPSU.
  destruct (i2cPing (pingFd p) (u8 addr) (env p)) as [ret e].
  set (p1 := Build_Poller _ _ _ _ _ _).
  assert (Hp1 : psuPresence p1 = psuPresence p) by reflexivity.
  destruct (0 =? ret).
  - destruct (present (u8 addr) p1) eqn:Hpr; cbn [negb fst snd].
    + split; [exists []; rewrite app_nil_r, orb_false_r; repeat split; cbn; lia|].
      repeat split; auto.
    + split.
      * eexists. split; [reflexivity|]. cbn. rewrite orb_true_r. repeat split. lia.
      * repeat split; auto.
        -- intros b Hb. rewrite present_insert.
           replace (b =? u8 addr) with false by (symmetry; now apply Z.eqb_neq).
           now rewrite orb_false_r.
        -- intros Hnd. cbn [psuPresence insert_psu]. rewrite Hp1.
           apply NoDup_app; [assumption|repeat constructor; intros []|].
           intros x Hx [<- | []].
           assert (Ht : present (u8 addr) p1 = true) by (now apply present_In; rewrite Hp1).
           congruence.
  - destruct (present (u8 addr) p1) eqn:Hpr; cbn [fst snd].
    + split.
      * eexists. split; [reflexivity|]. cbn. rewrite orb_false_r. repeat split. lia.
      * repeat split; auto.
        -- intros b Hb. rewrite present_remove.
           replace (b =? u8 addr) with false by (symmetry; now apply Z.eqb_neq).
           now rewrite andb_true_r.
        -- intros Hnd. cbn [psuPresence remove_psu]. rewrite Hp1. now apply NoDup_filter.
    + split; [exists []; rewrite app_nil_r, orb_false_r; repeat split; cbn; lia|].
      repeat split; auto.
Qed.

Lemma keepAlive_loop_effect addrs : forall n found (p : Poller),
  let r := keepAlive_loop addrs n found p in
  (exists js, sent (snd r) = sent p ++ js /\ filter is_rescan js = [] /\
              (List.length js <= List.length addrs)%nat /\
              fst r = found || existsb is_inserted js) /\
  addrTable (snd r) = addrTable p /\ psuRescanBus (snd r) = psuRescanBus p /\
  pingFd (snd r) = pingFd p /\
  (forall b, ~ In b (map u8 addrs) -> present b (snd r) = present b p) /\
  (NoDup (psuPresence p) -> NoDup (psuPresence (snd r))).
Proof.
  induction addrs as [|addr rest IH]; intros n found p; cbn zeta.
  - cbn [keepAlive_loop fst snd]. split.
    + exists []. rewrite app_nil_r, orb_false_r. repeat split. cbn. lia.
    + repeat split; auto.
  - rewrite keepAlive_loop_cons.
    destruct (keepAlive_turn_effect addr n found p)
      as ((js1 & Hs1 & Hr1 & Hl1 & Hf1) & Ha1 & Hb1 & Hp1 & Hpr1 & Hn1).
    cbn zeta in *.
    destruct (IH (u8 (n + 1)) (fst (keepAlive_turn addr n found p))
                 (snd (keepAlive_turn addr n found p)))
      as ((js2 & Hs2 & Hr2 & Hl2 & Hf2) & Ha2 & Hb2 & Hp2 & Hpr2 & Hn2).
    cbn zeta in *. split.
    + exists (js1 ++ js2). rewrite Hs2, Hs1, <- app_assoc, filter_app, Hr1, Hr2.
      rewrite length_app, existsb_app, Hf2, Hf1, orb_assoc. cbn [List.length].
      repeat split. lia.
    + repeat split; try congruence.
      * intros b Hb. cbn [map In] in Hb.
        rewrite Hpr2 by tauto. apply Hpr1. intros ->. tauto.
      * intros Hnd. auto.
Qed.

(** X21. A polling cycle sends at most one journal message for each
    address of the table and then requests a rescan exactly when one of
    them reports an insertion: once, on the configured bus, however many
    PSUs were inserted, and never when none was. *)
Theorem keepAlive_rescans_once (p : Poller) :
  exists js rs,
    sent (keepAlive p) = sent p ++ js ++ rs /\
    filter is_rescan js = [] /\
    (List.length js <= List.length (addrTable p))%nat /\
    (existsb is_inserted js = true ->
     rs = [ReScanBus (psuRescanBus p)] \/ rs = [ReScanBus (psuRescanBus p); RescanFailed]) /\
    (existsb is_inserted js = false -> rs = []).
Proof.
  unfold keepAlive.
  destruct (keepAlive_loop_effect (addrTable p) 1 false p)
    as ((js & Hs & Hr & Hl & Hf) & _ & Hb & _).
  cbn zeta in *.
  destruct (keepAlive_loop (addrTable p) 1 false p) as [found p1].
  cbn [fst snd orb] in *. subst found.
  destruct (existsb is_inserted js) eqn:Hins.
  - unfold rescanPSUEntityManager. rewrite Hb.
    destruct (reScanBus (psuRescanBus p) (env p1)) as [threw e]. cbn [sent].
    exists js. eexists. rewrite Hs, <- app_assoc. split; [reflexivity|].
    split; [exact Hr|]. split; [exact Hl|].
    split; [intros _; destruct threw; auto|intros H; congruence].
  - exists js, []. rewrite app_nil_r.
    split; [exact Hs|]. split; [exact Hr|]. split; [exact Hl|].
    split; [intros H; congruence|reflexivity].
Qed.

Lemma rescan_presence bus (p : Poller) :
  psuPresence (rescanPSUEntityManager bus p) = psuPresence p.
Proof. unfold rescanPSUEntityManager. now destruct (reScanBus bus (env p)). Qed.

(** X22. A polling cycle changes the recorded presence of no address
    outside the table, and never records an address twice. *)
Theorem keepAlive_presence_frame (p : Poller) :
  (forall b, ~ In b (map u8 (addrTable p)) ->
             present b (keepAlive p) = present b p) /\
  (NoDup (psuPresence p) -> NoDup (psuPresence (keepAlive p))).
Proof.
  unfold keepAlive.
  destruct (keepAlive_loop_effect (addrTable p) 1 false p)
    as (_ & _ & _ & _ & Hpr & Hnd).
  cbn zeta in *.
  destruct (keepAlive_loop (addrTable p) 1 false p) as [found p1]. cbn [snd] in *.
  destruct found.
  - unfold present in *. rewrite rescan_presence. auto.
  - auto.
Qed.

Lemma pingPSU_steady fd answers addr (p : Poller) :
  steady fd answers -> pingFd p = fd -> pingPSU addr p = (answers (u8 addr), p).
Proof.
  intros Hs <-. unfold pingPSU. rewrite Hs. now destruct p.
Qed.

(** On steady devices a turn makes the record of its address agree with
    the answer, and keeps the agreement of an address that agreed. *)
Lemma keepAlive_turn_steady fd answers addr n found (p : Poller) :
  steady fd answers -> pingFd p = fd ->
  let p' := snd (keepAlive_turn addr n found p) in
  present (u8 addr) p' = (0 =? answers (u8 addr)) /\
  (forall a, present (u8 a) p = (0 =? answers (u8 a)) ->
             present (u8 a) p' = (0 =? answers (u8 a))) /\
  (present (u8 addr) p = (0 =? answers (u8 addr)) ->
   keepAlive_turn addr n found p = (found, p)).
Proof.
  intros Hs Hfd. cbn zeta. unfold keepAlive_turn.
  rewrite (pingPSU_steady fd answers addr p Hs Hfd).
  destruct (0 =? answers (u8 addr)) eqn:Hok.
  - destruct (present (u8 addr) p) eqn:Hpr; cbn [negb snd].
    + repeat split; auto.
    + repeat split; [| |discriminate].
      * rewrite present_insert, Z.eqb_refl. apply orb_true_r.
      * intros a Ha. rewrite present_insert, Ha.
        destruct (u8 a =? u8 addr) eqn:E; [|apply orb_false_r].
        apply Z.eqb_eq in E. rewrite E, Hok. reflexivity.
  - destruct (present (u8 addr) p) eqn:Hpr; cbn [snd].
    + repeat split; [| |discriminate].
      * rewrite present_remove, Z.eqb_refl. apply andb_false_r.
      * intros a Ha. rewrite present_remove, Ha.
        destruct (u8 a =? u8 addr) eqn:E; [|apply andb_true_r].
        apply Z.eqb_eq in E. rewrite E, Hok. reflexivity.
    + repeat split; auto.
Qed.

Lemma keepAlive_loop_steady fd answers addrs : forall n found (p : Poller),
  steady fd answers -> pingFd p = fd ->
  let p' := snd (keepAlive_loop addrs n found p) in
  (forall a, In a addrs -> present (u8 a) p' = (0 =? answers (u8 a))) /\
  (forall a, present (u8 a) p = (0 =? answers (u8 a)) ->
             present (u8 a) p' = (0 =? answers (u8 a))) /\
  ((forall a, In a addrs -> present (u8 a) p = (0 =? answers (u8 a))) ->
   keepAlive_loop addrs n found p = (found, p)).
Proof.
  induction addrs as [|addr rest IH]; intros n found p Hs Hfd; cbn zeta.
  - cbn [keepAlive_loop snd]. repeat split; auto. intros a [].
  - rewrite keepAlive_loop_cons.
    destruct (keepAlive_turn_steady fd answers addr n found p Hs Hfd) as (H1 & H2 & H3).
    cbn zeta in *.
    assert (Hfd1 : pingFd (snd (keepAlive_turn addr n found p)) = fd)
      by (destruct (keepAlive_turn_effect addr n found p) as (_ & _ & _ & -> & _); exact Hfd).
    destruct (IH (u8 (n + 1)) (fst (keepAlive_turn addr n found p))
                 (snd (keepAlive_turn addr n found p)) Hs Hfd1) as (I1 & I2 & I3).
    cbn zeta in *. repeat split.
    + intros a [<- | Hin]; [now apply I2|now apply I1].
    + intros a Ha. now apply I2, H2.
    + intros Hall. rewrite H3 by (apply Hall; now left). cbn [fst snd].
      specialize (IH (u8 (n + 1)) found p Hs Hfd). cbn zeta in IH.
      apply IH. intros a Hin. apply Hall. now right.
Qed.

(** X23. When the devices answer a ping the same way each time, one
    polling cycle makes the recorded presence of every address of the
    table agree with its answer, and a second cycle changes nothing: it
    sends no message and requests no rescan. *)
Theorem keepAlive_settles (p : Poller) (answers : Z -> Z) :
  steady (pingFd p) answers ->
  (forall a, In a (addrTable p) ->
             present (u8 a) (keepAlive p) = (0 =? answers (u8 a))) /\
  keepAlive (keepAlive p) = keepAlive p.
Proof.
  intros Hs.
  destruct (keepAlive_loop_steady (pingFd p) answers (addrTable p) 1 false p Hs eq_refl)
    as (H1 & _ & _).
  destruct (keepAlive_loop_effect (addrTable p) 1 false p)
    as (_ & Ha & _ & Hfd & _).
  cbn zeta in *.
  assert (Hagree : forall a, In a (addrTable p) ->
                     present (u8 a) (keepAlive p) = (0 =? answers (u8 a))).
  { intros a Hin. unfold keepAlive.
    destruct (keepAlive_loop (addrTable p) 1 false p) as [found p1]. cbn [snd] in *.
    destruct found; [|now apply H1].
    unfold present. rewrite rescan_presence. now apply H1. }
  assert (Htable : addrTable (keepAlive p) = addrTable p /\ pingFd (keepAlive p) = pingFd p).
  { unfold keepAlive.
    destruct (keepAlive_loop (addrTable p) 1 false p) as [found p1]. cbn [snd] in *.
    destruct found; [|auto].
    unfold rescanPSUEntityManager. now destruct (reScanBus _ _). }
  destruct Htable as [Ht Hf].
  split; [exact Hagree|].
  set (p' := keepAlive p) in *.
  unfold keepAlive at 1. rewrite Ht.
  rewrite <- Hf in Hs.
  destruct (keepAlive_loop_steady (pingFd p') answers (addrTable p) 1 false p' Hs eq_refl)
    as (_ & _ & H3).
  cbn zeta in H3. rewrite H3 by exact Hagree. reflexivity.
Qed.

End Polling.

(** * Further concrete runs *)

Lemma readPmbus_reads_witness :
  do_i2cGet 7 88 (-1) written_world
  = (0, 3, snd (do_i2cGet 7 88 (-1) written_world)) /\
  fst (readPmbus 7 88 (-1) written_world) = 3.
Proof.
  split; [reflexivity|].
  rewrite (proj2 (proj2 (readPmbus_reads 7 88 (-1) written_world))
                 0 3 (snd (do_i2cGet 7 88 (-1) written_world)) eq_refl eq_refl).
  reflexivity.
Defined.

Lemma putWarmRedundant_writes_witness :
  let s := engine_on mixed_fleet bmcSpecific 2 in
  crSupported s = true /\
  In (psu_at 2 2 normal) (powerSupplies s) /\
  exists es, io_log (world (putWarmRedundant s)) = io_log (world s) ++ es /\
             In (IoSet 1 2 208 0) es.
Proof.
  intros s.
  assert (Hin : In (psu_at 2 2 normal) (powerSupplies s)) by (right; right; left; reflexivity).
  split; [reflexivity|]. split; [exact Hin|].
  destruct (putWarmRedundant_writes s) as (_ & _ & es & Hes & _ & Hw).
  exists es. split; [exact Hes|]. exact (Hw eq_refl _ Hin eq_refl).
Defined.

Lemma configCR_handler_writes_witness :
  let s := engine_on mixed_fleet bmcSpecific 2 in
  In (psu_at 0 3 normal) (powerSupplies s) /\
  exists es, io_log (world (configCR_handler false success s)) = io_log (world s) ++ es /\
             In (IoSet 1 0 208 3) es.
Proof.
  intros s.
  assert (Hin : In (psu_at 0 3 normal) (powerSupplies s)) by (left; reflexivity).
  split; [exact Hin|].
  destruct (configCR_handler_writes s false) as (_ & _ & _ & _ & es & Hes & _ & Hw).
  exists es. split; [exact Hes|].
  apply (Hw _ Hin eq_refl). discriminate.
Defined.

Lemma reRanking_user_healthy_witness :
  let s := engine_on four_psus userSpecific 3 in
  rotationAlgorithm s = userSpecific /\
  Forall (fun psu => state psu = normal) (powerSupplies s) /\
  reRanking s = s.
Proof.
  intros s.
  assert (Hn : Forall (fun psu => state psu = normal) (powerSupplies s))
    by (repeat constructor).
  split; [reflexivity|]. split; [exact Hn|].
  exact (proj1 (reRanking_user_healthy s eq_refl Hn)).
Defined.

Lemma reRanking_stores_ranks_witness :
  let s := engine_on mixed_fleet bmcSpecific 2 in
  rotationAlgorithm s = bmcSpecific /\
  (List.length (powerSupplies s) <= 256)%nat /\
  (List.length (powerSupplies s) <= List.length (rotationRankOrder s))%nat /\
  rotationRankOrder s = [1; 2; 3; 4] /\
  rotationRankOrder (reRanking s) = [1; 0; 2; 4].
Proof.
  intros s.
  assert (Hl : (List.length (powerSupplies s) <= 256)%nat) by (cbn; lia).
  assert (Hf : (List.length (powerSupplies s) <= List.length (rotationRankOrder s))%nat)
    by (cbn; lia).
  split; [reflexivity|]. split; [exact Hl|]. split; [exact Hf|]. split; [reflexivity|].
  destruct (reRanking_stores_ranks s eq_refl Hl) as (_ & _ & H).
  rewrite (H Hf). reflexivity.
Defined.

Lemma rotation_rank_order_round_trip_witness :
  let s := engine_on four_psus bmcSpecific 3 in
  let s' := rotateCR_handler success s in
  (List.length (powerSupplies s) <= 256)%nat /\
  rotationRankOrder s' = [2; 3; 4; 1] /\
  apply_rank (rotationRankOrder s') 0 (powerSupplies s') = powerSupplies s'.
Proof.
  intros s s'.
  assert (Hl : (List.length (powerSupplies s) <= 256)%nat) by (cbn; lia).
  split; [exact Hl|]. split; [reflexivity|].
  exact (proj1 (rotation_rank_order_round_trip s Hl)).
Defined.

Lemma reRanking_rank_order_round_trip_witness :
  let s := engine_on mixed_fleet bmcSpecific 2 in
  let s' := reRanking s in
  rotationAlgorithm s = bmcSpecific /\
  (List.length (powerSupplies s) <= 256)%nat /\
  (List.length (powerSupplies s) <= List.length (rotationRankOrder s))%nat /\
  apply_rank (rotationRankOrder s') 0 (powerSupplies s') = powerSupplies s'.
Proof.
  intros s s'.
  assert (Hl : (List.length (powerSupplies s) <= 256)%nat) by (cbn; lia).
  assert (Hf : (List.length (powerSupplies s) <= List.length (rotationRankOrder s))%nat)
    by (cbn; lia).
  split; [reflexivity|]. split; [exact Hl|]. split; [exact Hf|].
  exact (proj1 (reRanking_rank_order_round_trip s eq_refl Hl Hf)).
Defined.


Lemma rotateCR_keeps_ranks_distinct_witness :
  let s := engine_on four_psus bmcSpecific 3 in
  Forall (fun psu => state psu = normal) (powerSupplies s) /\
  Forall (fun r => 1 <= r <= 4) (map order (powerSupplies s)) /\
  NoDup (map order (powerSupplies s)) /\
  4 <= 254 /\
  NoDup (map order (powerSupplies (rotateCR_handler success s))).
Proof.
  intros s.
  assert (Hn : Forall (fun psu => state psu = normal) (powerSupplies s))
    by (repeat constructor).
  assert (Hr : Forall (fun r => 1 <= r <= Z.of_nat (List.length (powerSupplies s)))
                      (map order (powerSupplies s)))
    by (repeat constructor; discriminate).
  assert (Hd : NoDup (map order (powerSupplies s))).
  { repeat constructor; cbn; intros H;
      repeat (destruct H as [H | H]; [discriminate H|]); exact H. }
  assert (Hb : Z.of_nat (List.length (powerSupplies s)) <= 254) by discriminate.
  split; [exact Hn|]. split; [exact Hr|]. split; [exact Hd|]. split; [exact Hb|].
  exact (proj1 (rotateCR_keeps_ranks_distinct s Hn Hr Hd Hb)).
Defined.

Lemma rotateCR_cycle_witness :
  let s := engine_on four_psus bmcSpecific 3 in
  Forall (fun psu => state psu = normal) (powerSupplies s) /\
  Forall (fun psu => 0 <= order psu <= 4) (powerSupplies s) /\
  4 <= 254 /\
  map order (powerSupplies (Nat.iter 3 (rotateCR_handler success) s)) = [4; 1; 2; 3] /\
  map order (powerSupplies (Nat.iter 4 (rotateCR_handler success) s)) = [1; 2; 3; 4].
Proof.
  intros s.
  assert (Hn : Forall (fun psu => state psu = normal) (powerSupplies s))
    by (repeat constructor).
  assert (Hr : Forall (fun psu => 0 <= order psu <= Z.of_nat (List.length (powerSupplies s)))
                      (powerSupplies s))
    by (repeat constructor; discriminate).
  assert (Hb : Z.of_nat (List.length (powerSupplies s)) <= 254) by discriminate.
  split; [exact Hn|]. split; [exact Hr|]. split; [exact Hb|].
  split.
  - rewrite (proj1 (rotateCR_cycle s 3 Hn Hr Hb)). reflexivity.
  - exact (proj2 (rotateCR_cycle s 3 Hn Hr Hb)).
Defined.

Lemma checkRedundancyEvent_coalesces_witness :
  let s := engine_on four_psus bmcSpecific 3 in
  let s' := Nat.iter 3 checkRedundancyEvent s in
  crSupported s = true /\ powerSupplyRedundancyEnabled s = true /\
  waiting (timers s' puRedundantTimer) = [checkRedundancyEvent_wait] /\
  ready s' = [(checkRedundancyEvent_wait, operation_aborted);
              (checkRedundancyEvent_wait, operation_aborted)].
Proof.
  intros s s'. split; [reflexivity|]. split; [reflexivity|].
  destruct (checkRedundancyEvent_coalesces s 2 eq_refl eq_refl) as (H1 & _ & H3 & _).
  split; [exact H1|]. exact H3.
Defined.

Lemma psuName_of_path_round_trip_witness :
  psuName_of_path psu2_path = inr "PSU2"%string.
Proof.
  apply (proj2 (psuName_of_path_round_trip psu2_path "PSU2")).
  exists "/xyz/openbmc_project/State/Decorator"%string, "/"%char, "OperationalStatus"%string.
  repeat split. now left.
Defined.

Lemma eventCollect_signal_marks_witness :
  let s := engine_on four_psus bmcSpecific 3 in
  find_last_of ["/"%char; "\"%char] ("PSU2" ++ String "_" "OperationalStatus")%string = None /\
  find_first "_"%char "PSU2" = None /\
  map state (powerSupplies (eventCollect_signal psu2_path (Some [("functional"%string, false)]) s))
  = [normal; acLost; normal; normal].
Proof.
  intros s. split; [reflexivity|]. split; [reflexivity|].
  destruct (eventCollect_signal_marks s "/xyz/openbmc_project/State/Decorator" "PSU2"
              "OperationalStatus" [("functional"%string, false)] eq_refl eq_refl)
    as (H & _).
  cbn zeta in H. unfold psu2_path.
  change ("/xyz/openbmc_project/State/Decorator/PSU2_OperationalStatus"%string)
    with ("/xyz/openbmc_project/State/Decorator"
          ++ String "/" ("PSU2" ++ String "_" "OperationalStatus"))%string.
  rewrite (H "functional"%string false eq_refl). reflexivity.
Defined.

Lemma eventCollect_signal_rejects_witness :
  let s := engine_on four_psus bmcSpecific 3 in
  find_last_of ["/"%char; "\"%char] "PSU2_OperationalStatus" = None /\
  exists msg,
    eventCollect_signal "PSU2_OperationalStatus" (Some [("functional"%string, false)]) s
    = cerr_engine msg s.
Proof.
  intros s. split; [reflexivity|].
  apply eventCollect_signal_rejects. left. reflexivity.
Defined.

Lemma checkCR_reads_then_reconfigures_witness :
  crSupported busy_engine = true /\
  powerSupplyRedundancyEnabled busy_engine = true /\
  coldRedundancyStatus busy_engine = inProgress /\
  exists w', checkCR busy_engine = set_world w' busy_engine.
Proof.
  split; [reflexivity|]. split; [reflexivity|]. split; [reflexivity|].
  destruct (proj2 (proj2 (checkCR_reads_then_reconfigures busy_engine)) eq_refl eq_refl)
    as (w' & es & _ & _ & _ & H).
  exists w'. exact (H eq_refl).
Defined.

Lemma settings_reply_all_or_nothing_witness :
  let s := engine_on four_psus userSpecific 3 in
  let s' := settings_handler false short_period_reply s in
  get_if_u32 (lookup "PeriodOfRotation" short_period_reply) = Some 3600 /\
  rotationAlgorithm s = userSpecific /\
  rotationAlgorithm s' = bmcSpecific /\
  rotationRankOrder s' = [1; 2; 3; 4].
Proof.
  intros s s'. split; [reflexivity|]. split; [reflexivity|].
  destruct (proj2 (settings_reply_all_or_nothing s false short_period_reply)
                  3600 true "bmcSpecific"%string true [1; 2; 3; 4]
                  eq_refl eq_refl eq_refl eq_refl eq_refl eq_refl) as (_ & H2 & _ & H4).
  split; [exact H2|exact H4].
Defined.

Lemma refreshConfig_without_ranks_witness :
  let s := engine_on four_psus bmcSpecific 3 in
  let values := [("RotationEnabled"%string, VBool false)] in
  (forall v, In ("RotationRankOrder"%string, v) values -> get_if_bytes (Some v) = None) /\
  powerSupplies (refreshConfig values s) = powerSupplies s /\
  coldRedundancyStatus (refreshConfig values s) = completed.
Proof.
  intros s values.
  assert (H : forall v, In ("RotationRankOrder"%string, v) values ->
                        get_if_bytes (Some v) = None).
  { intros v [Hv | []]. discriminate Hv. }
  split; [exact H|].
  destruct (refreshConfig_without_ranks s values H) as (H1 & H2 & _).
  split; [exact H1|exact H2].
Defined.

Lemma keepAlive_rescans_once_witness :
  sent (keepAlive poller_with_89)
  = [PowerSupplyInserted "PSU1"; PowerSupplyRemoved "PSU2"; ReScanBus 7] /\
  exists js rs, sent (keepAlive poller_with_89) = sent poller_with_89 ++ js ++ rs /\
                filter is_rescan js = [].
Proof.
  split; [reflexivity|].
  destruct (keepAlive_rescans_once poller_with_89) as (js & rs & H1 & H2 & _).
  exists js, rs. split; assumption.
Defined.

Lemma keepAlive_presence_frame_witness :
  ~ In 90 (map u8 (addrTable poller_with_89)) /\
  NoDup (psuPresence poller_with_89) /\
  present 90 (keepAlive poller_with_89) = false /\
  NoDup (psuPresence (keepAlive poller_with_89)).
Proof.
  assert (Hout : ~ In 90 (map u8 (addrTable poller_with_89)))
    by (intros [H | [H | []]]; discriminate H).
  assert (Hnd : NoDup (psuPresence poller_with_89)) by (repeat constructor; intros []).
  split; [exact Hout|]. split; [exact Hnd|].
  destruct (keepAlive_presence_frame poller_with_89) as [H1 H2].
  split; [rewrite (H1 90 Hout); reflexivity|exact (H2 Hnd)].
Defined.

Lemma keepAlive_settles_witness :
  @steady one_psu_answers 3 (fun addr => if addr =? 88 then 0 else -1) /\
  psuPresence (keepAlive poller_with_89) = [88] /\
  keepAlive (keepAlive poller_with_89) = keepAlive poller_with_89.
Proof.
  assert (Hs : @steady one_psu_answers (pingFd poller_with_89)
                       (fun addr => if addr =? 88 then 0 else -1))
    by (intros addr e; reflexivity).
  split; [exact Hs|]. split; [reflexivity|].
  exact (proj2 (keepAlive_settles poller_with_89 _ Hs)).
Defined.

Lemma armed_engine_sound psus : @sound register_file (armed_engine psus).
Proof.
  split.
  - intros t. destruct t; cbn; split; (lia || reflexivity).
  - left. split; reflexivity.
Qed.

Lemma reconfigure_completes_witness :
  let s := armed_engine mixed_fleet in
  let s2 := run (timerDone warmRedundantTimer success :: repeat runReady 3)
                (configCR true s) in
  sound s /\ blocked s = false /\ ready s = [] /\
  List.length (ready (configCR true s)) = 2%nat /\
  coldRedundancyStatus s2 = completed /\
  ready s2 = [] /\
  map order (powerSupplies s2) = [1; 0; 2].
Proof.
  intros s s2.
  assert (Hs : sound s) by apply armed_engine_sound.
  split; [exact Hs|]. split; [reflexivity|]. split; [reflexivity|].
  split; [vm_compute; reflexivity|].
  destruct (reconfigure_completes s true Hs eq_refl eq_refl) as (_ & H2 & H3 & _ & H5 & _).
  split; [exact H2|]. split; [exact H3|].
  apply (f_equal (map order)) in H5. exact H5.
Defined.

